(** * football_sync.py: the daily football-data pipeline

    A shallow embedding of [src/football_sync.py] and the properties the
    specification states about it.

    The program talks to three outside parties: the football-data HTTP API
    (through [requests]), a hosted database (through the [supabase] client)
    and the wall clock.  They are modelled as an explicit [World]: what the
    next HTTP calls will answer, whether the database accepts the next
    statements, what the next clock readings are, the two tables, and the
    trace of every effect the program performed, oldest first.  Python
    exceptions are a result type threaded through a small state-and-error
    monad. *)

From Stdlib Require Import ZArith List String Bool Lia.
Import ListNotations.
Local Open Scope string_scope.
Local Open Scope list_scope.
Local Open Scope Z_scope.

(** ** JSON documents as Python sees them after [response.json()] *)

#[local] Unset Elimination Schemes.
Inductive json : Type :=
| JNull
| JBool (b : bool)
| JInt (z : Z)
| JFloat (literal : string)
| JStr (s : string)
| JArr (items : list json)
| JObj (members : list (string * json)).
#[local] Set Elimination Schemes.

(** A subscript is a string key ([d['table']]) or an integer ([l[0]]). *)
Inductive subscript : Type :=
| SKey (k : string)
| SIdx (i : Z).

Inductive request_error : Type :=
| ConnectionError (detail : string)
| HTTPError (status_code : Z)
| JSONDecodeError.

(** The exceptions the program can meet.  [RequestException] stands for
    [requests.exceptions.RequestException] and its subclasses; [DbError] for
    whatever [execute()] raises; the others are Python's built-in lookup
    errors. *)
Inductive exn : Type :=
| RequestException (e : request_error)
| KeyError (k : subscript)
| IndexError
| TypeError
| AttributeError
| DbError (detail : string).

Inductive result (A : Type) : Type :=
| Ok (a : A)
| Raise (e : exn).
Arguments Ok {A} a.
Arguments Raise {A} e.

Definition rbind {A B : Type} (r : result A) (k : A -> result B) : result B :=
  match r with
  | Ok a => k a
  | Raise e => Raise e
  end.

Notation "'get' x ':=' r 'in' k" := (rbind r (fun x => k))
  (at level 10, x name, r at level 100, k at level 200).

Definition is_ok {A : Type} (r : result A) : bool :=
  match r with
  | Ok _ => true
  | Raise _ => false
  end.

Module Py.

Fixpoint dict_get (k : string) (members : list (string * json)) : option json :=
  match members with
  | [] => None
  | (k', v) :: rest => if String.eqb k k' then Some v else dict_get k rest
  end.

Fixpoint is_substring (needle hay : string) : bool :=
  String.prefix needle hay
  || match hay with
     | EmptyString => false
     | String _ rest => is_substring needle rest
     end.

Fixpoint chars (s : string) : list json :=
  match s with
  | EmptyString => []
  | String c rest => JStr (String c EmptyString) :: chars rest
  end.

Definition is_str (k : string) (v : json) : bool :=
  match v with
  | JStr s => String.eqb k s
  | _ => false
  end.

(** [k in v] for a string [k]. *)
Definition contains (k : string) (v : json) : result bool :=
  match v with
  | JObj members =>
      Ok (match dict_get k members with Some _ => true | None => false end)
  | JArr items => Ok (existsb (is_str k) items)
  | JStr s => Ok (is_substring k s)
  | _ => Raise TypeError
  end.

(** Sequence indexing, negative indices counting from the end. *)
Definition seq_index {A : Type} (l : list A) (i : Z) : result A :=
  let n := Z.of_nat (List.length l) in
  let j := if i <? 0 then n + i else i in
  if (0 <=? j) && (j <? n)
  then match nth_error l (Z.to_nat j) with
       | Some x => Ok x
       | None => Raise IndexError
       end
  else Raise IndexError.

(** [v[s]]. *)
Definition getitem (v : json) (s : subscript) : result json :=
  match v, s with
  | JObj members, SKey k =>
      match dict_get k members with
      | Some x => Ok x
      | None => Raise (KeyError s)
      end
  | JObj _, SIdx _ => Raise (KeyError s)
  | JArr items, SIdx i => seq_index items i
  | JStr str, SIdx i => seq_index (chars str) i
  | _, _ => Raise TypeError
  end.

(** [len(v)]. *)
Definition len (v : json) : result Z :=
  match v with
  | JObj members => Ok (Z.of_nat (List.length members))
  | JArr items => Ok (Z.of_nat (List.length items))
  | JStr s => Ok (Z.of_nat (String.length s))
  | _ => Raise TypeError
  end.

(** The values a [for x in v] loop visits. *)
Definition iter (v : json) : result (list json) :=
  match v with
  | JArr items => Ok items
  | JObj members => Ok (map (fun kv => JStr (fst kv)) members)
  | JStr s => Ok (chars s)
  | _ => Raise TypeError
  end.

(** [v.get(k, default)]: only a dict has the method. *)
Definition get_default (v : json) (k : string) (default : json) : result json :=
  match v with
  | JObj members =>
      Ok (match dict_get k members with Some x => x | None => default end)
  | _ => Raise AttributeError
  end.

End Py.

(** ** Rows, as the two mappers build them *)

(** Naive local date-times are microseconds since the epoch; a calendar date
    is a day number. *)
Definition day_us : Z := 86400000000.
Definition date_of (t : Z) : Z := t / day_us.
Definition midnight (d : Z) : Z := d * day_us.

Module Standing.
Record row : Type := mk {
  position : json;
  team_name : json;
  team_id : json;
  played_games : json;
  won : json;
  draw : json;
  lost : json;
  points : json;
  goals_for : json;
  goals_against : json;
  goal_difference : json;
  updated_at : Z
}.
End Standing.

Module Match.
Record row : Type := mk {
  match_id : json;
  match_date : json;
  status : json;
  matchday : json;
  home_team : json;
  home_team_id : json;
  away_team : json;
  away_team_id : json;
  home_score : json;
  away_score : json;
  updated_at : Z
}.

Definition restamp (t : Z) (r : row) : row :=
  mk (match_id r) (match_date r) (status r) (matchday r) (home_team r)
     (home_team_id r) (away_team r) (away_team_id r) (home_score r)
     (away_score r) t.
End Match.

(** ** The outside world *)

(** One call of [requests.get]: it raises before any response arrives, or
    hands back a response with a status code and a body that decodes as JSON
    ([Some]) or does not ([None]). *)
Inductive HttpOutcome : Type :=
| TransportFailure (detail : string)
| Response (status_code : Z) (body : option json).

(** Lines written to standard output.  Constant messages are kept as text;
    an f-string keeps its interpolated value instead of its rendering. *)
Inductive line : Type :=
| Text (s : string)
| ErrorLine (prefix : string) (e : exn)
| SyncedLine (n : nat) (what : string)
| StampLine (prefix : string) (t : Z).

Inductive event : Type :=
| HttpGet (url : string) (headers : list (string * string))
          (params : list (string * Z))
| DbDeleteGte (table column : string) (bound : Z)
| DbInsert (table : string) (rows : list Standing.row)
| DbUpsert (table : string) (r : Match.row) (on_conflict : string)
| Print (l : line)
| Sleep (seconds : Z).

(** [http_in]: what the coming calls of [requests.get] meet, in order.
    [db_in]: whether the database rejects ([Some reason]) or accepts ([None])
    the coming statements.  [clock_in]: the coming readings of
    [datetime.now()]; [now]: the latest reading.  [standings], [matches]:
    the two tables.  [trace]: every effect performed so far, oldest first. *)
Record World : Type := mkWorld {
  http_in : list HttpOutcome;
  db_in : list (option string);
  clock_in : list Z;
  now : Z;
  standings : list Standing.row;
  matches : list Match.row;
  trace : list event
}.

Definition emit (ev : event) (w : World) : World :=
  mkWorld (http_in w) (db_in w) (clock_in w) (now w) (standings w) (matches w)
          (trace w ++ [ev]).
Definition set_http (h : list HttpOutcome) (w : World) : World :=
  mkWorld h (db_in w) (clock_in w) (now w) (standings w) (matches w) (trace w).
Definition set_db_in (d : list (option string)) (w : World) : World :=
  mkWorld (http_in w) d (clock_in w) (now w) (standings w) (matches w) (trace w).
Definition set_clock (c : list Z) (t : Z) (w : World) : World :=
  mkWorld (http_in w) (db_in w) c t (standings w) (matches w) (trace w).
Definition set_standings (s : list Standing.row) (w : World) : World :=
  mkWorld (http_in w) (db_in w) (clock_in w) (now w) s (matches w) (trace w).
Definition set_matches (m : list Match.row) (w : World) : World :=
  mkWorld (http_in w) (db_in w) (clock_in w) (now w) (standings w) m (trace w).

(** ** The monad: state passing with exceptions *)

Definition M (A : Type) : Type := World -> result A * World.

Definition ret {A : Type} (a : A) : M A := fun w => (Ok a, w).
Definition raise {A : Type} (e : exn) : M A := fun w => (Raise e, w).
Definition bind {A B : Type} (m : M A) (k : A -> M B) : M B :=
  fun w =>
    match m w with
    | (Ok a, w') => k a w'
    | (Raise e, w') => (Raise e, w')
    end.
Definition lift {A : Type} (r : result A) : M A := fun w => (r, w).

Notation "x <- m ;; k" := (bind m (fun x => k))
  (at level 61, m at next level, right associativity).
Notation "m ;; k" := (bind m (fun _ => k))
  (at level 61, right associativity).

(** [try: m  except <catches> as e: handler e]. *)
Definition try_except {A : Type} (m : M A) (catches : exn -> bool)
    (handler : exn -> M A) : M A :=
  fun w =>
    match m w with
    | (Ok a, w') => (Ok a, w')
    | (Raise e, w') => if catches e then handler e w' else (Raise e, w')
    end.

Definition is_request_exception (e : exn) : bool :=
  match e with
  | RequestException _ => true
  | _ => false
  end.

(** Every exception of the model derives from Python's [Exception]. *)
Definition is_exception (e : exn) : bool := true.

(** A [for] loop that appends one value per iteration. *)
Fixpoint for_each {A B : Type} (f : A -> M B) (l : list A) : M (list B) :=
  match l with
  | [] => ret []
  | x :: rest => y <- f x ;; ys <- for_each f rest ;; ret (y :: ys)
  end.

(** A [for] loop run for its effects only. *)
Fixpoint for_each_ {A : Type} (f : A -> M unit) (l : list A) : M unit :=
  match l with
  | [] => ret tt
  | x :: rest => f x ;; for_each_ f rest
  end.

Definition print (l : line) : M unit := fun w => (Ok tt, emit (Print l) w).

(** [datetime.now()]: the next reading of the clock; a clock with no further
    readings stands still. *)
Definition datetime_now : M Z :=
  fun w =>
    match clock_in w with
    | t :: rest => (Ok t, set_clock rest t w)
    | [] => (Ok (now w), w)
    end.

(** [time.sleep(n)]. *)
Definition time_sleep (n : Z) : M unit := fun w => (Ok tt, emit (Sleep n) w).

(** ** requests *)

Definition response : Type := (Z * option json)%type.

(** [requests.get]: with nothing left to answer, the network is down. *)
Definition requests_get (url : string) (headers : list (string * string))
    (params : list (string * Z)) : M response :=
  fun w =>
    let w1 := emit (HttpGet url headers params) w in
    match http_in w1 with
    | [] => (Raise (RequestException (ConnectionError "unreachable")), w1)
    | TransportFailure d :: rest =>
        (Raise (RequestException (ConnectionError d)), set_http rest w1)
    | Response st body :: rest => (Ok (st, body), set_http rest w1)
    end.

(** [response.raise_for_status()] raises [HTTPError] for a client or server
    error status, 400 to 599. *)
Definition raise_for_status (r : response) : M unit :=
  if (400 <=? fst r) && (fst r <? 600)
  then raise (RequestException (HTTPError (fst r)))
  else ret tt.

(** [response.json()]: a body that does not decode raises
    [requests.exceptions.JSONDecodeError], which is a [RequestException]
    (requests 2.27 and later). *)
Definition response_json (r : response) : M json :=
  match snd r with
  | Some data => ret data
  | None => raise (RequestException JSONDecodeError)
  end.

(** ** supabase *)

(** [execute()]: the database rejects the statement (it is unreachable, a
    column type or a constraint is violated, ...), which raises and leaves
    the tables as they were, or applies it.  The schedule [db_in] says which;
    once it is used up every statement is applied.  The surrogate [id]
    column the database adds is not modelled. *)
Definition execute (ev : event) (apply : World -> World) : M unit :=
  fun w =>
    let w1 := emit ev w in
    match db_in w1 with
    | Some d :: rest => (Raise (DbError d), set_db_in rest w1)
    | None :: rest => (Ok tt, apply (set_db_in rest w1))
    | [] => (Ok tt, apply w1)
    end.

(** [table('standings').delete().gte('updated_at', bound)]. *)
Definition delete_gte (bound : Z) (tbl : list Standing.row) : list Standing.row :=
  filter (fun r => Standing.updated_at r <? bound) tbl.

Definition standings_delete_gte (bound : Z) : M unit :=
  execute (DbDeleteGte "standings" "updated_at" bound)
          (fun w => set_standings (delete_gte bound (standings w)) w).

(** [table('standings').insert(rows)]. *)
Definition standings_insert (rows : list Standing.row) : M unit :=
  execute (DbInsert "standings" rows)
          (fun w => set_standings (standings w ++ rows) w).

(** [match_id] is an INTEGER UNIQUE column: two rows conflict when they carry
    the same integer; NULL conflicts with nothing.  The rows are kept as they
    were sent: the column's own conversion of a value that is neither an
    integer nor null (a string of digits becomes the integer it spells) is
    not modelled, so what is stated about the content of the table is stated
    for integer and null keys, [plain_key]. *)
Definition same_key (a b : json) : bool :=
  match a, b with
  | JInt x, JInt y => x =? y
  | _, _ => false
  end.

(** Update if exists, insert if new. *)
Fixpoint upsert_row (r : Match.row) (tbl : list Match.row) : list Match.row :=
  match tbl with
  | [] => [r]
  | x :: rest =>
      if same_key (Match.match_id x) (Match.match_id r)
      then r :: rest
      else x :: upsert_row r rest
  end.

(** [table('matches').upsert(r, on_conflict='match_id')]. *)
Definition matches_upsert (r : Match.row) : M unit :=
  execute (DbUpsert "matches" r "match_id")
          (fun w => set_matches (upsert_row r (matches w)) w).

(** ** The pipeline *)

Record FootballDataPipeline : Type := mkPipeline {
  base_url : string;
  headers : list (string * string)
}.

(** [__init__]: the token header is added when [FOOTBALL_API_KEY] is set to
    a non-empty string. *)
Definition init (FOOTBALL_API_KEY : option string) : FootballDataPipeline :=
  mkPipeline "https://api.football-data.org/v4"
    match FOOTBALL_API_KEY with
    | Some (String c rest) => [("X-Auth-Token", String c rest)]
    | _ => []
    end.

Definition key (v : json) (k : string) : result json := Py.getitem v (SKey k).

(** The dict literal of the standings loop: the fields are read in the order
    the literal lists them, and [datetime.now()] is read last, so the lookups
    give the row but for its stamp. *)
Definition standing_fields (team : json) : result (Z -> Standing.row) :=
  get position := key team "position" in
  get t1 := key team "team" in
  get team_name := key t1 "name" in
  get t2 := key team "team" in
  get team_id := key t2 "id" in
  get played_games := key team "playedGames" in
  get won := key team "won" in
  get draw := key team "draw" in
  get lost := key team "lost" in
  get points := key team "points" in
  get goals_for := key team "goalsFor" in
  get goals_against := key team "goalsAgainst" in
  get goal_difference := key team "goalDifference" in
  Ok (Standing.mk position team_name team_id played_games won draw lost
        points goals_for goals_against goal_difference).

(** Lookups first, then the clock. *)
Definition stamped {B : Type} (fields : result (Z -> B)) : M B :=
  mk <- lift fields ;;
  stamp <- datetime_now ;;
  ret (mk stamp).

Definition standing_of_team (team : json) : M Standing.row :=
  stamped (standing_fields team).

(** Lines 36 and 37: the entries the loop visits, none when the guard is
    false. *)
Definition standings_table (data : json) : result (list json) :=
  get has_key := Py.contains "standings" data in
  get nonempty := (if has_key : bool
                   then get groups := key data "standings" in
                        get n := Py.len groups in
                        Ok (0 <? n)
                   else Ok false) in
  if nonempty : bool
  then get groups := key data "standings" in
       get group := Py.getitem groups (SIdx 0) in
       get table := key group "table" in
       Py.iter table
  else Ok [].

(** Lines 35 to 53: from the decoded document to the list of rows. *)
Definition standings_of_data (data : json) : M (list Standing.row) :=
  teams <- lift (standings_table data) ;;
  for_each standing_of_team teams.

Definition get_premier_league_standings (self : FootballDataPipeline)
    : M (list Standing.row) :=
  let url := String.append (base_url self) "/competitions/PL/standings" in
  try_except
    (response <- requests_get url (headers self) [] ;;
     raise_for_status response ;;
     data <- response_json response ;;
     standings_of_data data)
    is_request_exception
    (fun e => print (ErrorLine "Error fetching standings" e) ;; ret []).

(** The dict literal of the matches loop. *)
Definition match_fields (m : json) : result (Z -> Match.row) :=
  get match_id := key m "id" in
  get match_date := key m "utcDate" in
  get status := key m "status" in
  get matchday := key m "matchday" in
  get h1 := key m "homeTeam" in
  get home_team := key h1 "name" in
  get h2 := key m "homeTeam" in
  get home_team_id := key h2 "id" in
  get a1 := key m "awayTeam" in
  get away_team := key a1 "name" in
  get a2 := key m "awayTeam" in
  get away_team_id := key a2 "id" in
  get s1 := key m "score" in
  get f1 := key s1 "fullTime" in
  get home_score := key f1 "home" in
  get s2 := key m "score" in
  get f2 := key s2 "fullTime" in
  get away_score := key f2 "away" in
  Ok (Match.mk match_id match_date status matchday home_team home_team_id
        away_team away_team_id home_score away_score).

Definition row_of_match (m : json) : M Match.row :=
  stamped (match_fields m).

(** Line 75: the entries the loop visits. *)
Definition matches_list (data : json) : result (list json) :=
  get found := Py.get_default data "matches" (JArr []) in
  Py.iter found.

(** Lines 74 to 90. *)
Definition matches_of_data (data : json) : M (list Match.row) :=
  ms <- lift (matches_list data) ;;
  for_each row_of_match ms.

(** Lines 58 to 93.  The dates are day numbers in [Z]: Python's
    [timedelta(days=...)] and the subtraction raise [OverflowError] outside
    the range of [datetime], before the [try]; that is not modelled, and what
    is stated for a [days_back] other than the program's 7 is stated within
    [datetime_range]. *)
Definition get_recent_matches (self : FootballDataPipeline) (days_back : Z)
    : M (list Match.row) :=
  t_from <- datetime_now ;;
  let date_from := date_of (t_from - days_back * day_us) in
  t_to <- datetime_now ;;
  let date_to := date_of t_to in
  let url := String.append (base_url self) "/competitions/PL/matches" in
  let params := [("dateFrom", date_from); ("dateTo", date_to)] in
  try_except
    (response <- requests_get url (headers self) params ;;
     raise_for_status response ;;
     data <- response_json response ;;
     matches_of_data data)
    is_request_exception
    (fun e => print (ErrorLine "Error fetching matches" e) ;; ret []).

Definition is_empty {A : Type} (l : list A) : bool :=
  match l with
  | [] => true
  | _ :: _ => false
  end.

(** Lines 104 to 111, the body of the [try]. *)
Definition write_standings (standings : list Standing.row) : M unit :=
  today <- datetime_now ;;
  standings_delete_gte (midnight (date_of today)) ;;
  standings_insert standings ;;
  print (SyncedLine (List.length standings) "teams to standings table").

Definition sync_standings_to_supabase (self : FootballDataPipeline) : M unit :=
  standings <- get_premier_league_standings self ;;
  if is_empty standings
  then print (Text "No standings data to sync")
  else
    try_except (write_standings standings) is_exception
      (fun e => print (ErrorLine "Error syncing standings" e)).

(** Lines 125 to 132, the body of the [try]. *)
Definition write_matches (matches : list Match.row) : M unit :=
  for_each_ matches_upsert matches ;;
  print (SyncedLine (List.length matches) "matches to matches table").

Definition sync_matches_to_supabase (self : FootballDataPipeline) : M unit :=
  matches <- get_recent_matches self 7 ;;
  if is_empty matches
  then print (Text "No match data to sync")
  else
    try_except (write_matches matches) is_exception
      (fun e => print (ErrorLine "Error syncing matches" e)).

Definition newline : string := String (Ascii.ascii_of_nat 10) EmptyString.
Definition rule : string :=
  "==================================================".

Definition run_daily_sync (self : FootballDataPipeline) : M unit :=
  print (Text (String.append newline rule)) ;;
  t0 <- datetime_now ;;
  print (StampLine "Starting daily sync at" t0) ;;
  print (Text rule) ;;
  sync_standings_to_supabase self ;;
  sync_matches_to_supabase self ;;
  print (Text rule) ;;
  t1 <- datetime_now ;;
  print (StampLine "Sync completed at" t1) ;;
  print (Text (String.append rule newline)).

(** ** The scheduler loop *)

(** [while True: schedule.run_pending(); time.sleep(60)], unrolled over the
    polls of a finite prefix of the run.  Whether the 06:00 job is pending at
    a poll is decided by the [schedule] library against the wall clock: it is
    an input here, one boolean per poll.  [run_pending] runs the job in the
    loop's own thread and does not catch what it raises. *)
Fixpoint scheduler_loop (self : FootballDataPipeline) (polls : list bool)
    : M unit :=
  match polls with
  | [] => ret tt
  | pending :: rest =>
      (if pending : bool then run_daily_sync self else ret tt) ;;
      time_sleep 60 ;;
      scheduler_loop self rest
  end.

(** The [__main__] block. *)
Definition main (FOOTBALL_API_KEY : option string) (polls : list bool) : M unit :=
  let pipeline := init FOOTBALL_API_KEY in
  run_daily_sync pipeline ;;
  print (Text "Scheduler started. Running daily sync at 06:00...") ;;
  print (Text "Press Ctrl+C to stop") ;;
  scheduler_loop pipeline polls.

(** [setup_database_tables]: the DDL is its docstring; the function prints
    where to run it and sends nothing anywhere.  Nothing calls it. *)
Definition setup_database_tables : M unit :=
  print (Text "Please create tables using the SQL above in Supabase SQL Editor").

(** ** The 06:00 job by the clock

    Which poll finds the job pending is decided inside the [schedule]
    library, which is not part of the repository; [scheduler_loop] takes that
    decision as an input.  Here it is made explicit, after section 4.4 of the
    specification and the documentation of the library: the job is due when
    the wall clock has reached its trigger, the trigger is a fixed time of
    day, and a job that has run is due again at the next one. *)








(** ** Vocabulary of the specification *)

(** A computation [m] preserves [R] when [R] relates the world before it to
    the world after it, whatever it returns or raises. *)
Definition preserves (R : World -> World -> Prop) {A : Type} (m : M A) : Prop :=
  forall w r w', m w = (r, w') -> R w w'.

Definition is_db_statement (ev : event) : bool :=
  match ev with
  | DbDeleteGte _ _ _ | DbInsert _ _ | DbUpsert _ _ _ => true
  | _ => false
  end.

(** Nothing was sent to the database: both tables and the schedule of its
    answers are as before, and no statement was added to the trace. *)
Definition db_untouched (w w' : World) : Prop :=
  standings w' = standings w
  /\ matches w' = matches w
  /\ db_in w' = db_in w
  /\ exists evs, trace w' = trace w ++ evs
                /\ Forall (fun ev => is_db_statement ev = false) evs.

(** The HTTP answers still to come are a suffix of those there were. *)
Definition http_suffix (w w' : World) : Prop :=
  exists used, http_in w = used ++ http_in w'.



(** The lookup errors a mapper raises on a document of unexpected shape. *)
Definition shape_error (e : exn) : bool :=
  match e with
  | KeyError _ | IndexError | TypeError | AttributeError => true
  | RequestException _ | DbError _ => false
  end.

Definition standings_url (self : FootballDataPipeline) : string :=
  String.append (base_url self) "/competitions/PL/standings".
Definition matches_url (self : FootballDataPipeline) : string :=
  String.append (base_url self) "/competitions/PL/matches".

(** The world once a [requests.get] has been answered. *)
Definition after_get (ev : event) (w : World) : World :=
  set_http (tl (http_in w)) (emit ev w).

Definition no_matches_line : event := Print (Text "No match data to sync").

(** A lookup finds the key. *)
Definition has (k : string) (v : json) : bool := is_ok (key v k).
Definition has_in (outer inner : string) (v : json) : bool :=
  is_ok (get o := key v outer in key o inner).

(** A table entry of a valid standings response: it has every field the API
    documents for it. *)
Definition valid_team (team : json) : bool :=
  has "position" team && has_in "team" "name" team && has_in "team" "id" team
  && has "playedGames" team && has "won" team && has "draw" team
  && has "lost" team && has "points" team && has "goalsFor" team
  && has "goalsAgainst" team && has "goalDifference" team.

(** The table array of the first standings group. *)
Definition first_table (data : json) : option (list json) :=
  match data with
  | JObj dm =>
      match Py.dict_get "standings" dm with
      | Some (JArr (JObj gm :: _)) =>
          match Py.dict_get "table" gm with
          | Some (JArr entries) => Some entries
          | _ => None
          end
      | _ => None
      end
  | _ => None
  end.

(** The value at [score.fullTime.<side>]. *)
Definition full_time (side : string) (m : json) : result json :=
  get s := key m "score" in
  get f := key s "fullTime" in
  key f side.

(** A match of a valid matches response. *)
Definition valid_match (m : json) : bool :=
  has "id" m && has "utcDate" m && has "status" m && has "matchday" m
  && has_in "homeTeam" "name" m && has_in "homeTeam" "id" m
  && has_in "awayTeam" "name" m && has_in "awayTeam" "id" m
  && is_ok (full_time "home" m) && is_ok (full_time "away" m).

(** The matches array of a response. *)
Definition matches_array (data : json) : option (list json) :=
  match data with
  | JObj dm =>
      match Py.dict_get "matches" dm with
      | Some (JArr ms) => Some ms
      | _ => None
      end
  | _ => None
  end.

(** The trace only grew. *)
Definition trace_extends (w w' : World) : Prop :=
  exists evs, trace w' = trace w ++ evs.

(** The database accepts its next [n] statements. *)
Definition accepts (n : nat) (w : World) : Prop :=
  Forall (fun o => o = None) (firstn n (db_in w)).

(** Rows of the matches table by integer key. *)
Definition has_id (z : Z) (r : Match.row) : bool :=
  same_key (Match.match_id r) (JInt z).
Definition count_id (z : Z) (tbl : list Match.row) : nat :=
  List.length (filter (has_id z) tbl).
Definition find_id (z : Z) (tbl : list Match.row) : option Match.row :=
  find (has_id z) tbl.

(** The UNIQUE constraint on [match_id]. *)
Definition unique_ids (tbl : list Match.row) : Prop :=
  forall z, (count_id z tbl <= 1)%nat.

(** The match's [id] is an integer. *)
Definition int_id (m : json) : bool :=
  match key m "id" with
  | Ok (JInt _) => true
  | _ => false
  end.

(** The row's [match_id] is an integer. *)
Definition int_key (r : Match.row) : bool :=
  match Match.match_id r with
  | JInt _ => true
  | _ => false
  end.

(** The loop of [write_matches] on the table alone. *)
Definition upsert_all (rows tbl : list Match.row) : list Match.row :=
  fold_left (fun t r => upsert_row r t) rows tbl.

(** The last row of a payload with the given key. *)
Fixpoint last_with_id (z : Z) (rows : list Match.row) : option Match.row :=
  match rows with
  | [] => None
  | r :: rest =>
      match last_with_id z rest with
      | Some x => Some x
      | None => if has_id z r then Some r else None
      end
  end.

(** Two rows that differ in their stamp at most. *)
Definition same_but_stamp (a b : Match.row) : Prop :=
  b = Match.restamp (Match.updated_at b) a.

(** The database accepts every statement to come. *)
Definition accepts_all (w : World) : Prop :=
  Forall (fun o => o = None) (db_in w).

(** The row is the match's fields with some stamp. *)
Definition made_of (m : json) (row : Match.row) : Prop :=
  exists mk t, match_fields m = Ok mk /\ row = mk t.

(** No HTTP answer was consumed. *)
Definition same_http (w w' : World) : Prop := http_in w' = http_in w.






(** The last four lines of [run_daily_sync]. *)
Definition epilogue : M unit :=
  print (Text rule) ;;
  t1 <- datetime_now ;;
  print (StampLine "Sync completed at" t1) ;;
  print (Text (String.append rule newline)).

(** Trace and HTTP answers both moved forward only. *)
Definition advances (w w' : World) : Prop :=
  trace_extends w w' /\ http_suffix w w'.




(** The first four lines of [run_daily_sync]. *)
Definition prologue : M unit :=
  print (Text (String.append newline rule)) ;;
  t0 <- datetime_now ;;
  print (StampLine "Starting daily sync at" t0) ;;
  print (Text rule).

(** The trace grew by events that all satisfy [P]. *)
Definition extends_with (P : event -> Prop) (w w' : World) : Prop :=
  exists evs, trace w' = trace w ++ evs /\ Forall P evs.

Definition is_http (ev : event) : bool :=
  match ev with
  | HttpGet _ _ _ => true
  | _ => false
  end.

Definition count_http (evs : list event) : nat :=
  List.length (filter is_http evs).

(** The effects the program has for a pipeline [self]: a request to one of
    its two endpoints with its headers, a delete on the standings by
    [updated_at], an insert into the standings, an upsert into the matches on
    [match_id], a line of output, a sleep of a minute. *)
Definition allowed (self : FootballDataPipeline) (ev : event) : Prop :=
  match ev with
  | HttpGet url hs ps =>
      hs = headers self
      /\ ((url = standings_url self /\ ps = [])
          \/ (url = matches_url self
              /\ exists a b, ps = [("dateFrom", a); ("dateTo", b)]))
  | DbDeleteGte table column _ => table = "standings" /\ column = "updated_at"
  | DbInsert table _ => table = "standings"
  | DbUpsert table _ on_conflict => table = "matches" /\ on_conflict = "match_id"
  | Print _ => True
  | Sleep n => n = 60
  end.

(** The clock readings a world can still give: those to come, or the latest
    one once the clock stands still. *)
Definition readings (w : World) : list Z :=
  match clock_in w with
  | [] => [now w]
  | _ :: _ => clock_in w
  end.

(** The row was stamped on a date before that of every reading to come. *)
Definition before_every_reading (w : World) (r : Standing.row) : Prop :=
  forall t, In t (readings w) -> date_of (Standing.updated_at r) < date_of t.

(** No new reading appeared, and the standings rows stamped before every
    reading are still there. *)
Definition history_kept (w w' : World) : Prop :=
  (forall t, In t (readings w') -> In t (readings w))
  /\ (forall r, In r (standings w) -> before_every_reading w r ->
                In r (standings w')).

(** The table lost no row and no key. *)
Definition table_grows (tbl tbl' : list Match.row) : Prop :=
  (List.length tbl <= List.length tbl')%nat
  /\ forall z, (count_id z tbl <= count_id z tbl')%nat.

Definition matches_grow (w w' : World) : Prop :=
  table_grows (matches w) (matches w').

(** The UNIQUE constraint on [match_id] is carried over. *)
Definition keeps_unique (tbl tbl' : list Match.row) : Prop :=
  unique_ids tbl -> unique_ids tbl'.

Definition uniqueness_kept (w w' : World) : Prop :=
  keeps_unique (matches w) (matches w').

(** A relation between worlds that looks at the matches table only. *)
Definition on_matches (Q : list Match.row -> list Match.row -> Prop)
    (w w' : World) : Prop :=
  Q (matches w) (matches w').

Definition same_matches (w w' : World) : Prop := matches w' = matches w.
Definition same_standings (w w' : World) : Prop := standings w' = standings w.

(** What one pass over a payload leaves of a row already in the table: the
    last row of the payload with the same integer key, or the row itself. *)
Definition overwritten (rows : list Match.row) (x : Match.row) : Match.row :=
  match Match.match_id x with
  | JInt z =>
      match last_with_id z rows with
      | Some r => r
      | None => x
      end
  | _ => x
  end.

(** The events of the upserts of a payload. *)
Definition upsert_events (rows : list Match.row) : list event :=
  map (fun r => DbUpsert "matches" r "match_id") rows.

(** A decoded document that is not an object, and one that is not even a
    container. *)
Definition is_object (data : json) : bool :=
  match data with
  | JObj _ => true
  | _ => false
  end.

Definition is_scalar (data : json) : bool :=
  match data with
  | JNull | JBool _ | JInt _ | JFloat _ => true
  | _ => false
  end.

(** ** Sample documents and worlds *)

Definition sample_team (pos tid : Z) (name : string) : json :=
  JObj [("position", JInt pos);
        ("team", JObj [("id", JInt tid); ("name", JStr name)]);
        ("playedGames", JInt 10); ("won", JInt 5); ("draw", JInt 3);
        ("lost", JInt 2); ("points", JInt 18); ("goalsFor", JInt 12);
        ("goalsAgainst", JInt 9); ("goalDifference", JInt 3)].

Definition sample_table : list json :=
  [sample_team 1 57 "Arsenal"; sample_team 2 65 "Manchester City";
   sample_team 3 64 "Liverpool"].

Definition sample_standings : json :=
  JObj [("standings", JArr [JObj [("table", JArr sample_table)]])].

Definition sample_match (id : Z) (st : string) (score : json) : json :=
  JObj [("id", JInt id); ("utcDate", JStr "2024-03-09T15:00:00Z");
        ("status", JStr st); ("matchday", JInt 28);
        ("homeTeam", JObj [("id", JInt 57); ("name", JStr "Arsenal")]);
        ("awayTeam", JObj [("id", JInt 402); ("name", JStr "Brentford")]);
        ("score", score)].

Definition score_of (home away : json) : json :=
  JObj [("fullTime", JObj [("home", home); ("away", away)])].

Definition sample_matches (ms : list json) : json := JObj [("matches", JArr ms)].

(** A world with the given HTTP answers, database schedule and clock, empty
    tables and an empty trace. *)
Definition fresh (http : list HttpOutcome) (db : list (option string))
    (clock : list Z) : World :=
  mkWorld http db clock 0 [] [] [].

(** Noon of day 19800, and a standings table holding one row of the day
    before, one of that day and one of the day after. *)
Definition noon : Z := 19800 * day_us + 43200000000.

Definition stored_standing (pos tid : Z) (name : string) (stamp : Z) : Standing.row :=
  Standing.mk (JInt pos) (JStr name) (JInt tid) (JInt 10) (JInt 5) (JInt 3)
    (JInt 2) (JInt 18) (JInt 12) (JInt 9) (JInt 3) stamp.

Definition row_yesterday : Standing.row :=
  stored_standing 4 66 "Manchester United" (noon - day_us).
Definition row_today : Standing.row :=
  stored_standing 5 61 "Chelsea" (noon - 3600000000).
Definition row_tomorrow : Standing.row :=
  stored_standing 6 73 "Tottenham" (noon + day_us).

Definition three_days : World :=
  mkWorld [Response 200 (Some sample_standings)] []
          [noon; noon + 1; noon + 2; noon + 3] 0
          [row_yesterday; row_today; row_tomorrow] [] [].

Definition fresh_standings (t1 t2 t3 : Z) : list Standing.row :=
  [stored_standing 1 57 "Arsenal" t1; stored_standing 2 65 "Manchester City" t2;
   stored_standing 3 64 "Liverpool" t3].

(** Match 12345, finished 2-1, answered twice; the table already holds the
    match as it was before kick-off. *)
Definition finished_12345 : json :=
  sample_match 12345 "FINISHED" (score_of (JInt 2) (JInt 1)).

Definition stored_match (st : string) (home away : json) (stamp : Z) : Match.row :=
  Match.mk (JInt 12345) (JStr "2024-03-09T15:00:00Z") (JStr st) (JInt 28)
    (JStr "Arsenal") (JInt 57) (JStr "Brentford") (JInt 402) home away stamp.

Definition two_runs : World :=
  mkWorld [Response 200 (Some (sample_matches [finished_12345]));
           Response 200 (Some (sample_matches [finished_12345]))] []
          [100; 200; 300; 400; 500; 600] 0
          [] [stored_match "TIMED" JNull JNull 50] [].


Definition stormy_days : World :=
  fresh [TransportFailure "connection timed out";
         Response 200 (Some (sample_matches [finished_12345]));
         Response 200 (Some sample_standings);
         Response 503 None;
         Response 200 None]
        [Some "permission denied"; None; Some "duplicate key value"] [noon].

(** The rows a fetch returned, none when it raised. *)
Definition rows_of {A : Type} (r : result (list A)) : list A :=
  match r with
  | Ok rows => rows
  | Raise _ => []
  end.

(** Days on which the database rejects the insert, the delete, and the
    second of three upserts. *)
Definition insert_rejected_day : World :=
  mkWorld [Response 200 (Some sample_standings)]
          [None; Some "duplicate key value violates unique constraint"]
          [noon; noon + 1; noon + 2; noon + 3] 0
          [row_yesterday; row_today] [] [].

Definition delete_rejected_day : World :=
  mkWorld [Response 200 (Some sample_standings)]
          [Some "permission denied for table standings"]
          [noon; noon + 1; noon + 2; noon + 3] 0
          [row_yesterday; row_today] [] [].

Definition second_upsert_rejected : World :=
  mkWorld [Response 200
             (Some (sample_matches
                      [sample_match 1 "FINISHED" (score_of (JInt 1) (JInt 0));
                       sample_match 2 "FINISHED" (score_of (JInt 0) (JInt 0));
                       sample_match 3 "TIMED" (score_of JNull JNull)]))]
          [None; Some "value out of range"; None]
          [noon] 0 [] [] [].

(** Every reading the clock can still give falls on date [d]. *)
Definition same_day (d : Z) (w : World) : Prop :=
  forall t, In t (readings w) -> date_of t = d.

(** The standings answered twice within one day, over a table that holds
    rows of the day before, of that day and of the day after. *)
Definition two_standings_runs : World :=
  mkWorld [Response 200 (Some sample_standings);
           Response 200 (Some sample_standings)] []
          [noon; noon + 1; noon + 2; noon + 3;
           noon + 4; noon + 5; noon + 6; noon + 7] 0
          [row_yesterday; row_today; row_tomorrow] [] [].

(** The polls at which the 06:00 job is pending. *)
Definition due (polls : list bool) : nat :=
  List.length (filter (fun pending : bool => pending) polls).

(** The range in which [datetime.now() - timedelta(days=days_back)] is a
    [datetime]: at most 999999999 days either way, and a result between
    0001-01-01 and 9999-12-31, days -719162 and 2932896 from 1970-01-01. *)
Definition datetime_range (days_back t : Z) : Prop :=
  Z.abs days_back <= 999999999
  /\ -719162 <= date_of t - days_back <= 2932896.

(** A key the column stores as it was sent: an integer, or null. *)
Definition plain_key (v : json) : bool :=
  match v with
  | JInt _ | JNull => true
  | _ => false
  end.

Definition plain_keys (rows : list Match.row) : bool :=
  forallb (fun r => plain_key (Match.match_id r)) rows.


(** The [k]-th reading the clock will give, counting from 0: the readings
    to come in their order, then the last of them for ever. *)
Definition reading (k : nat) (w : World) : Z :=
  nth k (clock_in w) (last (clock_in w) (now w)).

(** The match's [id] is the integer [z]. *)
Definition id_is (z : Z) (m : json) : bool :=
  match key m "id" with
  | Ok (JInt z') => z' =? z
  | _ => false
  end.

(** Every id the matches mapper would read from the document is a key the
    column stores as it was sent. *)
Definition plain_ids (data : json) : bool :=
  match matches_list data with
  | Ok ms =>
      forallb (fun m => match key m "id" with
                        | Ok v => plain_key v
                        | Raise _ => true
                        end) ms
  | Raise _ => true
  end.

(** The answers still to come carry such ids only. *)
Definition plain_answers (w : World) : Prop :=
  Forall (fun o => match o with
                   | Response _ (Some data) => plain_ids data = true
                   | _ => True
                   end) (http_in w).

(** Answers and table with integer and null keys only, the integers unique. *)
Definition plain_world (w : World) : Prop :=
  plain_answers w /\ plain_keys (matches w) = true /\ unique_ids (matches w).

Definition stays_plain (w w' : World) : Prop := plain_world w -> plain_world w'.



(** * Properties *)

(** ** Laws of the monad *)

Lemma bind_ok {A B : Type} (m : M A) (k : A -> M B) w a w' :
  m w = (Ok a, w') -> bind m k w = k a w'.
Proof. intros H. unfold bind. rewrite H. reflexivity. Qed.

Lemma bind_raise {A B : Type} (m : M A) (k : A -> M B) w e w' :
  m w = (Raise e, w') -> bind m k w = (Raise e, w').
Proof. intros H. unfold bind. rewrite H. reflexivity. Qed.

Lemma bind_inv {A B : Type} (m : M A) (k : A -> M B) w r w'' :
  bind m k w = (r, w'') ->
  (exists a w', m w = (Ok a, w') /\ k a w' = (r, w''))
  \/ (exists e, m w = (Raise e, w'') /\ r = Raise e).
Proof.
  unfold bind. destruct (m w) as [[a | e] w'] eqn:E; intros H.
  - left. exists a, w'. split; [reflexivity | exact H].
  - right. exists e. inversion H; subst. split; reflexivity.
Qed.

Lemma try_except_ok {A : Type} (m : M A) c h w a w' :
  m w = (Ok a, w') -> try_except m c h w = (Ok a, w').
Proof. intros H. unfold try_except. rewrite H. reflexivity. Qed.

Lemma try_except_caught {A : Type} (m : M A) c h w e w' :
  m w = (Raise e, w') -> c e = true -> try_except m c h w = h e w'.
Proof. intros H Hc. unfold try_except. rewrite H, Hc. reflexivity. Qed.

Lemma try_except_escapes {A : Type} (m : M A) c h w e w' :
  m w = (Raise e, w') -> c e = false -> try_except m c h w = (Raise e, w').
Proof. intros H Hc. unfold try_except. rewrite H, Hc. reflexivity. Qed.

Lemma try_except_inv {A : Type} (m : M A) c h w r w' :
  try_except m c h w = (r, w') ->
  (exists a, m w = (Ok a, w') /\ r = Ok a)
  \/ (exists e w1, m w = (Raise e, w1) /\ c e = true /\ h e w1 = (r, w'))
  \/ (exists e, m w = (Raise e, w') /\ c e = false /\ r = Raise e).
Proof.
  unfold try_except. destruct (m w) as [[a | e] w1]; intros H.
  - left. exists a. inversion H; subst. split; reflexivity.
  - destruct (c e) eqn:Ec.
    + right. left. exists e, w1. repeat split; assumption.
    + right. right. exists e. inversion H; subst. repeat split; assumption.
Qed.

(** ** Frame conditions

    A relation between the world before and after a computation that holds
    for every primitive it uses holds for the whole computation. *)

Section Preservation.

Variable R : World -> World -> Prop.
Hypothesis R_refl : forall w, R w w.
Hypothesis R_trans : forall w1 w2 w3, R w1 w2 -> R w2 w3 -> R w1 w3.

Lemma preserves_ret {A : Type} (a : A) : preserves R (ret a).
Proof. intros w r w' H. inversion H; subst. apply R_refl. Qed.

Lemma preserves_raise {A : Type} (e : exn) : preserves R (@raise A e).
Proof. intros w r w' H. inversion H; subst. apply R_refl. Qed.

Lemma preserves_lift {A : Type} (x : result A) : preserves R (lift x).
Proof. intros w r w' H. inversion H; subst. apply R_refl. Qed.

Lemma preserves_bind {A B : Type} (m : M A) (k : A -> M B) :
  preserves R m -> (forall a, preserves R (k a)) -> preserves R (bind m k).
Proof.
  intros Hm Hk w r w'' H.
  destruct (bind_inv _ _ _ _ _ H) as [(a & w' & H1 & H2) | (e & H1 & _)].
  - eapply R_trans; [eapply Hm | eapply Hk]; eassumption.
  - eapply Hm; eassumption.
Qed.

Lemma preserves_try_except {A : Type} (m : M A) c (h : exn -> M A) :
  preserves R m -> (forall e, preserves R (h e)) -> preserves R (try_except m c h).
Proof.
  intros Hm Hh w r w'' H. unfold try_except in H.
  destruct (m w) as [[a | e] w'] eqn:E.
  - inversion H; subst. eapply Hm; eassumption.
  - destruct (c e).
    + eapply R_trans; [eapply Hm | eapply Hh]; eassumption.
    + inversion H; subst. eapply Hm; eassumption.
Qed.

Lemma preserves_if {A : Type} (b : bool) (m1 m2 : M A) :
  preserves R m1 -> preserves R m2 -> preserves R (if b then m1 else m2).
Proof. destruct b; auto. Qed.

Lemma preserves_for_each {A B : Type} (f : A -> M B) (l : list A) :
  (forall x, preserves R (f x)) -> preserves R (for_each f l).
Proof.
  intros Hf. induction l as [| x rest IH]; simpl.
  - apply preserves_ret.
  - apply preserves_bind; [apply Hf | intros y].
    apply preserves_bind; [exact IH | intros ys]. apply preserves_ret.
Qed.

Lemma preserves_for_each_ {A : Type} (f : A -> M unit) (l : list A) :
  (forall x, preserves R (f x)) -> preserves R (for_each_ f l).
Proof.
  intros Hf. induction l as [| x rest IH]; simpl.
  - apply preserves_ret.
  - apply preserves_bind; [apply Hf | intros _; exact IH].
Qed.

(** What the primitives must satisfy. *)
Hypothesis R_emit : forall ev w,
  match ev with
  | DbDeleteGte _ _ _ | DbInsert _ _ | DbUpsert _ _ _ => True
  | _ => R w (emit ev w)
  end.
Hypothesis R_set_http : forall w o rest,
  http_in w = o :: rest -> R w (set_http rest w).
Hypothesis R_set_clock : forall w t rest,
  clock_in w = t :: rest -> R w (set_clock rest t w).

Lemma preserves_print l : preserves R (print l).
Proof. intros w r w' H. inversion H; subst. apply (R_emit (Print l)). Qed.

Lemma preserves_time_sleep n : preserves R (time_sleep n).
Proof. intros w r w' H. inversion H; subst. apply (R_emit (Sleep n)). Qed.

Lemma preserves_datetime_now : preserves R datetime_now.
Proof.
  intros w r w' H. unfold datetime_now in H.
  destruct (clock_in w) as [| t rest] eqn:E; inversion H; subst.
  - apply R_refl.
  - apply R_set_clock. exact E.
Qed.

Lemma preserves_stamped {B : Type} (fields : result (Z -> B)) :
  preserves R (stamped fields).
Proof.
  unfold stamped. apply preserves_bind; [apply preserves_lift | intros mk].
  apply preserves_bind; [apply preserves_datetime_now | intros t].
  apply preserves_ret.
Qed.

Lemma preserves_requests_get url hs ps : preserves R (requests_get url hs ps).
Proof.
  intros w r w' H. unfold requests_get in H.
  pose proof (R_emit (HttpGet url hs ps) w) as He. simpl in He.
  destruct (http_in (emit (HttpGet url hs ps) w)) as [| [d | st body] rest] eqn:E;
    inversion H; subst; try exact He;
    (eapply R_trans; [exact He | eapply R_set_http; exact E]).
Qed.

Lemma preserves_raise_for_status r : preserves R (raise_for_status r).
Proof.
  unfold raise_for_status.
  apply preserves_if; [apply preserves_raise | apply preserves_ret].
Qed.

Lemma preserves_response_json r : preserves R (response_json r).
Proof.
  unfold response_json. destruct (snd r);
    [apply preserves_ret | apply preserves_raise].
Qed.

Lemma preserves_standings_of_data data : preserves R (standings_of_data data).
Proof.
  unfold standings_of_data.
  apply preserves_bind; [apply preserves_lift | intros teams].
  apply preserves_for_each. intros x. apply preserves_stamped.
Qed.

Lemma preserves_matches_of_data data : preserves R (matches_of_data data).
Proof.
  unfold matches_of_data.
  apply preserves_bind; [apply preserves_lift | intros ms].
  apply preserves_for_each. intros x. apply preserves_stamped.
Qed.

Lemma preserves_get_premier_league_standings self :
  preserves R (get_premier_league_standings self).
Proof.
  unfold get_premier_league_standings. apply preserves_try_except.
  - apply preserves_bind; [apply preserves_requests_get | intros r].
    apply preserves_bind; [apply preserves_raise_for_status | intros _].
    apply preserves_bind; [apply preserves_response_json | intros data].
    apply preserves_standings_of_data.
  - intros e. apply preserves_bind; [apply preserves_print | intros _].
    apply preserves_ret.
Qed.

Lemma preserves_get_recent_matches self days_back :
  preserves R (get_recent_matches self days_back).
Proof.
  unfold get_recent_matches.
  apply preserves_bind; [apply preserves_datetime_now | intros t1].
  apply preserves_bind; [apply preserves_datetime_now | intros t2].
  apply preserves_try_except.
  - apply preserves_bind; [apply preserves_requests_get | intros r].
    apply preserves_bind; [apply preserves_raise_for_status | intros _].
    apply preserves_bind; [apply preserves_response_json | intros data].
    apply preserves_matches_of_data.
  - intros e. apply preserves_bind; [apply preserves_print | intros _].
    apply preserves_ret.
Qed.

End Preservation.

(** ** The fetches send nothing to the database *)

Lemma db_untouched_refl w : db_untouched w w.
Proof.
  repeat split. exists []. split; [now rewrite app_nil_r | constructor].
Qed.

Lemma db_untouched_trans w1 w2 w3 :
  db_untouched w1 w2 -> db_untouched w2 w3 -> db_untouched w1 w3.
Proof.
  intros (S1 & M1 & D1 & evs1 & T1 & F1) (S2 & M2 & D2 & evs2 & T2 & F2).
  repeat split; try congruence.
  exists (evs1 ++ evs2). split.
  - rewrite T2, T1, app_assoc. reflexivity.
  - apply Forall_app. split; assumption.
Qed.

Lemma db_untouched_emit ev w :
  match ev with
  | DbDeleteGte _ _ _ | DbInsert _ _ | DbUpsert _ _ _ => True
  | _ => db_untouched w (emit ev w)
  end.
Proof.
  destruct ev; try exact I;
    (repeat split; eexists; split; [reflexivity | repeat constructor]).
Qed.

Lemma db_untouched_set_http w o rest :
  http_in w = o :: rest -> db_untouched w (set_http rest w).
Proof.
  intros _. repeat split. exists []. split; [now rewrite app_nil_r | constructor].
Qed.

Lemma db_untouched_set_clock w t rest :
  clock_in w = t :: rest -> db_untouched w (set_clock rest t w).
Proof.
  intros _. repeat split. exists []. split; [now rewrite app_nil_r | constructor].
Qed.

Lemma fetch_standings_db_untouched self :
  preserves db_untouched (get_premier_league_standings self).
Proof.
  apply preserves_get_premier_league_standings;
    first [ exact db_untouched_refl | exact db_untouched_trans
          | exact db_untouched_emit | exact db_untouched_set_http
          | exact db_untouched_set_clock ].
Qed.

Lemma fetch_matches_db_untouched self days_back :
  preserves db_untouched (get_recent_matches self days_back).
Proof.
  apply preserves_get_recent_matches;
    first [ exact db_untouched_refl | exact db_untouched_trans
          | exact db_untouched_emit | exact db_untouched_set_http
          | exact db_untouched_set_clock ].
Qed.

(** C3: when the standings fetch returns an empty list, the sync prints its
    notice and stops: it sends no statement to the database (no delete, no
    insert), and the standings rows are the ones there were. *)
Theorem empty_standings_fetch_is_noop self w w1 :
  get_premier_league_standings self w = (Ok [], w1) ->
  sync_standings_to_supabase self w
    = (Ok tt, emit (Print (Text "No standings data to sync")) w1)
  /\ db_untouched w (emit (Print (Text "No standings data to sync")) w1)
  /\ standings (emit (Print (Text "No standings data to sync")) w1)
     = standings w.
Proof.
  intros Hfetch.
  assert (Hquiet : db_untouched w (emit (Print (Text "No standings data to sync")) w1)).
  { eapply db_untouched_trans.
    - eapply fetch_standings_db_untouched. exact Hfetch.
    - apply (db_untouched_emit (Print (Text "No standings data to sync"))). }
  split; [| split].
  - unfold sync_standings_to_supabase.
    rewrite (bind_ok _ _ _ _ _ Hfetch). reflexivity.
  - exact Hquiet.
  - apply Hquiet.
Qed.

Lemma empty_standings_fetch_is_noop_witness :
  sync_standings_to_supabase (init None)
    (fresh [TransportFailure "timed out"] [Some "offline"] [])
  = (Ok tt, emit (Print (Text "No standings data to sync"))
              (snd (get_premier_league_standings (init None)
                      (fresh [TransportFailure "timed out"] [Some "offline"] []))))
  /\ db_untouched (fresh [TransportFailure "timed out"] [Some "offline"] [])
       (emit (Print (Text "No standings data to sync"))
          (snd (get_premier_league_standings (init None)
                  (fresh [TransportFailure "timed out"] [Some "offline"] []))))
  /\ standings
       (emit (Print (Text "No standings data to sync"))
          (snd (get_premier_league_standings (init None)
                  (fresh [TransportFailure "timed out"] [Some "offline"] []))))
     = standings (fresh [TransportFailure "timed out"] [Some "offline"] []).
Proof.
  apply (empty_standings_fetch_is_noop (init None)
           (fresh [TransportFailure "timed out"] [Some "offline"] [])).
  reflexivity.
Defined.

(** ** Failed fetches *)

Lemma datetime_now_total w :
  exists t c n, datetime_now w = (Ok t, set_clock c n w).
Proof.
  unfold datetime_now. destruct w as [h d c n s m tr]. simpl.
  destruct c as [| t rest].
  - exists n, [], n. reflexivity.
  - exists t, rest, t. reflexivity.
Qed.







(** ** Documents without standings *)

Lemma standings_table_without_key dm :
  Py.dict_get "standings" dm = None -> standings_table (JObj dm) = Ok [].
Proof. intros H. unfold standings_table. simpl. rewrite H. reflexivity. Qed.

Lemma standings_table_empty_array dm :
  Py.dict_get "standings" dm = Some (JArr []) -> standings_table (JObj dm) = Ok [].
Proof.
  intros H. unfold standings_table, key. simpl. rewrite H. reflexivity.
Qed.

(** A response that is not a failure hands its body to the mapper. *)
Lemma fetch_decoded {A : Type} url hs ps (k : json -> M (list A)) c h w st data rest :
  http_in w = Response st (Some data) :: rest ->
  (400 <=? st) && (st <? 600) = false ->
  try_except
    (response <- requests_get url hs ps ;;
     raise_for_status response ;;
     data <- response_json response ;;
     k data) c h w
  = try_except (k data) c h (after_get (HttpGet url hs ps) w).
Proof.
  intros Hh Hst. destruct w as [hh d cl n s m tr]. simpl in Hh. subst hh.
  unfold try_except, bind, requests_get, raise_for_status. simpl.
  rewrite Hst. reflexivity.
Qed.

Lemma standings_fetch_decoded self w st data rest :
  http_in w = Response st (Some data) :: rest ->
  (400 <=? st) && (st <? 600) = false ->
  get_premier_league_standings self w
  = try_except (standings_of_data data) is_request_exception
      (fun e => print (ErrorLine "Error fetching standings" e) ;; ret [])
      (after_get (HttpGet (standings_url self) (headers self) []) w).
Proof. intros Hh Hst. apply (fetch_decoded _ _ _ _ _ _ _ _ _ _ Hh Hst). Qed.






(** ** Loops over stamped rows *)

Lemma stamped_ok {B : Type} (mk : Z -> B) w :
  exists t c n, stamped (Ok mk) w = (Ok (mk t), set_clock c n w).
Proof.
  destruct (datetime_now_total w) as (t & c & n & E).
  exists t, c, n. unfold stamped, bind, lift, ret. rewrite E. reflexivity.
Qed.

Lemma stamped_raise {B : Type} (e : exn) w :
  @stamped B (Raise e) w = (Raise e, w).
Proof. reflexivity. Qed.

Section StampedLoop.

Context {A B : Type}.
Variable fields : A -> result (Z -> B).

(** Every element has its fields: the loop returns one row per element, in
    order, each the element's fields with some stamp. *)
Lemma for_each_stamped_ok (l : list A) :
  Forall (fun x => is_ok (fields x) = true) l ->
  forall w, exists rows w',
    for_each (fun x => stamped (fields x)) l w = (Ok rows, w')
    /\ Forall2 (fun x r => exists mk t, fields x = Ok mk /\ r = mk t) l rows.
Proof.
  induction 1 as [| x rest Hx _ IH]; intros w; simpl.
  - exists [], w. split; [reflexivity | constructor].
  - destruct (fields x) as [mk | e] eqn:Ex; [| discriminate].
    destruct (stamped_ok mk w) as (t & c & n & Es).
    destruct (IH (set_clock c n w)) as (rows & w' & Er & HF).
    exists (mk t :: rows), w'. split.
    + rewrite (bind_ok _ _ _ _ _ Es), (bind_ok _ _ _ _ _ Er). reflexivity.
    + constructor; [exists mk, t; split; [exact Ex | reflexivity] | exact HF].
Qed.

(** Some element lacks a field: the loop raises that element's lookup
    error and returns no rows. *)
Lemma for_each_stamped_raise (l : list A) :
  Exists (fun x => is_ok (fields x) = false) l ->
  forall w, exists x e w',
    for_each (fun x => stamped (fields x)) l w = (Raise e, w')
    /\ In x l /\ fields x = Raise e.
Proof.
  induction l as [| x rest IH]; intros HE w; [inversion HE |]. simpl.
  destruct (fields x) as [mk | e] eqn:Ex.
  - destruct (stamped_ok mk w) as (t & c & n & Es).
    rewrite (bind_ok _ _ _ _ _ Es).
    assert (HE' : Exists (fun x => is_ok (fields x) = false) rest).
    { inversion HE as [? ? H0 | ? ? H0]; subst; [| exact H0].
      rewrite Ex in H0. discriminate. }
    destruct (IH HE' (set_clock c n w)) as (y & e & w' & Er & Hin & Hy).
    exists y, e, w'. rewrite (bind_raise _ _ _ _ _ Er).
    split; [reflexivity | split; [right; exact Hin | exact Hy]].
  - exists x, e, w. rewrite (bind_raise _ _ w e w); [| apply stamped_raise].
    split; [reflexivity | split; [left; reflexivity | exact Ex]].
Qed.

End StampedLoop.

Lemma key_not_request_exception v k e :
  key v k = Raise e -> shape_error e = true.
Proof.
  unfold key, Py.getitem. destruct v; try (intros H; inversion H; reflexivity).
  destruct (Py.dict_get k members); intros H; inversion H; reflexivity.
Qed.

(** ** The mappers on valid responses *)

(** Decide the next lookup of the chain in [H]; a failed lookup ends the
    chain, which [H] rules out. *)
Ltac next_lookup H :=
  match type of H with
  | context [rbind (key ?v ?k) _] =>
      destruct (key v k) eqn:?; simpl in H; [| discriminate H]
  end.

(** Decide the next lookup of the chain in the goal; a failed lookup is the
    exception the chain raises. *)
Ltac lookup_or_raise :=
  match goal with
  | |- context [rbind (key ?v ?k) _] =>
      let E := fresh "E" in
      destruct (key v k) eqn:E; simpl;
      [| try (eexists; split; [reflexivity | exact (key_not_request_exception _ _ _ E)]);
         try (intros ? Hraise; inversion Hraise; subst;
              exact (key_not_request_exception _ _ _ E)) ]
  end.

Lemma valid_team_fields team :
  valid_team team = true ->
  exists mk, standing_fields team = Ok mk
             /\ forall t, key team "position" = Ok (Standing.position (mk t)).
Proof.
  unfold valid_team, has, has_in, standing_fields. intros H.
  repeat rewrite andb_true_iff in H.
  destruct H as ((((((((((P & TN) & TI) & PG) & W) & D) & L) & Pt) & GF) & GA) & GD).
  destruct (key team "position") as [position |]; [| discriminate]. simpl.
  destruct (key team "team") as [t |]; [| discriminate]. simpl in *.
  destruct (key t "name") as [name |]; [| discriminate]. simpl.
  destruct (key t "id") as [id |]; [| discriminate]. simpl.
  destruct (key team "playedGames"); [| discriminate]. simpl.
  destruct (key team "won"); [| discriminate]. simpl.
  destruct (key team "draw"); [| discriminate]. simpl.
  destruct (key team "lost"); [| discriminate]. simpl.
  destruct (key team "points"); [| discriminate]. simpl.
  destruct (key team "goalsFor"); [| discriminate]. simpl.
  destruct (key team "goalsAgainst"); [| discriminate]. simpl.
  destruct (key team "goalDifference"); [| discriminate]. simpl.
  eexists. split; [reflexivity | intros; reflexivity].
Qed.

Lemma first_table_visited data entries :
  first_table data = Some entries -> standings_table data = Ok entries.
Proof.
  unfold first_table. destruct data as [| | | | | | dm]; try discriminate.
  destruct (Py.dict_get "standings" dm) as [[| | | | | [| [| | | | | | gm] others] |] |] eqn:Es;
    try discriminate.
  destruct (Py.dict_get "table" gm) as [[| | | | | es |] |] eqn:Et; try discriminate.
  intros H. inversion H; subst.
  unfold standings_table, key. simpl. rewrite Es. simpl.
  replace (0 <? Z.pos (Pos.of_succ_nat (Datatypes.length others))) with true
    by (symmetry; apply Z.ltb_lt; lia).
  unfold Py.seq_index. simpl.
  replace (Z.pos (Pos.of_succ_nat (Datatypes.length others)) >? 0) with true
    by (symmetry; apply Z.gtb_lt; lia).
  simpl. rewrite Et. reflexivity.
Qed.

(** C5: on a valid standings response whose first group's table has N
    entries the mapper returns N rows, and the i-th row carries the position
    of the i-th entry. *)
Theorem standings_mapper_keeps_count_and_order data entries w :
  first_table data = Some entries ->
  forallb valid_team entries = true ->
  exists rows w',
    standings_of_data data w = (Ok rows, w')
    /\ List.length rows = List.length entries
    /\ Forall2 (fun entry row => key entry "position" = Ok (Standing.position row))
         entries rows.
Proof.
  intros Ht Hv.
  assert (Hok : Forall (fun x => is_ok (standing_fields x) = true) entries).
  { apply Forall_forall. intros x Hx.
    rewrite forallb_forall in Hv.
    destruct (valid_team_fields x (Hv x Hx)) as (mk & E & _).
    rewrite E. reflexivity. }
  destruct (for_each_stamped_ok standing_fields entries Hok w) as (rows & w' & Er & HF).
  exists rows, w'. split; [| split].
  - unfold standings_of_data. rewrite (first_table_visited _ _ Ht). exact Er.
  - symmetry. eapply Forall2_length. exact HF.
  - rewrite forallb_forall in Hv.
    clear Er Hok Ht. induction HF as [| x r l rs Hxr _ IH]; constructor.
    + destruct Hxr as (mk & t & E & ->).
      destruct (valid_team_fields x (Hv x (or_introl eq_refl))) as (mk' & E' & Hp).
      rewrite E in E'. inversion E'; subst. apply Hp.
    + apply IH. intros y Hy. apply Hv. right. exact Hy.
Qed.

Lemma standings_mapper_keeps_count_and_order_witness :
  exists rows w',
    standings_of_data sample_standings (fresh [] [] [10; 20; 30]) = (Ok rows, w')
    /\ List.length rows = List.length sample_table
    /\ Forall2 (fun entry row => key entry "position" = Ok (Standing.position row))
         sample_table rows.
Proof.
  apply (standings_mapper_keeps_count_and_order sample_standings sample_table
           (fresh [] [] [10; 20; 30])); reflexivity.
Defined.

Lemma match_fields_inv m mk :
  match_fields m = Ok mk ->
  forall t,
    key m "id" = Ok (Match.match_id (mk t))
    /\ full_time "home" m = Ok (Match.home_score (mk t))
    /\ full_time "away" m = Ok (Match.away_score (mk t)).
Proof.
  unfold match_fields, full_time. intros H t.
  repeat next_lookup H. inversion H; subst. simpl. repeat split;
    repeat (match goal with
            | E : key ?v ?k = Ok _ |- context [key ?v ?k] => rewrite E; simpl
            end); reflexivity.
Qed.

Lemma standing_fields_inv team mk :
  standing_fields team = Ok mk ->
  forall t, key team "position" = Ok (Standing.position (mk t)).
Proof.
  unfold standing_fields. intros H t.
  repeat next_lookup H. inversion H; subst. reflexivity.
Qed.

(** Decide the next lookup of the chain in the goal, in the hypotheses too;
    a failed lookup contradicts one of them. *)
Ltac lookup_everywhere :=
  match goal with
  | |- context [rbind (key ?v ?k) _] =>
      let E := fresh "E" in
      destruct (key v k) eqn:E; try rewrite E in *; simpl in *;
      [| try congruence]
  end.

Lemma valid_match_fields m :
  valid_match m = true -> is_ok (match_fields m) = true.
Proof.
  unfold valid_match, has, has_in, full_time, match_fields. intros H.
  repeat rewrite andb_true_iff in H.
  destruct H as (((((((((I & U) & S) & Md) & HN) & HI) & AN) & AI) & FH) & FA).
  repeat lookup_everywhere. reflexivity.
Qed.

Lemma match_fields_raises_shape_errors m e :
  match_fields m = Raise e -> shape_error e = true.
Proof.
  revert e. unfold match_fields. repeat lookup_or_raise. discriminate.
Qed.

Lemma standing_fields_raises_shape_errors team e :
  standing_fields team = Raise e -> shape_error e = true.
Proof.
  revert e. unfold standing_fields. repeat lookup_or_raise. discriminate.
Qed.


Lemma matches_array_visited data ms :
  matches_array data = Some ms -> matches_list data = Ok ms.
Proof.
  unfold matches_array. destruct data as [| | | | | | dm]; try discriminate.
  destruct (Py.dict_get "matches" dm) as [[| | | | | l |] |] eqn:E; try discriminate.
  intros H. inversion H; subst. unfold matches_list. simpl. rewrite E. reflexivity.
Qed.

(** On a valid matches response the mapper returns one row per match, in
    order, each made of the match's fields and a stamp. *)
Lemma matches_mapper_valid data ms w :
  matches_array data = Some ms ->
  forallb valid_match ms = true ->
  exists rows w',
    matches_of_data data w = (Ok rows, w')
    /\ Forall2 (fun m row => exists mk t, match_fields m = Ok mk /\ row = mk t) ms rows.
Proof.
  intros Ha Hv.
  assert (Hok : Forall (fun x => is_ok (match_fields x) = true) ms).
  { apply Forall_forall. intros x Hx. rewrite forallb_forall in Hv.
    apply valid_match_fields. apply Hv. exact Hx. }
  destruct (for_each_stamped_ok match_fields ms Hok w) as (rows & w' & Er & HF).
  exists rows, w'. split; [| exact HF].
  unfold matches_of_data. rewrite (matches_array_visited _ _ Ha). exact Er.
Qed.

(** C6: on a valid matches response the mapper returns one row per match,
    and the i-th row's [match_id] is the [id] of the i-th match, as it
    came. *)
Theorem matches_mapper_keeps_ids data ms w :
  matches_array data = Some ms ->
  forallb valid_match ms = true ->
  exists rows w',
    matches_of_data data w = (Ok rows, w')
    /\ List.length rows = List.length ms
    /\ Forall2 (fun m row => key m "id" = Ok (Match.match_id row)) ms rows.
Proof.
  intros Ha Hv.
  destruct (matches_mapper_valid data ms w Ha Hv) as (rows & w' & E & HF).
  exists rows, w'. split; [exact E | split].
  - symmetry. eapply Forall2_length. exact HF.
  - eapply Forall2_impl; [| exact HF].
    intros m row (mk & t & Em & ->). apply (match_fields_inv m mk Em t).
Qed.

Lemma matches_mapper_keeps_ids_witness :
  exists rows w',
    matches_of_data
      (sample_matches [sample_match 12345 "FINISHED" (score_of (JInt 2) (JInt 1));
                       sample_match 12346 "TIMED" (score_of JNull JNull)])
      (fresh [] [] [10; 20]) = (Ok rows, w')
    /\ List.length rows = 2%nat
    /\ Forall2 (fun m row => key m "id" = Ok (Match.match_id row))
         [sample_match 12345 "FINISHED" (score_of (JInt 2) (JInt 1));
          sample_match 12346 "TIMED" (score_of JNull JNull)] rows.
Proof.
  apply (matches_mapper_keeps_ids
           (sample_matches [sample_match 12345 "FINISHED" (score_of (JInt 2) (JInt 1));
                            sample_match 12346 "TIMED" (score_of JNull JNull)])
           [sample_match 12345 "FINISHED" (score_of (JInt 2) (JInt 1));
            sample_match 12346 "TIMED" (score_of JNull JNull)]
           (fresh [] [] [10; 20])); reflexivity.
Defined.




(** ** The standings write *)

Lemma trace_extends_refl w : trace_extends w w.
Proof. exists []. now rewrite app_nil_r. Qed.

Lemma trace_extends_trans w1 w2 w3 :
  trace_extends w1 w2 -> trace_extends w2 w3 -> trace_extends w1 w3.
Proof.
  intros (e1 & T1) (e2 & T2). exists (e1 ++ e2).
  rewrite T2, T1, app_assoc. reflexivity.
Qed.

Lemma trace_extends_emit ev w :
  match ev with
  | DbDeleteGte _ _ _ | DbInsert _ _ | DbUpsert _ _ _ => True
  | _ => trace_extends w (emit ev w)
  end.
Proof. destruct ev; try exact I; eexists; reflexivity. Qed.

Lemma trace_extends_set_http w o rest :
  http_in w = o :: rest -> trace_extends w (set_http rest w).
Proof. intros _. exists []. simpl. now rewrite app_nil_r. Qed.

Lemma trace_extends_set_clock w t rest :
  clock_in w = t :: rest -> trace_extends w (set_clock rest t w).
Proof. intros _. exists []. simpl. now rewrite app_nil_r. Qed.

Lemma requests_get_trace url hs ps w r w' :
  requests_get url hs ps w = (r, w') ->
  trace w' = trace w ++ [HttpGet url hs ps].
Proof.
  unfold requests_get. destruct w as [h d c n s m tr]. simpl.
  destruct h as [| [dt | st body] rest]; intros H; inversion H; reflexivity.
Qed.

(** The [try] block of a fetch begins with its request. *)
Lemma fetch_block_starts_with_get {A : Type} url hs ps
    (k : json -> M (list A)) prefix w r w1 :
  (forall data, preserves trace_extends (k data)) ->
  try_except
    (response <- requests_get url hs ps ;;
     raise_for_status response ;;
     data <- response_json response ;;
     k data)
    is_request_exception
    (fun e => print (ErrorLine prefix e) ;; ret []) w = (r, w1) ->
  exists evs, trace w1 = trace w ++ HttpGet url hs ps :: evs.
Proof.
  intros Hk. unfold try_except, bind.
  destruct (requests_get url hs ps w) as [[resp | e0] w0] eqn:Eg;
    pose proof (requests_get_trace _ _ _ _ _ _ Eg) as T0.
  - assert (Hrest : preserves trace_extends
                      (raise_for_status resp ;;
                       data <- response_json resp ;; k data)).
    { apply preserves_bind; try exact trace_extends_refl; try exact trace_extends_trans.
      - apply preserves_raise_for_status; exact trace_extends_refl.
      - intros _. apply preserves_bind;
          try exact trace_extends_refl; try exact trace_extends_trans.
        + apply preserves_response_json; exact trace_extends_refl.
        + exact Hk. }
    unfold bind in Hrest.
    destruct (raise_for_status resp w0) as [[u | e1] w2] eqn:E1.
    + destruct (response_json resp w2) as [[data | e2] w3] eqn:E2.
      * destruct (k data w3) as [[rows | e3] w4] eqn:E3.
        -- intros H. inversion H; subst.
           destruct (Hrest w0 (Ok rows) w1) as (evs & T).
           { unfold bind. rewrite E1, E2, E3. reflexivity. }
           exists evs. rewrite T, T0, <- app_assoc. reflexivity.
        -- destruct (Hrest w0 (Raise e3) w4) as (evs & T).
           { unfold bind. rewrite E1, E2, E3. reflexivity. }
           destruct (is_request_exception e3); intros H; inversion H; subst.
           ++ eexists. simpl. rewrite T, T0, <- !app_assoc. reflexivity.
           ++ exists evs. rewrite T, T0, <- app_assoc. reflexivity.
      * destruct (Hrest w0 (Raise e2) w3) as (evs & T).
        { unfold bind. rewrite E1, E2. reflexivity. }
        destruct (is_request_exception e2); intros H; inversion H; subst.
        -- eexists. simpl. rewrite T, T0, <- !app_assoc. reflexivity.
        -- exists evs. rewrite T, T0, <- app_assoc. reflexivity.
    + destruct (Hrest w0 (Raise e1) w2) as (evs & T).
      { unfold bind. rewrite E1. reflexivity. }
      destruct (is_request_exception e1); intros H; inversion H; subst.
      * eexists. simpl. rewrite T, T0, <- !app_assoc. reflexivity.
      * exists evs. rewrite T, T0, <- app_assoc. reflexivity.
  - destruct (is_request_exception e0); intros H; inversion H; subst.
    + eexists. simpl. rewrite T0, <- !app_assoc. reflexivity.
    + exists []. rewrite T0. reflexivity.
Qed.

Lemma fetch_standings_starts_with_get self w r w1 :
  get_premier_league_standings self w = (r, w1) ->
  exists evs,
    trace w1 = trace w ++ HttpGet (standings_url self) (headers self) [] :: evs.
Proof.
  apply fetch_block_starts_with_get. intros data.
  apply preserves_standings_of_data;
    first [ exact trace_extends_refl | exact trace_extends_trans
          | exact trace_extends_set_clock ].
Qed.


Lemma before_midnight t today :
  (t <? midnight (date_of today)) = true <-> date_of t < date_of today.
Proof.
  unfold midnight, date_of, day_us. rewrite Z.ltb_lt.
  pose proof (Z.div_mod t 86400000000 ltac:(lia)) as Ht.
  pose proof (Z.mod_pos_bound t 86400000000 ltac:(lia)) as Hb.
  split; intros H; nia.
Qed.

(** What the delete keeps: the rows stamped on a date before today's. *)
Lemma delete_gte_keeps today tbl r :
  In r (delete_gte (midnight (date_of today)) tbl)
  <-> In r tbl /\ date_of (Standing.updated_at r) < date_of today.
Proof.
  unfold delete_gte. rewrite filter_In, before_midnight. reflexivity.
Qed.

Lemma write_standings_accepted rows w1 :
  accepts 2 w1 ->
  exists today w',
    fst (datetime_now w1) = Ok today
    /\ write_standings rows w1 = (Ok tt, w')
    /\ standings w' = delete_gte (midnight (date_of today)) (standings w1) ++ rows
    /\ matches w' = matches w1
    /\ trace w' = trace w1
                  ++ [DbDeleteGte "standings" "updated_at" (midnight (date_of today));
                      DbInsert "standings" rows;
                      Print (SyncedLine (List.length rows) "teams to standings table")].
Proof.
  unfold accepts. destruct w1 as [h d c n s m tr]. simpl. intros Hacc.
  assert (Hd : d = [] \/ d = [None] \/ exists rest, d = None :: None :: rest).
  { destruct d as [| o1 [| o2 rest]]; simpl in Hacc.
    - left. reflexivity.
    - right. left. inversion Hacc; subst. reflexivity.
    - right. right. inversion Hacc as [| ? ? H1 H2]; subst.
      inversion H2; subst. exists rest. reflexivity. }
  unfold write_standings, bind, datetime_now, standings_delete_gte,
    standings_insert, execute, print.
  destruct c as [| t c']; simpl;
    (destruct Hd as [-> | [-> | (rest & ->)]]; simpl;
     do 2 eexists; repeat split; simpl; rewrite <- ?app_assoc; reflexivity).
Qed.

(** C7, as the code has it: with a non-empty fetch and a database that
    accepts both statements, the sync fetches and maps first, then deletes,
    then inserts.  The delete is a one-sided filter, [updated_at >= today's
    date]: it keeps exactly the rows stamped on a date before today's, and
    removes the rows of today and of any later date.  The table ends as the
    kept rows followed by the freshly mapped ones. *)
Theorem standings_sync_deletes_from_today_then_inserts self w row rows w1 :
  get_premier_league_standings self w = (Ok (row :: rows), w1) ->
  accepts 2 w1 ->
  exists today w' fetched,
    fst (datetime_now w1) = Ok today
    /\ sync_standings_to_supabase self w = (Ok tt, w')
    /\ standings w'
       = delete_gte (midnight (date_of today)) (standings w) ++ row :: rows
    /\ (forall r, In r (delete_gte (midnight (date_of today)) (standings w))
                  <-> In r (standings w)
                      /\ date_of (Standing.updated_at r) < date_of today)
    /\ trace w'
       = trace w
         ++ HttpGet (standings_url self) (headers self) [] :: fetched
         ++ [DbDeleteGte "standings" "updated_at" (midnight (date_of today));
             DbInsert "standings" (row :: rows);
             Print (SyncedLine (List.length (row :: rows)) "teams to standings table")]
    /\ Forall (fun ev => is_db_statement ev = false) fetched.
Proof.
  intros Hfetch Hacc.
  destruct (write_standings_accepted (row :: rows) w1 Hacc)
    as (today & w' & Hnow & Hw & Hs & _ & Ht).
  destruct (fetch_standings_starts_with_get self w _ w1 Hfetch) as (fetched & Hg).
  destruct (fetch_standings_db_untouched self w _ w1 Hfetch)
    as (Hs1 & _ & _ & evs & Hevs & Hquiet).
  exists today, w', fetched.
  split; [| split; [| split; [| split; [| split]]]].
  - exact Hnow.
  - unfold sync_standings_to_supabase. rewrite (bind_ok _ _ _ _ _ Hfetch). simpl.
    apply try_except_ok. exact Hw.
  - rewrite Hs, Hs1. reflexivity.
  - intros r. apply delete_gte_keeps.
  - rewrite Ht, Hg. rewrite <- app_assoc. reflexivity.
  - rewrite Hg in Hevs. apply app_inv_head in Hevs. subst evs.
    inversion Hquiet; assumption.
Qed.

Lemma standings_sync_deletes_from_today_then_inserts_witness :
  exists today w' fetched,
    fst (datetime_now (snd (get_premier_league_standings (init None) three_days)))
    = Ok today
    /\ sync_standings_to_supabase (init None) three_days = (Ok tt, w')
    /\ standings w'
       = delete_gte (midnight (date_of today)) (standings three_days)
         ++ fresh_standings noon (noon + 1) (noon + 2)
    /\ (forall r, In r (delete_gte (midnight (date_of today)) (standings three_days))
                  <-> In r (standings three_days)
                      /\ date_of (Standing.updated_at r) < date_of today)
    /\ trace w'
       = trace three_days
         ++ HttpGet (standings_url (init None)) (headers (init None)) [] :: fetched
         ++ [DbDeleteGte "standings" "updated_at" (midnight (date_of today));
             DbInsert "standings" (fresh_standings noon (noon + 1) (noon + 2));
             Print (SyncedLine 3 "teams to standings table")]
    /\ Forall (fun ev => is_db_statement ev = false) fetched.
Proof.
  apply (standings_sync_deletes_from_today_then_inserts (init None) three_days
           (stored_standing 1 57 "Arsenal" noon)
           [stored_standing 2 65 "Manchester City" (noon + 1);
            stored_standing 3 64 "Liverpool" (noon + 2)]
           (snd (get_premier_league_standings (init None) three_days))).
  - reflexivity.
  - unfold accepts. simpl. constructor.
Defined.

(** C7 as stated fails: the row stamped tomorrow is not of the current date,
    and the delete removes it with today's row; only yesterday's is kept. *)
Lemma delete_also_removes_later_dates :
  date_of (Standing.updated_at row_tomorrow) <> date_of (noon + 3)
  /\ In row_tomorrow (standings three_days)
  /\ standings (snd (sync_standings_to_supabase (init None) three_days))
     = row_yesterday :: fresh_standings noon (noon + 1) (noon + 2)
  /\ ~ In row_tomorrow
         (standings (snd (sync_standings_to_supabase (init None) three_days))).
Proof.
  split; [| split; [| split]].
  - vm_compute. discriminate.
  - simpl. right. right. left. reflexivity.
  - vm_compute. reflexivity.
  - replace (standings (snd (sync_standings_to_supabase (init None) three_days)))
      with (row_yesterday :: fresh_standings noon (noon + 1) (noon + 2))
      by (vm_compute; reflexivity).
    unfold fresh_standings. simpl.
    intros [H | [H | [H | [H | []]]]]; vm_compute in H; discriminate H.
Qed.

(** ** Upsert by key *)

Lemma same_key_has_id r z x :
  Match.match_id r = JInt z ->
  same_key (Match.match_id x) (Match.match_id r) = has_id z x.
Proof. intros H. unfold has_id. rewrite H. reflexivity. Qed.

Lemma has_id_own r z : Match.match_id r = JInt z -> has_id z r = true.
Proof. intros H. unfold has_id. rewrite H. simpl. apply Z.eqb_refl. Qed.

Lemma has_id_other r z z' :
  Match.match_id r = JInt z -> z' <> z -> has_id z' r = false.
Proof.
  intros H Hne. unfold has_id. rewrite H. simpl.
  apply Z.eqb_neq. congruence.
Qed.

Lemma has_id_unique x z z' : has_id z x = true -> has_id z' x = true -> z' = z.
Proof.
  unfold has_id, same_key. destruct (Match.match_id x); try discriminate.
  rewrite !Z.eqb_eq. congruence.
Qed.

(** Insert if absent, overwrite if present. *)
Lemma find_id_upsert r z tbl z' :
  Match.match_id r = JInt z ->
  find_id z' (upsert_row r tbl) = if z' =? z then Some r else find_id z' tbl.
Proof.
  intros Hr. unfold find_id. induction tbl as [| x rest IH]; simpl.
  - destruct (Z.eqb_spec z' z) as [-> | Hne].
    + rewrite (has_id_own r z Hr). reflexivity.
    + rewrite (has_id_other r z z' Hr Hne). reflexivity.
  - rewrite (same_key_has_id r z x Hr).
    destruct (has_id z x) eqn:Hx; simpl.
    + destruct (Z.eqb_spec z' z) as [-> | Hne].
      * rewrite (has_id_own r z Hr). reflexivity.
      * rewrite (has_id_other r z z' Hr Hne).
        destruct (has_id z' x) eqn:Hx'; [| reflexivity].
        exfalso. apply Hne. eapply has_id_unique; eassumption.
    + destruct (has_id z' x) eqn:Hx'.
      * destruct (Z.eqb_spec z' z) as [-> | Hne]; [congruence | reflexivity].
      * exact IH.
Qed.

Lemma count_id_upsert r z tbl z' :
  Match.match_id r = JInt z ->
  count_id z' (upsert_row r tbl)
  = if z' =? z then Nat.max 1 (count_id z tbl) else count_id z' tbl.
Proof.
  intros Hr. unfold count_id. induction tbl as [| x rest IH]; simpl.
  - destruct (Z.eqb_spec z' z) as [-> | Hne].
    + rewrite (has_id_own r z Hr). reflexivity.
    + rewrite (has_id_other r z z' Hr Hne). reflexivity.
  - rewrite (same_key_has_id r z x Hr).
    destruct (has_id z x) eqn:Hx; simpl.
    + destruct (Z.eqb_spec z' z) as [-> | Hne].
      * rewrite (has_id_own r z Hr). simpl. reflexivity.
      * rewrite (has_id_other r z z' Hr Hne).
        destruct (has_id z' x) eqn:Hx'; [| reflexivity].
        exfalso. apply Hne. eapply has_id_unique; eassumption.
    + destruct (has_id z' x) eqn:Hx'; simpl.
      * destruct (Z.eqb_spec z' z) as [-> | Hne]; [congruence |].
        rewrite IH. destruct (Z.eqb_spec z' z); [congruence | reflexivity].
      * exact IH.
Qed.

Lemma length_upsert r z tbl :
  Match.match_id r = JInt z ->
  List.length (upsert_row r tbl)
  = if (count_id z tbl =? 0)%nat then S (List.length tbl) else List.length tbl.
Proof.
  intros Hr. unfold count_id. induction tbl as [| x rest IH]; simpl.
  - reflexivity.
  - rewrite (same_key_has_id r z x Hr).
    destruct (has_id z x) eqn:Hx; simpl; [reflexivity |].
    rewrite IH. destruct (Datatypes.length (filter (has_id z) rest) =? 0)%nat; reflexivity.
Qed.

Lemma int_key_inv r : int_key r = true -> exists z, Match.match_id r = JInt z.
Proof.
  unfold int_key. destruct (Match.match_id r); try discriminate.
  intros _. eexists. reflexivity.
Qed.

Lemma has_id_iff r z z' :
  Match.match_id r = JInt z -> has_id z' r = (z' =? z).
Proof. intros H. unfold has_id. rewrite H. simpl. apply Z.eqb_sym. Qed.

Lemma find_id_upsert_all rows : forall tbl z,
  forallb int_key rows = true ->
  find_id z (upsert_all rows tbl)
  = match last_with_id z rows with
    | Some r => Some r
    | None => find_id z tbl
    end.
Proof.
  induction rows as [| r rest IH]; intros tbl z Hk; simpl.
  - reflexivity.
  - simpl in Hk. apply andb_true_iff in Hk. destruct Hk as [Hr Hrest].
    destruct (int_key_inv r Hr) as (zr & Ez).
    unfold upsert_all in *. simpl. rewrite (IH _ z Hrest).
    destruct (last_with_id z rest); [reflexivity |].
    rewrite (find_id_upsert r zr tbl z Ez), (has_id_iff r zr z Ez).
    destruct (z =? zr); reflexivity.
Qed.

Lemma count_id_upsert_all rows : forall tbl z,
  forallb int_key rows = true ->
  count_id z (upsert_all rows tbl)
  = if existsb (has_id z) rows then Nat.max 1 (count_id z tbl) else count_id z tbl.
Proof.
  induction rows as [| r rest IH]; intros tbl z Hk; simpl.
  - reflexivity.
  - simpl in Hk. apply andb_true_iff in Hk. destruct Hk as [Hr Hrest].
    destruct (int_key_inv r Hr) as (zr & Ez).
    unfold upsert_all in *. simpl. rewrite (IH _ z Hrest).
    rewrite (count_id_upsert r zr tbl z Ez), (has_id_iff r zr z Ez).
    destruct (Z.eqb_spec z zr) as [-> | Hne]; simpl;
      destruct (existsb (has_id _) rest); try reflexivity.
    destruct (count_id zr tbl); reflexivity.
Qed.

Lemma length_upsert_all_present rows : forall tbl,
  forallb int_key rows = true ->
  (forall r z, In r rows -> Match.match_id r = JInt z -> (1 <= count_id z tbl)%nat) ->
  List.length (upsert_all rows tbl) = List.length tbl.
Proof.
  induction rows as [| r rest IH]; intros tbl Hk Hp; simpl.
  - reflexivity.
  - simpl in Hk. apply andb_true_iff in Hk. destruct Hk as [Hr Hrest].
    destruct (int_key_inv r Hr) as (zr & Ez).
    unfold upsert_all in *. simpl. rewrite IH.
    + rewrite (length_upsert r zr tbl Ez).
      pose proof (Hp r zr (or_introl eq_refl) Ez) as H1.
      destruct (Nat.eqb_spec (count_id zr tbl) 0); [lia | reflexivity].
    + exact Hrest.
    + intros r' z' Hin Ez'. rewrite (count_id_upsert r zr tbl z' Ez).
      pose proof (Hp r' z' (or_intror Hin) Ez') as H1.
      destruct (z' =? zr); lia.
Qed.

Lemma same_but_stamp_has_id a b z :
  same_but_stamp a b -> has_id z b = has_id z a.
Proof. unfold same_but_stamp. intros ->. reflexivity. Qed.

(** Payloads that agree up to their stamps have, for every key, last rows
    that agree up to their stamps. *)
Lemma last_with_id_same_but_stamp z rows1 rows2 :
  Forall2 same_but_stamp rows1 rows2 ->
  match last_with_id z rows1, last_with_id z rows2 with
  | Some a, Some b => same_but_stamp a b
  | None, None => True
  | _, _ => False
  end.
Proof.
  induction 1 as [| a b l1 l2 Hab _ IH]; simpl; [exact I |].
  destruct (last_with_id z l1), (last_with_id z l2); try contradiction; try exact IH.
  rewrite (same_but_stamp_has_id a b z Hab).
  destruct (has_id z a); [exact Hab | exact I].
Qed.

Lemma last_with_id_exists z rows :
  existsb (has_id z) rows = true -> exists r, last_with_id z rows = Some r.
Proof.
  induction rows as [| r rest IH]; simpl; [discriminate |].
  destruct (last_with_id z rest) as [x |]; [intros _; eexists; reflexivity |].
  destruct (has_id z r); simpl; [intros _; eexists; reflexivity |].
  intros H. destruct (IH H) as (x & Hx). discriminate Hx.
Qed.

(** ** The matches sync *)

Lemma match_fields_stamp m mk :
  match_fields m = Ok mk ->
  forall t t', mk t' = Match.restamp t' (mk t) /\ Match.updated_at (mk t') = t'.
Proof.
  unfold match_fields. intros H t t'.
  repeat next_lookup H. inversion H; subst. split; reflexivity.
Qed.

Lemma made_of_same_but_stamp ms : forall rows1 rows2,
  Forall2 made_of ms rows1 -> Forall2 made_of ms rows2 ->
  Forall2 same_but_stamp rows1 rows2.
Proof.
  induction ms as [| m rest IH]; intros rows1 rows2 H1 H2;
    inversion H1; subst; inversion H2; subst; constructor.
  - destruct H3 as (mk1 & t1 & E1 & ->). destruct H4 as (mk2 & t2 & E2 & ->).
    rewrite E1 in E2. inversion E2; subst mk2.
    unfold same_but_stamp.
    destruct (match_fields_stamp m mk1 E1 t1 t2) as [Hre Hup].
    rewrite Hup. exact Hre.
  - apply IH; assumption.
Qed.

Lemma made_of_int_keys ms rows :
  Forall2 made_of ms rows ->
  forallb int_id ms = true ->
  forallb int_key rows = true.
Proof.
  induction 1 as [| m row l rs Hm _ IH]; simpl; [reflexivity |].
  intros H. apply andb_true_iff in H. destruct H as [Hi Hl].
  rewrite (IH Hl), andb_true_r.
  destruct Hm as (mk & t & E & ->).
  destruct (match_fields_inv m mk E t) as (Hid & _).
  unfold int_id in Hi. rewrite Hid in Hi. unfold int_key.
  destruct (Match.match_id (mk t)); try discriminate. reflexivity.
Qed.

Lemma upsert_loop_accepted rows : forall w,
  accepts_all w ->
  exists w',
    for_each_ matches_upsert rows w = (Ok tt, w')
    /\ matches w' = upsert_all rows (matches w)
    /\ accepts_all w'
    /\ http_in w' = http_in w
    /\ clock_in w' = clock_in w
    /\ now w' = now w.
Proof.
  induction rows as [| r rest IH]; intros w Hacc; simpl.
  - exists w. repeat split. exact Hacc.
  - assert (Hstep : exists w1,
               matches_upsert r w = (Ok tt, w1)
               /\ matches w1 = upsert_row r (matches w)
               /\ accepts_all w1
               /\ http_in w1 = http_in w
               /\ clock_in w1 = clock_in w
               /\ now w1 = now w).
    { unfold accepts_all in *. destruct w as [h d c n s m tr].
      unfold matches_upsert, execute. simpl in *.
      destruct d as [| o d'].
      - eexists. repeat split. constructor.
      - inversion Hacc; subst. eexists. repeat split. assumption. }
    destruct Hstep as (w1 & E1 & M1 & A1 & H1 & C1 & N1).
    destruct (IH w1 A1) as (w' & E' & M' & A' & H' & C' & N').
    exists w'. rewrite (bind_ok _ _ _ _ _ E1).
    split; [exact E' |]. split; [| split; [exact A' | split; [| split]]];
      congruence.
Qed.

Lemma write_matches_accepted rows w :
  accepts_all w ->
  exists w',
    write_matches rows w = (Ok tt, w')
    /\ matches w' = upsert_all rows (matches w)
    /\ accepts_all w'
    /\ http_in w' = http_in w
    /\ clock_in w' = clock_in w
    /\ now w' = now w.
Proof.
  intros Hacc.
  destruct (upsert_loop_accepted rows w Hacc) as (w1 & E & Hm & Ha & Hh & Hc & Hn).
  exists (emit (Print (SyncedLine (List.length rows) "matches to matches table")) w1).
  unfold write_matches. rewrite (bind_ok _ _ _ _ _ E).
  repeat split; assumption.
Qed.

(** A response that is not a failure hands its body to the mapper; a valid
    body comes back as its rows. *)
Lemma matches_fetch_valid self days_back w st data ms rest :
  http_in w = Response st (Some data) :: rest ->
  (400 <=? st) && (st <? 600) = false ->
  matches_array data = Some ms ->
  forallb valid_match ms = true ->
  exists rows w1,
    get_recent_matches self days_back w = (Ok rows, w1)
    /\ Forall2 made_of ms rows
    /\ http_in w1 = rest
    /\ db_untouched w w1.
Proof.
  intros Hh Hst Ha Hv.
  destruct (get_recent_matches self days_back w) as [r w1] eqn:E.
  pose proof (fetch_matches_db_untouched self days_back w r w1 E) as Hq.
  revert E. unfold get_recent_matches.
  destruct (datetime_now_total w) as (t1 & c1 & n1 & E1).
  rewrite (bind_ok _ _ _ _ _ E1).
  destruct (datetime_now_total (set_clock c1 n1 w)) as (t2 & c2 & n2 & E2).
  rewrite (bind_ok _ _ _ _ _ E2).
  assert (Hh2 : http_in (set_clock c2 n2 (set_clock c1 n1 w))
                = Response st (Some data) :: rest) by exact Hh.
  rewrite (fetch_decoded _ _ _ _ _ _ _ _ _ _ Hh2 Hst).
  match goal with
  | |- try_except _ _ _ ?v = _ -> _ => set (w0 := v)
  end.
  destruct (matches_mapper_valid data ms w0 Ha Hv) as (rows & w' & Em & HF).
  assert (Hsame : http_in w' = http_in w0).
  { refine (preserves_matches_of_data same_http _ _ _ data w0 _ w' Em).
    - intros v. reflexivity.
    - intros v1 v2 v3 H12 H23. unfold same_http in *. congruence.
    - intros v t c _. reflexivity. }
  rewrite (try_except_ok _ _ _ _ _ _ Em). intros E. inversion E; subst.
  exists rows, w1. split; [reflexivity | split; [exact HF | split; [| exact Hq]]].
  rewrite Hsame. unfold w0, after_get. simpl. rewrite Hh. reflexivity.
Qed.

Lemma sync_matches_valid self w st data ms rest :
  http_in w = Response st (Some data) :: rest ->
  (400 <=? st) && (st <? 600) = false ->
  matches_array data = Some ms ->
  forallb valid_match ms = true ->
  accepts_all w ->
  exists rows w1,
    sync_matches_to_supabase self w = (Ok tt, w1)
    /\ Forall2 made_of ms rows
    /\ matches w1 = upsert_all rows (matches w)
    /\ accepts_all w1
    /\ http_in w1 = rest.
Proof.
  intros Hh Hst Ha Hv Hacc.
  destruct (matches_fetch_valid self 7 w st data ms rest Hh Hst Ha Hv)
    as (rows & wa & Ef & HF & Hrest & (_ & Hm & Hd & _)).
  exists rows. unfold sync_matches_to_supabase. rewrite (bind_ok _ _ _ _ _ Ef).
  destruct rows as [| r rows']; simpl.
  - eexists. split; [reflexivity |]. repeat split; try assumption.
    unfold accepts_all in *. simpl. rewrite Hd. exact Hacc.
  - assert (Hacc' : accepts_all wa) by (unfold accepts_all in *; rewrite Hd; exact Hacc).
    destruct (write_matches_accepted (r :: rows') wa Hacc')
      as (w1 & Ew & Hm1 & Ha1 & Hh1 & _).
    exists w1. rewrite (try_except_ok _ _ _ _ _ _ Ew).
    split; [reflexivity | split; [exact HF | split; [| split; [exact Ha1 |]]]].
    + rewrite Hm1, Hm. reflexivity.
    + rewrite Hh1. exact Hrest.
Qed.

Lemma made_of_has_id ms rows m z :
  Forall2 made_of ms rows ->
  In m ms -> key m "id" = Ok (JInt z) ->
  existsb (has_id z) rows = true.
Proof.
  induction 1 as [| m0 row l rs Hm _ IH]; simpl; [contradiction |].
  intros [-> | Hin] Hid.
  - destruct Hm as (mk & t & E & ->).
    destruct (match_fields_inv m mk E t) as (Hid' & _).
    rewrite Hid in Hid'. inversion Hid' as [Hz].
    rewrite (has_id_own _ z (eq_sym Hz)). reflexivity.
  - rewrite (IH Hin Hid). apply orb_true_r.
Qed.

Lemma existsb_has_id_same_but_stamp z rows1 rows2 :
  Forall2 same_but_stamp rows1 rows2 ->
  existsb (has_id z) rows1 = existsb (has_id z) rows2.
Proof.
  induction 1 as [| a b l1 l2 Hab _ IH]; simpl; [reflexivity |].
  rewrite (same_but_stamp_has_id a b z Hab), IH. reflexivity.
Qed.

Lemma in_existsb_has_id r z rows :
  In r rows -> Match.match_id r = JInt z -> existsb (has_id z) rows = true.
Proof.
  intros Hin Hz. apply existsb_exists. exists r.
  split; [exact Hin | apply has_id_own; exact Hz].
Qed.

(** ** The clock, reading by reading *)

Lemma last_default {A : Type} (l : list A) : forall x d d',
  last (x :: l) d = last (x :: l) d'.
Proof.
  induction l as [| y l IH]; intros x d d'; [reflexivity |].
  change (last (x :: y :: l) d) with (last (y :: l) d).
  change (last (x :: y :: l) d') with (last (y :: l) d').
  apply IH.
Qed.

(** [datetime.now()] returns the next reading and moves the clock by one. *)
Lemma datetime_now_at w :
  exists w1,
    datetime_now w = (Ok (reading 0 w), w1)
    /\ (forall k, reading k w1 = reading (S k) w)
    /\ http_in w1 = http_in w /\ db_in w1 = db_in w
    /\ standings w1 = standings w /\ matches w1 = matches w
    /\ trace w1 = trace w.
Proof.
  unfold datetime_now, reading. destruct w as [h d c n s m tr]. simpl.
  destruct c as [| t rest].
  - eexists. split; [reflexivity |]. simpl. split; [| repeat split].
    intros k. destruct k; reflexivity.
  - eexists. split; [reflexivity |]. split; [| repeat split].
    intros k. simpl clock_in. simpl now.
    change (nth (S k) (t :: rest) (last (t :: rest) n))
      with (nth k rest (last (t :: rest) n)).
    destruct rest as [| t' rest'].
    + destruct k; reflexivity.
    + change (last (t :: t' :: rest') n) with (last (t' :: rest') n).
      rewrite (last_default rest' t' t n). reflexivity.
Qed.

(** The loop over stamped rows gives the [i]-th row the [i]-th reading. *)
Lemma for_each_stamped_at {A B : Type} (fields : A -> result (Z -> B)) l :
  forall w rows w',
    for_each (fun x => stamped (fields x)) l w = (Ok rows, w') ->
    List.length rows = List.length l
    /\ (forall i x, nth_error l i = Some x ->
          exists mk, fields x = Ok mk
                     /\ nth_error rows i = Some (mk (reading i w)))
    /\ (forall k, reading k w' = reading (List.length l + k) w).
Proof.
  induction l as [| x rest IH]; intros w rows w' H; simpl in H.
  - inversion H; subst. split; [reflexivity | split; [| reflexivity]].
    intros [| i] y Hy; discriminate Hy.
  - destruct (bind_inv _ _ _ _ _ H) as [(y & w1 & E1 & H1) | (e & _ & Habs)];
      [| discriminate].
    destruct (bind_inv _ _ _ _ _ H1) as [(ys & w2 & E2 & H2) | (e & _ & Habs)];
      [| discriminate].
    inversion H2; subst. clear H2 H1 H.
    unfold stamped, bind, lift in E1.
    destruct (fields x) as [mk | e] eqn:Ef; [| discriminate].
    destruct (datetime_now_at w) as (wa & Ea & Hr & _).
    rewrite Ea in E1. inversion E1; subst. clear E1.
    destruct (IH _ _ _ E2) as (Hlen & Hidx & Hshift).
    split; [simpl; rewrite Hlen; reflexivity | split].
    + intros [| i] z Hz; simpl in Hz.
      * inversion Hz; subst. exists mk. split; [exact Ef | reflexivity].
      * destruct (Hidx i z Hz) as (mk' & Ef' & Hn). exists mk'.
        split; [exact Ef' |]. simpl. rewrite Hn, Hr. reflexivity.
    + intros k. rewrite Hshift, Hr. reflexivity.
Qed.

(** A valid matches response, fetched: the [i]-th row is the [i]-th match
    of the response, stamped with the reading that follows the two readings
    of the date window and the stamps of the rows before it. *)
Lemma matches_fetch_valid_at self days_back w st data ms rest :
  http_in w = Response st (Some data) :: rest ->
  (400 <=? st) && (st <? 600) = false ->
  matches_array data = Some ms ->
  forallb valid_match ms = true ->
  exists rows w1,
    get_recent_matches self days_back w = (Ok rows, w1)
    /\ List.length rows = List.length ms
    /\ (forall i m, nth_error ms i = Some m ->
          exists mk, match_fields m = Ok mk
                     /\ nth_error rows i = Some (mk (reading (2 + i) w)))
    /\ (forall k, reading k w1 = reading (2 + List.length ms + k) w)
    /\ http_in w1 = rest
    /\ db_untouched w w1.
Proof.
  intros Hh Hst Ha Hv.
  destruct (matches_fetch_valid self days_back w st data ms rest Hh Hst Ha Hv)
    as (rows & w1 & Ef & _ & Hrest & Hq).
  exists rows, w1. split; [exact Ef |].
  cut (List.length rows = List.length ms
       /\ (forall i m, nth_error ms i = Some m ->
             exists mk, match_fields m = Ok mk
                        /\ nth_error rows i = Some (mk (reading (2 + i) w)))
       /\ (forall k, reading k w1 = reading (2 + List.length ms + k) w)).
  { intros (H1 & H2 & H3).
    split; [exact H1 | split; [exact H2 | split; [exact H3 |]]].
    split; [exact Hrest | exact Hq]. }
  revert Ef. unfold get_recent_matches.
  destruct (datetime_now_at w) as (wa & E1 & R1 & Hh1 & _).
  rewrite (bind_ok _ _ _ _ _ E1).
  destruct (datetime_now_at wa) as (wb & E2 & R2 & Hh2 & _).
  rewrite (bind_ok _ _ _ _ _ E2).
  assert (Hhb : http_in wb = Response st (Some data) :: rest)
    by (rewrite Hh2, Hh1; exact Hh).
  rewrite (fetch_decoded _ _ _ _ _ _ _ _ _ _ Hhb Hst).
  match goal with
  | |- try_except _ _ _ ?v = _ -> _ => set (w0 := v)
  end.
  destruct (matches_mapper_valid data ms w0 Ha Hv) as (rows' & w' & Em & _).
  rewrite (try_except_ok _ _ _ _ _ _ Em). intros E. inversion E; subst rows' w'.
  unfold matches_of_data in Em.
  rewrite (bind_ok _ _ w0 ms w0) in Em
    by (unfold lift; rewrite (matches_array_visited data ms Ha); reflexivity).
  destruct (for_each_stamped_at match_fields ms w0 rows w1 Em)
    as (Hlen & Hidx & Hshift).
  assert (R0 : forall k, reading k w0 = reading (2 + k) w).
  { intros k. transitivity (reading k wb); [reflexivity |].
    rewrite R2, R1. reflexivity. }
  split; [exact Hlen | split].
  - intros i m Hm. destruct (Hidx i m Hm) as (mk & Ef & Hn).
    exists mk. split; [exact Ef |]. rewrite Hn, R0. reflexivity.
  - intros k. rewrite Hshift, R0. reflexivity.
Qed.

Lemma sync_matches_valid_at self w st data ms rest :
  http_in w = Response st (Some data) :: rest ->
  (400 <=? st) && (st <? 600) = false ->
  matches_array data = Some ms ->
  forallb valid_match ms = true ->
  accepts_all w ->
  exists rows w1,
    sync_matches_to_supabase self w = (Ok tt, w1)
    /\ List.length rows = List.length ms
    /\ (forall i m, nth_error ms i = Some m ->
          exists mk, match_fields m = Ok mk
                     /\ nth_error rows i = Some (mk (reading (2 + i) w)))
    /\ (forall k, reading k w1 = reading (2 + List.length ms + k) w)
    /\ matches w1 = upsert_all rows (matches w)
    /\ accepts_all w1
    /\ http_in w1 = rest.
Proof.
  intros Hh Hst Ha Hv Hacc.
  destruct (matches_fetch_valid_at self 7 w st data ms rest Hh Hst Ha Hv)
    as (rows & wa & Ef & Hlen & Hidx & Hshift & Hrest & (_ & Hm & Hd & _)).
  exists rows. unfold sync_matches_to_supabase. rewrite (bind_ok _ _ _ _ _ Ef).
  assert (Hacc' : accepts_all wa) by (unfold accepts_all in *; rewrite Hd; exact Hacc).
  destruct rows as [| r rows']; cbn [is_empty].
  - eexists. split; [reflexivity |].
    split; [exact Hlen | split; [exact Hidx | split; [exact Hshift |]]].
    split; [simpl; exact Hm | split; [exact Hacc' | exact Hrest]].
  - destruct (write_matches_accepted (r :: rows') wa Hacc')
      as (w1 & Ew & Hm1 & Ha1 & Hh1 & Hc1 & Hn1).
    exists w1. rewrite (try_except_ok _ _ _ _ _ _ Ew).
    split; [reflexivity |].
    split; [exact Hlen | split; [exact Hidx | split]].
    + intros k. rewrite <- Hshift. unfold reading. rewrite Hc1, Hn1. reflexivity.
    + split; [rewrite Hm1, Hm; reflexivity | split; [exact Ha1 |]].
      rewrite Hh1. exact Hrest.
Qed.

(** ** The last match of a payload with a given id *)

Lemma id_is_spec z m : id_is z m = true <-> key m "id" = Ok (JInt z).
Proof.
  unfold id_is. destruct (key m "id") as [[| | z' | | | |] | e];
    try (split; [discriminate | intros H; inversion H]).
  split.
  - intros H. apply Z.eqb_eq in H. subst. reflexivity.
  - intros H. inversion H; subst. apply Z.eqb_refl.
Qed.

Lemma last_match_with_id z ms : forall m,
  In m ms -> key m "id" = Ok (JInt z) ->
  exists i m',
    nth_error ms i = Some m'
    /\ key m' "id" = Ok (JInt z)
    /\ forall j m'', (i < j)%nat -> nth_error ms j = Some m'' ->
                     key m'' "id" <> Ok (JInt z).
Proof.
  induction ms as [| a l IH]; intros m Hin Hid; [contradiction |].
  destruct (existsb (id_is z) l) eqn:El.
  - apply existsb_exists in El. destruct El as (m0 & Hin0 & H0).
    apply id_is_spec in H0.
    destruct (IH m0 Hin0 H0) as (i & m' & Hn & Hk & Hlast).
    exists (S i), m'. split; [exact Hn | split; [exact Hk |]].
    intros [| j] m'' Hlt Hj; [lia |]. simpl in Hj.
    apply (Hlast j m''); [lia | exact Hj].
  - assert (Ha : key a "id" = Ok (JInt z)).
    { destruct Hin as [-> | Hin]; [exact Hid |].
      assert (Habs : existsb (id_is z) l = true).
      { apply existsb_exists. exists m. split; [exact Hin |].
        apply id_is_spec. exact Hid. }
      rewrite Habs in El. discriminate. }
    exists 0%nat, a. split; [reflexivity | split; [exact Ha |]].
    intros [| j] m'' Hlt Hj; [lia |]. simpl in Hj.
    intros Hk. apply id_is_spec in Hk.
    assert (Habs : existsb (id_is z) l = true).
    { apply existsb_exists. exists m''. split; [| exact Hk].
      eapply nth_error_In. exact Hj. }
    rewrite Habs in El. discriminate.
Qed.

Lemma last_with_id_none z rows :
  (forall r, In r rows -> has_id z r = false) -> last_with_id z rows = None.
Proof.
  induction rows as [| r rest IH]; intros H; simpl; [reflexivity |].
  rewrite IH by (intros x Hx; apply H; right; exact Hx).
  rewrite (H r (or_introl eq_refl)). reflexivity.
Qed.

Lemma last_with_id_at z rows : forall i r,
  nth_error rows i = Some r ->
  has_id z r = true ->
  (forall j r', (i < j)%nat -> nth_error rows j = Some r' -> has_id z r' = false) ->
  last_with_id z rows = Some r.
Proof.
  induction rows as [| r0 rest IH]; intros i r Hn Hr Hlast;
    [destruct i; discriminate Hn |].
  destruct i as [| i]; simpl in Hn.
  - inversion Hn; subst r0. simpl.
    rewrite last_with_id_none, Hr; [reflexivity |].
    intros x Hx. destruct (In_nth_error _ _ Hx) as (j & Hj).
    apply (Hlast (S j) x); [lia | exact Hj].
  - simpl. rewrite (IH i r Hn Hr); [reflexivity |].
    intros j r' Hlt Hj. apply (Hlast (S j) r'); [lia | exact Hj].
Qed.

(** The row the payload leaves for the key [z]: the fields of the last match
    with that id, stamped with that match's own reading. *)
Lemma payload_row_for_id z ms rows (stamp : nat -> Z) i m' :
  List.length rows = List.length ms ->
  (forall j m, nth_error ms j = Some m ->
     exists mk, match_fields m = Ok mk /\ nth_error rows j = Some (mk (stamp j))) ->
  nth_error ms i = Some m' ->
  key m' "id" = Ok (JInt z) ->
  (forall j m'', (i < j)%nat -> nth_error ms j = Some m'' ->
                 key m'' "id" <> Ok (JInt z)) ->
  exists mk,
    match_fields m' = Ok mk
    /\ last_with_id z rows = Some (mk (stamp i)).
Proof.
  intros Hlen Hidx Hn Hk Hlast.
  destruct (Hidx i m' Hn) as (mk & Ef & Hr).
  exists mk. split; [exact Ef |].
  apply (last_with_id_at z rows i _ Hr).
  - apply has_id_own. destruct (match_fields_inv m' mk Ef (stamp i)) as (Hid & _).
    rewrite Hk in Hid. inversion Hid. reflexivity.
  - intros j r' Hlt Hj.
    assert (Hjlen : (j < List.length ms)%nat).
    { rewrite <- Hlen. apply nth_error_Some. rewrite Hj. discriminate. }
    destruct (nth_error ms j) as [m'' |] eqn:Em;
      [| apply nth_error_None in Em; lia].
    destruct (Hidx j m'' Em) as (mk'' & Ef'' & Hr'').
    rewrite Hj in Hr''. inversion Hr''; subst r'.
    destruct (match_fields_inv m'' mk'' Ef'' (stamp j)) as (Hid & _).
    pose proof (Hlast j m'' Hlt Em) as Hne.
    unfold has_id, same_key.
    destruct (Match.match_id (mk'' (stamp j))) as [| | z' | | | |]; try reflexivity.
    apply Z.eqb_neq. intros ->. apply Hne. exact Hid.
Qed.

Lemma rows_int_keys ms rows (stamp : nat -> Z) :
  List.length rows = List.length ms ->
  (forall j m, nth_error ms j = Some m ->
     exists mk, match_fields m = Ok mk /\ nth_error rows j = Some (mk (stamp j))) ->
  forallb int_id ms = true ->
  forallb int_key rows = true.
Proof.
  intros Hlen Hidx Hi. apply forallb_forall. intros r Hr.
  destruct (In_nth_error _ _ Hr) as (j & Hj).
  assert (Hjlen : (j < List.length ms)%nat).
  { rewrite <- Hlen. apply nth_error_Some. rewrite Hj. discriminate. }
  destruct (nth_error ms j) as [m |] eqn:Em; [| apply nth_error_None in Em; lia].
  destruct (Hidx j m Em) as (mk & Ef & Hr').
  rewrite Hj in Hr'. inversion Hr'; subst r.
  destruct (match_fields_inv m mk Ef (stamp j)) as (Hid & _).
  rewrite forallb_forall in Hi. pose proof (Hi m (nth_error_In _ _ Em)) as Hm.
  unfold int_id in Hm. rewrite Hid in Hm. unfold int_key.
  destruct (Match.match_id (mk (stamp j))); try discriminate. reflexivity.
Qed.

(** C4, as the code has it: two runs of the matches sync on the same
    response whose match ids are integers, with a database that accepts every
    statement and a table that honours the UNIQUE constraint on [match_id].
    The second run adds no row.  After each run every [match_id] of the
    payload has exactly one row, and that row is the payload's: the fields of
    the last match of the response with that id, whatever the table held
    before, stamped with the reading the run took for that match.  So the row
    after the second run is the row after the first in every field but
    [updated_at], which is a reading of the second run's own. *)
Theorem matches_sync_twice_same_rows_but_stamp self w st1 st2 data ms rest :
  http_in w = Response st1 (Some data) :: Response st2 (Some data) :: rest ->
  (400 <=? st1) && (st1 <? 600) = false ->
  (400 <=? st2) && (st2 <? 600) = false ->
  matches_array data = Some ms ->
  forallb valid_match ms = true ->
  forallb int_id ms = true ->
  accepts_all w ->
  unique_ids (matches w) ->
  exists w1 w2,
    sync_matches_to_supabase self w = (Ok tt, w1)
    /\ sync_matches_to_supabase self w1 = (Ok tt, w2)
    /\ List.length (matches w2) = List.length (matches w1)
    /\ forall m z, In m ms -> key m "id" = Ok (JInt z) ->
         count_id z (matches w1) = 1%nat
         /\ count_id z (matches w2) = 1%nat
         /\ exists i m' mk r1 r2,
              nth_error ms i = Some m'
              /\ key m' "id" = Ok (JInt z)
              /\ (forall j m'', (i < j)%nat -> nth_error ms j = Some m'' ->
                                key m'' "id" <> Ok (JInt z))
              /\ match_fields m' = Ok mk
              /\ r1 = mk (reading (2 + i) w)
              /\ r2 = mk (reading (4 + List.length ms + i) w)
              /\ find_id z (matches w1) = Some r1
              /\ find_id z (matches w2) = Some r2
              /\ Match.updated_at r1 = reading (2 + i) w
              /\ Match.updated_at r2 = reading (4 + List.length ms + i) w
              /\ same_but_stamp r1 r2.
Proof.
  intros Hh Hst1 Hst2 Ha Hv Hi Hacc Huniq.
  destruct (sync_matches_valid_at self w st1 data ms _ Hh Hst1 Ha Hv Hacc)
    as (rows1 & w1 & E1 & L1 & I1 & S1 & M1 & A1 & H1).
  destruct (sync_matches_valid_at self w1 st2 data ms _ H1 Hst2 Ha Hv A1)
    as (rows2 & w2 & E2 & L2 & I2 & S2 & M2 & A2 & H2).
  pose proof (rows_int_keys ms rows1 _ L1 I1 Hi) as K1.
  pose proof (rows_int_keys ms rows2 _ L2 I2 Hi) as K2.
  assert (Hrow : forall m z, In m ms -> key m "id" = Ok (JInt z) ->
            exists i m' mk,
              nth_error ms i = Some m'
              /\ key m' "id" = Ok (JInt z)
              /\ (forall j m'', (i < j)%nat -> nth_error ms j = Some m'' ->
                                key m'' "id" <> Ok (JInt z))
              /\ match_fields m' = Ok mk
              /\ last_with_id z rows1 = Some (mk (reading (2 + i) w))
              /\ last_with_id z rows2 = Some (mk (reading (2 + i) w1))).
  { intros m z Hin Hid.
    destruct (last_match_with_id z ms m Hin Hid) as (i & m' & Hn & Hk & Hlast).
    destruct (payload_row_for_id z ms rows1 (fun j => reading (2 + j) w) i m'
                L1 I1 Hn Hk Hlast) as (mk & Ef & Hl1).
    destruct (payload_row_for_id z ms rows2 (fun j => reading (2 + j) w1) i m'
                L2 I2 Hn Hk Hlast) as (mk2 & Ef2 & Hl2).
    rewrite Ef in Ef2. inversion Ef2; subst mk2.
    exists i, m', mk. repeat split; assumption. }
  assert (Hex : forall rows z, (exists r, last_with_id z rows = Some r) ->
                  existsb (has_id z) rows = true).
  { intros rows z. induction rows as [| x xs IH]; simpl;
      [intros (r & Hr); discriminate |].
    destruct (last_with_id z xs) as [y |].
    - intros _. rewrite IH by (eexists; reflexivity). apply orb_true_r.
    - destruct (has_id z x); [reflexivity | intros (r & Hr); discriminate]. }
  assert (Hcount1 : forall z, existsb (has_id z) rows1 = true ->
                              count_id z (matches w1) = 1%nat).
  { intros z Hz. rewrite M1, (count_id_upsert_all rows1 _ z K1), Hz.
    pose proof (Huniq z). lia. }
  assert (Hsame : forall z, existsb (has_id z) rows2 = true ->
                            existsb (has_id z) rows1 = true).
  { intros z Hz. apply existsb_exists in Hz. destruct Hz as (r & Hr & Hz).
    destruct (In_nth_error _ _ Hr) as (j & Hj).
    assert (Hjlen : (j < List.length ms)%nat).
    { rewrite <- L2. apply nth_error_Some. rewrite Hj. discriminate. }
    destruct (nth_error ms j) as [m |] eqn:Em; [| apply nth_error_None in Em; lia].
    destruct (I2 j m Em) as (mk & Ef & Hr2). rewrite Hj in Hr2. inversion Hr2; subst r.
    destruct (I1 j m Em) as (mk1 & Ef1 & Hr1). rewrite Ef in Ef1. inversion Ef1; subst mk1.
    apply existsb_exists. exists (mk (reading (2 + j) w)).
    split; [eapply nth_error_In; exact Hr1 |].
    destruct (match_fields_stamp m mk Ef (reading (2 + j) w1) (reading (2 + j) w))
      as [Hre _].
    unfold has_id in *. rewrite Hre. exact Hz. }
  exists w1, w2. split; [exact E1 | split; [exact E2 | split]].
  - rewrite M2. apply length_upsert_all_present; [exact K2 |].
    intros r z Hin Hz.
    pose proof (in_existsb_has_id r z rows2 Hin Hz) as Hex2.
    rewrite (Hcount1 z (Hsame z Hex2)). lia.
  - intros m z Hin Hid.
    destruct (Hrow m z Hin Hid) as (i & m' & mk & Hn & Hk & Hlast & Ef & Hl1 & Hl2).
    pose proof (Hex _ _ (ex_intro _ _ Hl1)) as Hex1.
    pose proof (Hex _ _ (ex_intro _ _ Hl2)) as Hex2.
    split; [apply Hcount1; exact Hex1 | split].
    + rewrite M2, (count_id_upsert_all rows2 _ z K2), Hex2, (Hcount1 z Hex1).
      reflexivity.
    + assert (Hr2 : reading (2 + i) w1 = reading (4 + List.length ms + i) w).
      { rewrite S1. f_equal. lia. }
      rewrite Hr2 in Hl2.
      destruct (match_fields_stamp m' mk Ef (reading (2 + i) w)
                  (reading (4 + List.length ms + i) w)) as [Hre Hup].
      destruct (match_fields_stamp m' mk Ef (reading (2 + i) w)
                  (reading (2 + i) w)) as [_ Hup1].
      exists i, m', mk, (mk (reading (2 + i) w)),
        (mk (reading (4 + List.length ms + i) w)).
      split; [exact Hn | split; [exact Hk | split; [exact Hlast | split; [exact Ef |]]]].
      split; [reflexivity | split; [reflexivity |]].
      split; [rewrite M1, (find_id_upsert_all rows1 _ z K1), Hl1; reflexivity |].
      split; [rewrite M2, (find_id_upsert_all rows2 _ z K2), Hl2; reflexivity |].
      split; [exact Hup1 | split; [exact Hup |]].
      unfold same_but_stamp. rewrite Hup. exact Hre.
Qed.

Lemma matches_sync_twice_same_rows_but_stamp_witness :
  exists w1 w2,
    sync_matches_to_supabase (init None) two_runs = (Ok tt, w1)
    /\ sync_matches_to_supabase (init None) w1 = (Ok tt, w2)
    /\ List.length (matches w2) = List.length (matches w1)
    /\ forall m z, In m [finished_12345] -> key m "id" = Ok (JInt z) ->
         count_id z (matches w1) = 1%nat
         /\ count_id z (matches w2) = 1%nat
         /\ exists i m' mk r1 r2,
              nth_error [finished_12345] i = Some m'
              /\ key m' "id" = Ok (JInt z)
              /\ (forall j m'', (i < j)%nat ->
                                nth_error [finished_12345] j = Some m'' ->
                                key m'' "id" <> Ok (JInt z))
              /\ match_fields m' = Ok mk
              /\ r1 = mk (reading (2 + i) two_runs)
              /\ r2 = mk (reading (4 + List.length [finished_12345] + i) two_runs)
              /\ find_id z (matches w1) = Some r1
              /\ find_id z (matches w2) = Some r2
              /\ Match.updated_at r1 = reading (2 + i) two_runs
              /\ Match.updated_at r2
                 = reading (4 + List.length [finished_12345] + i) two_runs
              /\ same_but_stamp r1 r2.
Proof.
  apply (matches_sync_twice_same_rows_but_stamp (init None) two_runs 200 200
           (sample_matches [finished_12345]) [finished_12345] []);
    try reflexivity.
  - unfold accepts_all. simpl. constructor.
  - intros z. unfold count_id. simpl. destruct (has_id z _); simpl; lia.
Defined.

(** C4 as stated fails on the stamp: the same response synced twice leaves
    one row for match 12345 each time, but the row after the second run is
    not the row after the first: its [updated_at] is the second run's. *)
Lemma second_run_restamps_the_row :
  find_id 12345 (matches (snd (sync_matches_to_supabase (init None) two_runs)))
  = Some (stored_match "FINISHED" (JInt 2) (JInt 1) 300)
  /\ find_id 12345
       (matches (snd (sync_matches_to_supabase (init None)
                        (snd (sync_matches_to_supabase (init None) two_runs)))))
     = Some (stored_match "FINISHED" (JInt 2) (JInt 1) 600)
  /\ stored_match "FINISHED" (JInt 2) (JInt 1) 600
     <> stored_match "FINISHED" (JInt 2) (JInt 1) 300.
Proof.
  split; [| split].
  - vm_compute. reflexivity.
  - vm_compute. reflexivity.
  - intros H. inversion H.
Qed.

(** ** What can escape *)

Section RaisesOnly.

Variable P : exn -> bool.










End RaisesOnly.
























(** ** Frame conditions of the syncs *)

Section SyncPreservation.

Variable R : World -> World -> Prop.
Hypothesis R_refl : forall w, R w w.
Hypothesis R_trans : forall w1 w2 w3, R w1 w2 -> R w2 w3 -> R w1 w3.
Hypothesis R_emit : forall ev w, R w (emit ev w).
Hypothesis R_set_http : forall w o rest,
  http_in w = o :: rest -> R w (set_http rest w).
Hypothesis R_set_clock : forall w t rest,
  clock_in w = t :: rest -> R w (set_clock rest t w).
Hypothesis R_set_db_in : forall d w, R w (set_db_in d w).
Hypothesis R_set_standings : forall s w, R w (set_standings s w).
Hypothesis R_set_matches : forall m w, R w (set_matches m w).

Lemma R_emit_quiet ev w :
  match ev with
  | DbDeleteGte _ _ _ | DbInsert _ _ | DbUpsert _ _ _ => True
  | _ => R w (emit ev w)
  end.
Proof. destruct ev; try exact I; apply R_emit. Qed.

Lemma preserves_execute ev apply :
  (forall w, R w (apply w)) -> preserves R (execute ev apply).
Proof.
  intros Happly w r w' H. unfold execute in H.
  destruct (db_in (emit ev w)) as [| [d |] rest] eqn:E; inversion H; subst.
  - eapply R_trans; [apply R_emit | apply Happly].
  - eapply R_trans; [apply R_emit | apply R_set_db_in].
  - eapply R_trans; [apply R_emit |].
    eapply R_trans; [apply R_set_db_in | apply Happly].
Qed.

Lemma preserves_write_standings rows : preserves R (write_standings rows).
Proof.
  unfold write_standings.
  apply preserves_bind; auto. { apply preserves_datetime_now; auto. }
  intros today. apply preserves_bind; auto.
  { apply preserves_execute. intros w. apply R_set_standings. }
  intros _. apply preserves_bind; auto.
  { apply preserves_execute. intros w. apply R_set_standings. }
  intros _. apply preserves_print; auto. apply R_emit_quiet.
Qed.

Lemma preserves_write_matches rows : preserves R (write_matches rows).
Proof.
  unfold write_matches. apply preserves_bind; auto.
  - apply preserves_for_each_; auto. intros r.
    apply preserves_execute. intros w. apply R_set_matches.
  - intros _. apply preserves_print; auto. apply R_emit_quiet.
Qed.

Lemma preserves_after_standings_fetch rows :
  preserves R
    (if is_empty rows
     then print (Text "No standings data to sync")
     else try_except (write_standings rows) is_exception
            (fun e => print (ErrorLine "Error syncing standings" e))).
Proof.
  destruct (is_empty rows).
  - apply preserves_print; auto. apply R_emit_quiet.
  - apply preserves_try_except; auto.
    + apply preserves_write_standings.
    + intros e. apply preserves_print; auto. apply R_emit_quiet.
Qed.

Lemma preserves_after_matches_fetch (rows : list Match.row) :
  preserves R
    (if is_empty rows
     then print (Text "No match data to sync")
     else try_except (write_matches rows) is_exception
            (fun e => print (ErrorLine "Error syncing matches" e))).
Proof.
  destruct (is_empty rows).
  - apply preserves_print; auto. apply R_emit_quiet.
  - apply preserves_try_except; auto.
    + apply preserves_write_matches.
    + intros e. apply preserves_print; auto. apply R_emit_quiet.
Qed.

Lemma preserves_sync_standings self :
  preserves R (sync_standings_to_supabase self).
Proof.
  unfold sync_standings_to_supabase. apply preserves_bind; auto.
  - apply preserves_get_premier_league_standings; auto. apply R_emit_quiet.
  - intros rows. apply preserves_after_standings_fetch.
Qed.

Lemma preserves_sync_matches self :
  preserves R (sync_matches_to_supabase self).
Proof.
  unfold sync_matches_to_supabase. apply preserves_bind; auto.
  - apply preserves_get_recent_matches; auto. apply R_emit_quiet.
  - intros rows. apply preserves_after_matches_fetch.
Qed.

Lemma preserves_epilogue : preserves R epilogue.
Proof.
  unfold epilogue.
  apply preserves_bind; auto. { apply preserves_print; auto. apply R_emit_quiet. }
  intros _. apply preserves_bind; auto. { apply preserves_datetime_now; auto. }
  intros t. apply preserves_bind; auto. { apply preserves_print; auto. apply R_emit_quiet. }
  intros _. apply preserves_print; auto. apply R_emit_quiet.
Qed.


End SyncPreservation.

(** ** With well-shaped answers nothing is raised *)

Lemma advances_refl w : advances w w.
Proof. split; [apply trace_extends_refl | exists []; reflexivity]. Qed.

Lemma advances_trans w1 w2 w3 : advances w1 w2 -> advances w2 w3 -> advances w1 w3.
Proof.
  intros [T1 (u1 & H1)] [T2 (u2 & H2)]. split.
  - eapply trace_extends_trans; eassumption.
  - exists (u1 ++ u2). rewrite H1, H2, app_assoc. reflexivity.
Qed.

Lemma advances_emit ev w : advances w (emit ev w).
Proof. split; [eexists; reflexivity | exists []; reflexivity]. Qed.

Lemma advances_set_http w o rest :
  http_in w = o :: rest -> advances w (set_http rest w).
Proof.
  intros H. split.
  - exists []. simpl. now rewrite app_nil_r.
  - exists [o]. simpl. exact H.
Qed.

Lemma advances_same w w' :
  trace w' = trace w -> http_in w' = http_in w -> advances w w'.
Proof.
  intros T H. split.
  - exists []. rewrite T. now rewrite app_nil_r.
  - exists []. rewrite H. reflexivity.
Qed.


Lemma advances_sync_standings self :
  preserves advances (sync_standings_to_supabase self).
Proof.
  apply preserves_sync_standings;
    first [ exact advances_refl | exact advances_trans | exact advances_emit
          | exact advances_set_http
          | intros; apply advances_same; reflexivity ].
Qed.

Lemma advances_sync_matches self :
  preserves advances (sync_matches_to_supabase self).
Proof.
  apply preserves_sync_matches;
    first [ exact advances_refl | exact advances_trans | exact advances_emit
          | exact advances_set_http
          | intros; apply advances_same; reflexivity ].
Qed.

Lemma advances_epilogue : preserves advances epilogue.
Proof.
  apply preserves_epilogue;
    first [ exact advances_refl | exact advances_trans | exact advances_emit
          | intros; apply advances_same; reflexivity ].
Qed.



Section Totality.

Variable I : World -> Prop.



End Totality.















(** ** Both operations run *)















(** ** The trigger *)










(** * Further properties of the program *)

(** ** Composition from the parts

    A relation kept by the fetches, the writes and the small effects is kept
    by the syncs, the daily sync, the loop and the program. *)

Section SyncsFrom.

Variable R : World -> World -> Prop.
Hypothesis R_refl : forall w, R w w.
Hypothesis R_trans : forall w1 w2 w3, R w1 w2 -> R w2 w3 -> R w1 w3.
Variable self : FootballDataPipeline.
Hypothesis H_print : forall l, preserves R (print l).
Hypothesis H_now : preserves R datetime_now.
Hypothesis H_sleep : preserves R (time_sleep 60).
Hypothesis H_fetch_standings : preserves R (get_premier_league_standings self).
Hypothesis H_fetch_matches : preserves R (get_recent_matches self 7).
Hypothesis H_write_standings : forall rows, preserves R (write_standings rows).
Hypothesis H_write_matches : forall rows, preserves R (write_matches rows).

Lemma sync_standings_from_parts : preserves R (sync_standings_to_supabase self).
Proof.
  unfold sync_standings_to_supabase.
  apply preserves_bind; auto. intros rows. destruct (is_empty rows); auto.
  apply preserves_try_except; auto.
Qed.

Lemma sync_matches_from_parts : preserves R (sync_matches_to_supabase self).
Proof.
  unfold sync_matches_to_supabase.
  apply preserves_bind; auto. intros rows. destruct (is_empty rows); auto.
  apply preserves_try_except; auto.
Qed.

Lemma prologue_from_parts : preserves R prologue.
Proof.
  unfold prologue. repeat (apply preserves_bind; auto; intros ?).
Qed.

Lemma epilogue_from_parts : preserves R epilogue.
Proof.
  unfold epilogue. repeat (apply preserves_bind; auto; intros ?).
Qed.

Lemma run_daily_sync_from_parts : preserves R (run_daily_sync self).
Proof.
  unfold run_daily_sync.
  apply preserves_bind; auto. intros _.
  apply preserves_bind; auto. intros t0.
  apply preserves_bind; auto. intros _.
  apply preserves_bind; auto. intros _.
  apply preserves_bind; auto using sync_standings_from_parts. intros _.
  apply preserves_bind; auto using sync_matches_from_parts. intros _.
  apply epilogue_from_parts.
Qed.

Lemma scheduler_loop_from_parts polls : preserves R (scheduler_loop self polls).
Proof.
  induction polls as [| pending rest IH]; simpl.
  - apply preserves_ret; auto.
  - apply preserves_bind; auto.
    + destruct pending; [apply run_daily_sync_from_parts | apply preserves_ret; auto].
    + intros _. apply preserves_bind; auto.
Qed.

Lemma main_from_parts api_key polls :
  self = init api_key -> preserves R (main api_key polls).
Proof.
  intros Hself. unfold main. rewrite <- Hself.
  apply preserves_bind; auto using run_daily_sync_from_parts. intros _.
  apply preserves_bind; auto. intros _.
  apply preserves_bind; auto. intros _.
  apply scheduler_loop_from_parts.
Qed.

End SyncsFrom.

Section FetchesFrom.

Variable R : World -> World -> Prop.
Hypothesis R_refl : forall w, R w w.
Hypothesis R_trans : forall w1 w2 w3, R w1 w2 -> R w2 w3 -> R w1 w3.
Variable self : FootballDataPipeline.
Hypothesis H_print : forall l, preserves R (print l).
Hypothesis H_now : preserves R datetime_now.
Hypothesis H_get_standings :
  preserves R (requests_get (standings_url self) (headers self) []).
Hypothesis H_get_matches : forall a b,
  preserves R (requests_get (matches_url self) (headers self)
                 [("dateFrom", a); ("dateTo", b)]).

Lemma stamped_from_parts {B : Type} (fields : result (Z -> B)) :
  preserves R (stamped fields).
Proof.
  unfold stamped. apply preserves_bind; auto using preserves_lift. intros mk.
  apply preserves_bind; auto. intros t. apply preserves_ret; auto.
Qed.

Lemma fetch_block_from_parts {A : Type} url hs ps (k : json -> M (list A)) prefix :
  preserves R (requests_get url hs ps) ->
  (forall data, preserves R (k data)) ->
  preserves R
    (try_except
       (response <- requests_get url hs ps ;;
        raise_for_status response ;;
        data <- response_json response ;;
        k data)
       is_request_exception
       (fun e => print (ErrorLine prefix e) ;; ret [])).
Proof.
  intros Hget Hk. apply preserves_try_except; auto.
  - apply preserves_bind; auto. intros r.
    apply preserves_bind; auto using preserves_raise_for_status. intros _.
    apply preserves_bind; auto using preserves_response_json.
  - intros e. apply preserves_bind; auto. intros _. apply preserves_ret; auto.
Qed.

Lemma fetch_standings_from_parts :
  preserves R (get_premier_league_standings self).
Proof.
  apply fetch_block_from_parts; [exact H_get_standings |].
  intros data. unfold standings_of_data.
  apply preserves_bind; auto using preserves_lift. intros teams.
  apply preserves_for_each; auto. intros team. apply stamped_from_parts.
Qed.

Lemma fetch_matches_from_parts days_back :
  preserves R (get_recent_matches self days_back).
Proof.
  unfold get_recent_matches.
  apply preserves_bind; auto. intros t1.
  apply preserves_bind; auto. intros t2.
  apply fetch_block_from_parts; [apply H_get_matches |].
  intros data. unfold matches_of_data.
  apply preserves_bind; auto using preserves_lift. intros ms.
  apply preserves_for_each; auto. intros m. apply stamped_from_parts.
Qed.

End FetchesFrom.

Section WritesFrom.

Variable R : World -> World -> Prop.
Hypothesis R_refl : forall w, R w w.
Hypothesis R_trans : forall w1 w2 w3, R w1 w2 -> R w2 w3 -> R w1 w3.
Hypothesis H_print : forall l, preserves R (print l).
Hypothesis H_now : preserves R datetime_now.
Hypothesis H_delete : forall bound, preserves R (standings_delete_gte bound).
Hypothesis H_insert : forall rows, preserves R (standings_insert rows).
Hypothesis H_upsert : forall r, preserves R (matches_upsert r).

Lemma write_standings_from_parts rows : preserves R (write_standings rows).
Proof.
  unfold write_standings.
  apply preserves_bind; auto. intros today.
  apply preserves_bind; auto. intros _.
  apply preserves_bind; auto.
Qed.

Lemma write_matches_from_parts rows : preserves R (write_matches rows).
Proof.
  unfold write_matches. apply preserves_bind; auto.
  apply preserves_for_each_; auto.
Qed.

End WritesFrom.

(** What a statement can do: be rejected, or be applied. *)
Lemma execute_cases ev apply w r w' :
  execute ev apply w = (r, w') ->
  (exists d rest,
      db_in w = Some d :: rest
      /\ r = Raise (DbError d) /\ w' = set_db_in rest (emit ev w))
  \/ (r = Ok tt
      /\ w' = apply (set_db_in (tl (db_in w)) (emit ev w))
      /\ (db_in w = [] \/ exists rest, db_in w = None :: rest)).
Proof.
  unfold execute. destruct w as [h d c n s m tr]. simpl.
  destruct d as [| [x |] rest]; intros H; inversion H; subst.
  - right. split; [reflexivity | split; [reflexivity | left; reflexivity]].
  - left. exists x, rest. repeat split.
  - right. split; [reflexivity | split; [reflexivity | right; eexists; reflexivity]].
Qed.

(** ** The effects of the program *)

Section ExtendsWith.

Variable P : event -> Prop.

Lemma extends_with_refl w : extends_with P w w.
Proof. exists []. split; [now rewrite app_nil_r | constructor]. Qed.

Lemma extends_with_trans w1 w2 w3 :
  extends_with P w1 w2 -> extends_with P w2 w3 -> extends_with P w1 w3.
Proof.
  intros (e1 & T1 & F1) (e2 & T2 & F2). exists (e1 ++ e2). split.
  - rewrite T2, T1, app_assoc. reflexivity.
  - apply Forall_app. split; assumption.
Qed.

Lemma extends_with_emit ev w : P ev -> extends_with P w (emit ev w).
Proof. intros H. exists [ev]. split; [reflexivity | repeat constructor; exact H]. Qed.

Lemma extends_with_same w w' : trace w' = trace w -> extends_with P w w'.
Proof.
  intros H. exists []. split; [rewrite H; now rewrite app_nil_r | constructor].
Qed.

Lemma extends_with_print l : P (Print l) -> preserves (extends_with P) (print l).
Proof. intros H w r w' E. inversion E; subst. apply extends_with_emit. exact H. Qed.

Lemma extends_with_time_sleep n :
  P (Sleep n) -> preserves (extends_with P) (time_sleep n).
Proof. intros H w r w' E. inversion E; subst. apply extends_with_emit. exact H. Qed.

Lemma extends_with_datetime_now : preserves (extends_with P) datetime_now.
Proof.
  intros w r w' E. destruct (datetime_now_total w) as (t & c & n & E').
  rewrite E' in E. inversion E; subst. apply extends_with_same. reflexivity.
Qed.

Lemma extends_with_requests_get url hs ps :
  P (HttpGet url hs ps) -> preserves (extends_with P) (requests_get url hs ps).
Proof.
  intros H w r w' E. exists [HttpGet url hs ps]. split.
  - eapply requests_get_trace. exact E.
  - repeat constructor. exact H.
Qed.

Lemma extends_with_execute ev apply :
  P ev -> (forall w, trace (apply w) = trace w) ->
  preserves (extends_with P) (execute ev apply).
Proof.
  intros H Happly w r w' E. exists [ev]. split; [| repeat constructor; exact H].
  destruct (execute_cases _ _ _ _ _ E) as [(d & rest & _ & _ & ->) | (_ & -> & _)].
  - reflexivity.
  - rewrite Happly. reflexivity.
Qed.

End ExtendsWith.

Section AllowedEffects.

Variable P : event -> Prop.
Variable self : FootballDataPipeline.
Hypothesis HP : forall ev, allowed self ev -> P ev.

Lemma print_is_allowed l : preserves (extends_with P) (print l).
Proof. apply extends_with_print. apply HP. exact I. Qed.

Lemma fetch_standings_effects :
  preserves (extends_with P) (get_premier_league_standings self).
Proof.
  apply fetch_standings_from_parts;
    first [ exact (extends_with_refl P) | exact (extends_with_trans P)
          | exact print_is_allowed | exact (extends_with_datetime_now P) | idtac ].
  apply extends_with_requests_get. apply HP. simpl.
  split; [reflexivity | left; split; reflexivity].
Qed.

Lemma fetch_matches_effects days_back :
  preserves (extends_with P) (get_recent_matches self days_back).
Proof.
  apply fetch_matches_from_parts;
    first [ exact (extends_with_refl P) | exact (extends_with_trans P)
          | exact print_is_allowed | exact (extends_with_datetime_now P) | idtac ].
  intros a b. apply extends_with_requests_get. apply HP. simpl.
  split; [reflexivity | right; split; [reflexivity | exists a, b; reflexivity]].
Qed.

Lemma write_standings_effects rows :
  preserves (extends_with P) (write_standings rows).
Proof.
  apply write_standings_from_parts;
    first [ exact (extends_with_refl P) | exact (extends_with_trans P)
          | exact print_is_allowed | exact (extends_with_datetime_now P) | idtac ].
  - intros bound. apply extends_with_execute; [| reflexivity].
    apply HP. simpl. split; reflexivity.
  - intros rs. apply extends_with_execute; [| reflexivity].
    apply HP. reflexivity.
Qed.

Lemma write_matches_effects rows :
  preserves (extends_with P) (write_matches rows).
Proof.
  apply write_matches_from_parts;
    first [ exact (extends_with_refl P) | exact (extends_with_trans P)
          | exact print_is_allowed | idtac ].
  intros r. apply extends_with_execute; [| reflexivity].
  apply HP. simpl. split; reflexivity.
Qed.

Lemma sync_standings_effects :
  preserves (extends_with P) (sync_standings_to_supabase self).
Proof.
  apply sync_standings_from_parts;
    first [ exact (extends_with_refl P) | exact (extends_with_trans P)
          | exact print_is_allowed | exact fetch_standings_effects
          | exact write_standings_effects ].
Qed.

Lemma sync_matches_effects :
  preserves (extends_with P) (sync_matches_to_supabase self).
Proof.
  apply sync_matches_from_parts;
    first [ exact (extends_with_refl P) | exact (extends_with_trans P)
          | exact print_is_allowed | exact (fetch_matches_effects 7)
          | exact write_matches_effects ].
Qed.

Lemma main_effects api_key polls :
  self = init api_key -> preserves (extends_with P) (main api_key polls).
Proof.
  apply main_from_parts;
    first [ exact (extends_with_refl P) | exact (extends_with_trans P)
          | exact print_is_allowed | exact (extends_with_datetime_now P)
          | exact fetch_standings_effects | exact (fetch_matches_effects 7)
          | exact write_standings_effects | exact write_matches_effects
          | idtac ].
  apply extends_with_time_sleep. apply HP. reflexivity.
Qed.

End AllowedEffects.

(** X1: whatever the answers, the failures and the number of polls, the
    program does nothing but this: requests to its two endpoints, always
    with the headers [__init__] set (the token exactly when the key is a
    non-empty string); deletes on the standings by [updated_at]; inserts
    into the standings; upserts into the matches on [match_id]; output; and
    sleeps of 60 seconds. *)
Theorem program_effects_are_allowed api_key polls w r w' :
  main api_key polls w = (r, w') ->
  extends_with (allowed (init api_key)) w w'
  /\ headers (init api_key)
     = match api_key with
       | Some (String c rest) => [("X-Auth-Token", String c rest)]
       | _ => []
       end.
Proof.
  intros H. split; [| reflexivity].
  refine (main_effects (allowed (init api_key)) (init api_key) _ api_key polls
            eq_refl w r w' H).
  intros ev Hev. exact Hev.
Qed.

Lemma program_effects_are_allowed_witness :
  extends_with (allowed (init (Some "token"))) stormy_days
    (snd (main (Some "token") [true; false; true] stormy_days))
  /\ headers (init (Some "token")) = [("X-Auth-Token", "token")].
Proof.
  apply (program_effects_are_allowed (Some "token") [true; false; true] stormy_days
           (fst (main (Some "token") [true; false; true] stormy_days))).
  vm_compute. reflexivity.
Defined.

(** ** One request per fetch *)

Lemma try_except_bind_ok {A B : Type} (m : M A) (k : A -> M B) c h w a w0 :
  m w = (Ok a, w0) ->
  try_except (bind m k) c h w = try_except (k a) c h w0.
Proof. intros H. unfold try_except, bind. rewrite H. reflexivity. Qed.

Lemma try_except_bind_raise {A B : Type} (m : M A) (k : A -> M B) c h w e w0 :
  m w = (Raise e, w0) ->
  try_except (bind m k) c h w = if c e then h e w0 else (Raise e, w0).
Proof. intros H. unfold try_except, bind. rewrite H. reflexivity. Qed.

Lemma extends_with_set_clock P w t rest :
  clock_in w = t :: rest -> extends_with P w (set_clock rest t w).
Proof. intros _. apply extends_with_same. reflexivity. Qed.

(** Side conditions on [extends_with]. *)
Ltac extends_with_side P :=
  first [ exact (extends_with_refl P) | exact (extends_with_trans P)
        | exact (extends_with_set_clock P) ].

(** The [try] block of a fetch sends its request first; what follows
    satisfies whatever the mapper's effects and the error line satisfy. *)
Lemma fetch_block_get_then {A : Type} (P : event -> Prop) url hs ps
    (k : json -> M (list A)) prefix w r w1 :
  (forall l, P (Print l)) ->
  (forall data, preserves (extends_with P) (k data)) ->
  try_except
    (response <- requests_get url hs ps ;;
     raise_for_status response ;;
     data <- response_json response ;;
     k data)
    is_request_exception
    (fun e => print (ErrorLine prefix e) ;; ret []) w = (r, w1) ->
  exists evs, trace w1 = trace w ++ HttpGet url hs ps :: evs /\ Forall P evs.
Proof.
  intros HP Hk.
  assert (Hh : forall e, preserves (extends_with P)
                           (print (ErrorLine prefix e) ;; @ret (list A) [])).
  { intros e. apply preserves_bind; try extends_with_side P.
    - apply extends_with_print. apply HP.
    - intros _. apply preserves_ret. extends_with_side P. }
  destruct (requests_get url hs ps w) as [[resp | e0] w0] eqn:Eg;
    pose proof (requests_get_trace _ _ _ _ _ _ Eg) as T0.
  - rewrite (try_except_bind_ok _ _ _ _ _ _ _ Eg). intros E.
    assert (Hrest : extends_with P w0 w1).
    { eapply (preserves_try_except (extends_with P)); [.. | exact E];
        try extends_with_side P; [| exact Hh].
      apply preserves_bind; try extends_with_side P.
      - apply preserves_raise_for_status. extends_with_side P.
      - intros _. apply preserves_bind; try extends_with_side P; [| exact Hk].
        apply preserves_response_json. extends_with_side P. }
    destruct Hrest as (evs & T & F). exists evs. split; [| exact F].
    rewrite T, T0, <- app_assoc. reflexivity.
  - rewrite (try_except_bind_raise _ _ _ _ _ _ _ Eg).
    destruct (is_request_exception e0); intros E.
    + destruct (Hh e0 w0 r w1 E) as (evs & T & F). exists evs. split; [| exact F].
      rewrite T, T0, <- app_assoc. reflexivity.
    + inversion E; subst. exists []. split; [exact T0 | constructor].
Qed.

Lemma matches_of_data_extends_with P data :
  preserves (extends_with P) (matches_of_data data).
Proof. apply preserves_matches_of_data; extends_with_side P. Qed.

Lemma standings_of_data_extends_with P data :
  preserves (extends_with P) (standings_of_data data).
Proof. apply preserves_standings_of_data; extends_with_side P. Qed.

Lemma date_of_shift t d : date_of (t - d * day_us) = date_of t - d.
Proof.
  unfold date_of.
  replace (t - d * day_us) with (t + (- d) * day_us) by ring.
  rewrite Z.div_add by (unfold day_us; lia). ring.
Qed.

Lemma date_of_monotone t1 t2 : t1 <= t2 -> date_of t1 <= date_of t2.
Proof. intros H. unfold date_of. apply Z.div_le_mono; [unfold day_us; lia | exact H]. Qed.

(** What a reading of the clock is and leaves. *)
Lemma datetime_now_reading w :
  exists t w1,
    datetime_now w = (Ok t, w1)
    /\ In t (readings w)
    /\ now w1 = t
    /\ (forall x, In x (readings w1) -> In x (readings w))
    /\ http_in w1 = http_in w /\ db_in w1 = db_in w
    /\ standings w1 = standings w /\ matches w1 = matches w
    /\ trace w1 = trace w.
Proof.
  unfold datetime_now, readings. destruct w as [h d c n s m tr]. simpl.
  destruct c as [| t rest].
  - exists n. eexists. split; [reflexivity |]. simpl.
    repeat split; auto.
  - exists t. eexists. split; [reflexivity |]. simpl.
    repeat split; auto.
    destruct rest; simpl; intros x Hx; [| right; exact Hx].
    destruct Hx as [<- | []]. left. reflexivity.
Qed.

(** X2: within the range of [datetime], the matches fetch reads the clock
    twice and then sends exactly one request.  Its window starts [days_back]
    days before the date of the first reading and ends on the date of the
    second; with a clock that does not run backwards it spans at least
    [days_back] days, and more when midnight falls between the two
    readings. *)
Theorem matches_request_window self days_back w t1 w1 r w' :
  datetime_now w = (Ok t1, w1) ->
  datetime_range days_back t1 ->
  get_recent_matches self days_back w = (r, w') ->
  exists t2 w2 evs,
    datetime_now w1 = (Ok t2, w2)
    /\ trace w'
       = trace w
         ++ HttpGet (matches_url self) (headers self)
              [("dateFrom", date_of t1 - days_back); ("dateTo", date_of t2)]
            :: evs
    /\ Forall (fun ev => is_http ev = false) evs
    /\ (t1 <= t2 -> days_back <= date_of t2 - (date_of t1 - days_back)).
Proof.
  unfold get_recent_matches. intros E1 _ H.
  destruct (datetime_now_reading w) as (t & v & E & _ & _ & _ & _ & _ & _ & _ & T1).
  rewrite E1 in E. inversion E; subst t v. clear E.
  destruct (datetime_now_reading w1) as (t2 & w2 & E2 & _ & _ & _ & _ & _ & _ & _ & T2).
  rewrite (bind_ok _ _ _ _ _ E1), (bind_ok _ _ _ _ _ E2) in H.
  destruct (fetch_block_get_then (fun ev => is_http ev = false) _ _ _ _ _ _ _ _
              (fun _ => eq_refl) (matches_of_data_extends_with _) H)
    as (evs & T & F).
  exists t2, w2, evs.
  split; [exact E2 | split; [| split; [exact F |]]].
  - rewrite T, T2, T1, date_of_shift. reflexivity.
  - intros Hle. pose proof (date_of_monotone t1 t2 Hle). lia.
Qed.

Lemma matches_request_window_witness :
  exists t2 w2 evs,
    datetime_now (snd (datetime_now two_runs)) = (Ok t2, w2)
    /\ trace (snd (get_recent_matches (init None) 7 two_runs))
       = trace two_runs
         ++ HttpGet (matches_url (init None)) (headers (init None))
              [("dateFrom", date_of 100 - 7); ("dateTo", date_of t2)]
            :: evs
    /\ Forall (fun ev => is_http ev = false) evs
    /\ (100 <= t2 -> 7 <= date_of t2 - (date_of 100 - 7)).
Proof.
  apply (matches_request_window (init None) 7 two_runs 100
           (snd (datetime_now two_runs))
           (fst (get_recent_matches (init None) 7 two_runs))).
  - vm_compute. reflexivity.
  - unfold datetime_range. vm_compute. split; [discriminate | split; discriminate].
  - vm_compute. reflexivity.
Defined.

(** ** Requests per daily sync *)

Lemma count_http_app evs1 evs2 :
  count_http (evs1 ++ evs2) = (count_http evs1 + count_http evs2)%nat.
Proof. unfold count_http. rewrite filter_app, length_app. reflexivity. Qed.

Lemma count_http_none evs :
  Forall (fun ev => is_http ev = false) evs -> count_http evs = 0%nat.
Proof.
  unfold count_http. induction 1 as [| ev evs Hev _ IH]; simpl; [reflexivity |].
  rewrite Hev. exact IH.
Qed.

Lemma write_standings_no_http rows :
  preserves (extends_with (fun ev => is_http ev = false)) (write_standings rows).
Proof.
  apply write_standings_from_parts;
    try extends_with_side (fun ev => is_http ev = false).
  - intros l. apply extends_with_print. reflexivity.
  - apply extends_with_datetime_now.
  - intros bound. apply extends_with_execute; reflexivity.
  - intros rs. apply extends_with_execute; reflexivity.
Qed.

Lemma write_matches_no_http rows :
  preserves (extends_with (fun ev => is_http ev = false)) (write_matches rows).
Proof.
  apply write_matches_from_parts;
    try extends_with_side (fun ev => is_http ev = false).
  - intros l. apply extends_with_print. reflexivity.
  - intros r. apply extends_with_execute; reflexivity.
Qed.

(** A sync sends its one request first. *)
Lemma sync_standings_one_request self w r w' :
  sync_standings_to_supabase self w = (r, w') ->
  exists evs,
    trace w' = trace w ++ HttpGet (standings_url self) (headers self) [] :: evs
    /\ Forall (fun ev => is_http ev = false) evs.
Proof.
  unfold sync_standings_to_supabase. intros H.
  destruct (bind_inv _ _ _ _ _ H) as [(rows & w1 & E1 & E2) | (e & E1 & _)].
  - destruct (fetch_block_get_then (fun ev => is_http ev = false) _ _ _ _ _ _ _ _
                (fun _ => eq_refl) (standings_of_data_extends_with _) E1)
      as (evs1 & T1 & F1).
    assert (H2 : extends_with (fun ev => is_http ev = false) w1 w').
    { destruct (is_empty rows).
      - eapply extends_with_print; [| exact E2]. reflexivity.
      - eapply (preserves_try_except (extends_with (fun ev => is_http ev = false)));
          [.. | exact E2];
          try extends_with_side (fun ev => is_http ev = false).
        + apply write_standings_no_http.
        + intros e. apply extends_with_print. reflexivity. }
    destruct H2 as (evs2 & T2 & F2). exists (evs1 ++ evs2). split.
    + rewrite T2, T1, <- app_assoc. reflexivity.
    + apply Forall_app. split; assumption.
  - apply (fetch_block_get_then (fun ev => is_http ev = false) _ _ _ _ _ _ _ _
             (fun _ => eq_refl) (standings_of_data_extends_with _) E1).
Qed.

Lemma sync_matches_one_request self w r w' :
  sync_matches_to_supabase self w = (r, w') ->
  exists params evs,
    trace w' = trace w ++ HttpGet (matches_url self) (headers self) params :: evs
    /\ Forall (fun ev => is_http ev = false) evs.
Proof.
  unfold sync_matches_to_supabase. intros H.
  assert (Hfetch : forall r1 w1, get_recent_matches self 7 w = (r1, w1) ->
             exists params evs,
               trace w1 = trace w ++ HttpGet (matches_url self) (headers self) params :: evs
               /\ Forall (fun ev => is_http ev = false) evs).
  { intros r1 w1 E. revert E. unfold get_recent_matches.
    destruct (datetime_now_reading w) as (t1 & v1 & E1 & _ & _ & _ & _ & _ & _ & _ & T1).
    destruct (datetime_now_reading v1) as (t2 & v2 & E2 & _ & _ & _ & _ & _ & _ & _ & T2).
    rewrite (bind_ok _ _ _ _ _ E1), (bind_ok _ _ _ _ _ E2). intros E.
    destruct (fetch_block_get_then (fun ev => is_http ev = false) _ _ _ _ _ _ _ _
                (fun _ => eq_refl) (matches_of_data_extends_with _) E)
      as (evs & T & F).
    eexists. exists evs. split; [| exact F]. rewrite T, T2, T1. reflexivity. }
  destruct (bind_inv _ _ _ _ _ H) as [(rows & w1 & E1 & E2) | (e & E1 & _)].
  - destruct (Hfetch _ _ E1) as (params & evs1 & T1 & F1).
    assert (H2 : extends_with (fun ev => is_http ev = false) w1 w').
    { destruct (is_empty rows).
      - eapply extends_with_print; [| exact E2]. reflexivity.
      - eapply (preserves_try_except (extends_with (fun ev => is_http ev = false)));
          [.. | exact E2];
          try extends_with_side (fun ev => is_http ev = false).
        + apply write_matches_no_http.
        + intros e. apply extends_with_print. reflexivity. }
    destruct H2 as (evs2 & T2 & F2). exists params, (evs1 ++ evs2). split.
    + rewrite T2, T1, <- app_assoc. reflexivity.
    + apply Forall_app. split; assumption.
  - apply (Hfetch _ _ E1).
Qed.

Lemma run_daily_sync_split self w :
  run_daily_sync self w
  = (prologue ;; sync_standings_to_supabase self ;;
     sync_matches_to_supabase self ;; epilogue) w.
Proof.
  unfold run_daily_sync, prologue, epilogue, bind, print.
  destruct (datetime_now _) as [[t | e] w1]; reflexivity.
Qed.

Lemma prologue_returns w :
  exists w0, prologue w = (Ok tt, w0)
             /\ extends_with (fun ev => is_http ev = false) w w0.
Proof.
  unfold prologue, bind, print.
  destruct (datetime_now_reading (emit (Print (Text (String.append newline rule))) w))
    as (t & w1 & E & _ & _ & _ & _ & _ & _ & _ & T).
  rewrite E. eexists. split; [reflexivity |].
  eexists. split; [simpl; rewrite T; simpl; rewrite <- !app_assoc; reflexivity |].
  repeat constructor.
Qed.

Lemma epilogue_returns w :
  exists w', epilogue w = (Ok tt, w')
             /\ extends_with (fun ev => is_http ev = false) w w'.
Proof.
  unfold epilogue, bind, print.
  destruct (datetime_now_reading (emit (Print (Text rule)) w))
    as (t & w1 & E & _ & _ & _ & _ & _ & _ & _ & T).
  rewrite E. eexists. split; [reflexivity |].
  eexists. split; [simpl; rewrite T; simpl; rewrite <- !app_assoc; reflexivity |].
  repeat constructor.
Qed.

Lemma count_http_get url hs ps evs :
  count_http (HttpGet url hs ps :: evs) = S (count_http evs).
Proof. reflexivity. Qed.

(** The requests of one daily sync, counted. *)
Lemma run_daily_sync_requests self w r w' :
  run_daily_sync self w = (r, w') ->
  exists evs,
    trace w' = trace w ++ evs
    /\ (1 <= count_http evs <= 2)%nat
    /\ (r = Ok tt -> count_http evs = 2%nat).
Proof.
  rewrite run_daily_sync_split. intros H.
  destruct (prologue_returns w) as (w0 & E0 & (p0 & T0 & F0)).
  rewrite (bind_ok _ _ _ _ _ E0) in H.
  destruct (bind_inv _ _ _ _ _ H) as [([] & w1 & E1 & H1) | (e & E1 & ->)].
  - destruct (sync_standings_one_request _ _ _ _ E1) as (p1 & T1 & F1).
    destruct (bind_inv _ _ _ _ _ H1) as [([] & w2 & E2 & H2) | (e & E2 & ->)].
    + destruct (sync_matches_one_request _ _ _ _ E2) as (ps & p2 & T2 & F2).
      destruct (epilogue_returns w2) as (w3 & E3 & (p3 & T3 & F3)).
      rewrite E3 in H2. inversion H2; subst.
      exists (p0 ++ (HttpGet (standings_url self) (headers self) [] :: p1)
                 ++ (HttpGet (matches_url self) (headers self) ps :: p2) ++ p3).
      split.
      * rewrite T3, T2, T1, T0. rewrite <- !app_assoc. reflexivity.
      * rewrite !count_http_app, !count_http_get.
        rewrite (count_http_none _ F0), (count_http_none _ F1),
          (count_http_none _ F2), (count_http_none _ F3).
        split; [lia | intros _; lia].
    + destruct (sync_matches_one_request _ _ _ _ E2) as (ps & p2 & T2 & F2).
      exists (p0 ++ (HttpGet (standings_url self) (headers self) [] :: p1)
                 ++ (HttpGet (matches_url self) (headers self) ps :: p2)).
      split.
      * rewrite T2, T1, T0. rewrite <- !app_assoc. reflexivity.
      * rewrite !count_http_app, !count_http_get.
        rewrite (count_http_none _ F0), (count_http_none _ F1),
          (count_http_none _ F2).
        split; [lia | discriminate].
  - destruct (sync_standings_one_request _ _ _ _ E1) as (p1 & T1 & F1).
    exists (p0 ++ (HttpGet (standings_url self) (headers self) [] :: p1)).
    split.
    + rewrite T1, T0. rewrite <- !app_assoc. reflexivity.
    + rewrite !count_http_app, !count_http_get.
      rewrite (count_http_none _ F0), (count_http_none _ F1).
      split; [lia | discriminate].
Qed.

(** X3: a daily sync sends at least one request and at most two, the
    standings request and then the matches request; it sends both whenever
    it returns. *)
Theorem daily_sync_sends_two_requests self w r w' :
  run_daily_sync self w = (r, w') ->
  exists evs,
    trace w' = trace w ++ evs
    /\ (1 <= count_http evs <= 2)%nat
    /\ (r = Ok tt -> count_http evs = 2%nat).
Proof. apply run_daily_sync_requests. Qed.

Lemma daily_sync_sends_two_requests_witness :
  exists evs,
    trace (snd (run_daily_sync (init None) stormy_days))
    = trace stormy_days ++ evs
    /\ (1 <= count_http evs <= 2)%nat
    /\ (fst (run_daily_sync (init None) stormy_days) = Ok tt ->
        count_http evs = 2%nat).
Proof.
  apply (daily_sync_sends_two_requests (init None) stormy_days).
  vm_compute. reflexivity.
Defined.

(** ** The two tables *)

Lemma same_matches_sync_standings self :
  preserves same_matches (sync_standings_to_supabase self).
Proof.
  apply preserves_sync_standings; unfold same_matches;
    first [ reflexivity | intros; reflexivity | intros; congruence ].
Qed.

Lemma same_standings_sync_matches self :
  preserves same_standings (sync_matches_to_supabase self).
Proof.
  apply preserves_sync_matches; unfold same_standings;
    first [ reflexivity | intros; reflexivity | intros; congruence ].
Qed.

(** X4: the two syncs keep to their own table.  Whatever happens in it, the
    standings sync leaves the matches table as it was, and the matches sync
    leaves the standings table as it was. *)
Theorem each_sync_keeps_to_its_table self w r w' :
  (sync_standings_to_supabase self w = (r, w') -> matches w' = matches w)
  /\ (sync_matches_to_supabase self w = (r, w') -> standings w' = standings w).
Proof.
  split; intros H.
  - exact (same_matches_sync_standings self w r w' H).
  - exact (same_standings_sync_matches self w r w' H).
Qed.

Lemma each_sync_keeps_to_its_table_witness :
  matches (snd (sync_standings_to_supabase (init None) three_days))
  = matches three_days
  /\ standings (snd (sync_matches_to_supabase (init None) two_runs))
     = standings two_runs.
Proof.
  split.
  - apply (each_sync_keeps_to_its_table (init None) three_days
             (fst (sync_standings_to_supabase (init None) three_days))).
    vm_compute. reflexivity.
  - apply (each_sync_keeps_to_its_table (init None) two_runs
             (fst (sync_matches_to_supabase (init None) two_runs))).
    vm_compute. reflexivity.
Defined.

Lemma has_id_no_int_key r z : int_key r = false -> has_id z r = false.
Proof.
  unfold int_key, has_id, same_key. destruct (Match.match_id r); try reflexivity.
  discriminate.
Qed.

Lemma upsert_row_no_int_key r tbl :
  int_key r = false -> upsert_row r tbl = tbl ++ [r].
Proof.
  intros Hr. induction tbl as [| x rest IH]; simpl; [reflexivity |].
  replace (same_key (Match.match_id x) (Match.match_id r)) with false.
  - rewrite IH. reflexivity.
  - unfold int_key in Hr. unfold same_key.
    destruct (Match.match_id x), (Match.match_id r); try reflexivity; discriminate.
Qed.

Lemma count_id_upsert_any r tbl z :
  (count_id z tbl <= count_id z (upsert_row r tbl) <= Nat.max 1 (count_id z tbl))%nat.
Proof.
  destruct (int_key r) eqn:Hr.
  - destruct (int_key_inv r Hr) as (zr & Ez).
    rewrite (count_id_upsert r zr tbl z Ez).
    destruct (Z.eqb_spec z zr) as [-> | Hne];
      destruct (count_id _ tbl); simpl; lia.
  - rewrite (upsert_row_no_int_key r tbl Hr). unfold count_id.
    rewrite filter_app, length_app. simpl.
    rewrite (has_id_no_int_key r z Hr). simpl.
    destruct (Datatypes.length (filter (has_id z) tbl)); simpl; lia.
Qed.

Lemma length_upsert_any r tbl :
  (List.length tbl <= List.length (upsert_row r tbl))%nat.
Proof.
  destruct (int_key r) eqn:Hr.
  - destruct (int_key_inv r Hr) as (zr & Ez).
    rewrite (length_upsert r zr tbl Ez).
    destruct (count_id zr tbl =? 0)%nat; lia.
  - rewrite (upsert_row_no_int_key r tbl Hr), length_app. simpl. lia.
Qed.

Lemma table_grows_upsert r tbl : table_grows tbl (upsert_row r tbl).
Proof.
  split; [apply length_upsert_any | intros z; apply count_id_upsert_any].
Qed.

Lemma keeps_unique_upsert r tbl : keeps_unique tbl (upsert_row r tbl).
Proof.
  intros Hu z. pose proof (count_id_upsert_any r tbl z) as H. pose proof (Hu z) as H1.
  destruct (count_id z tbl) as [| [| n]]; simpl in H; lia.
Qed.

(** A relation on the matches table that every upsert respects holds
    between the table before the program and the table after it. *)
Section MatchesOnly.

Variable Q : list Match.row -> list Match.row -> Prop.
Hypothesis Q_refl : forall tbl, Q tbl tbl.
Hypothesis Q_trans : forall t1 t2 t3, Q t1 t2 -> Q t2 t3 -> Q t1 t3.
Hypothesis Q_upsert : forall r tbl, Q tbl (upsert_row r tbl).

Lemma on_matches_same w w' : matches w' = matches w -> on_matches Q w w'.
Proof. intros H. unfold on_matches. rewrite H. apply Q_refl. Qed.

Lemma on_matches_refl w : on_matches Q w w.
Proof. apply Q_refl. Qed.

Lemma on_matches_trans w1 w2 w3 :
  on_matches Q w1 w2 -> on_matches Q w2 w3 -> on_matches Q w1 w3.
Proof. unfold on_matches. apply Q_trans. Qed.

Lemma on_matches_upsert r : preserves (on_matches Q) (matches_upsert r).
Proof.
  intros w res w' E.
  destruct (execute_cases _ _ _ _ _ E) as [(d & rest & _ & _ & ->) | (_ & -> & _)].
  - apply on_matches_same. reflexivity.
  - unfold on_matches. simpl. apply Q_upsert.
Qed.

Lemma on_matches_main api_key polls :
  preserves (on_matches Q) (main api_key polls).
Proof.
  apply (main_from_parts (on_matches Q) on_matches_refl on_matches_trans
           (init api_key)); [| | | | | | | reflexivity].
  - intros l w r w' E. inversion E; subst. apply on_matches_same. reflexivity.
  - intros w r w' E. apply on_matches_same.
    destruct (datetime_now_reading w) as (t & w1 & E1 & _ & _ & _ & _ & _ & _ & Hm & _).
    rewrite E1 in E. inversion E; subst. exact Hm.
  - intros w r w' E. inversion E; subst. apply on_matches_same. reflexivity.
  - intros w r w' E. apply on_matches_same.
    apply (fetch_standings_db_untouched _ _ _ _ E).
  - intros w r w' E. apply on_matches_same.
    apply (fetch_matches_db_untouched _ _ _ _ _ E).
  - intros rows w r w' E. apply on_matches_same.
    refine (preserves_write_standings same_matches _ _ _ _ _ _ rows w r w' E);
      unfold same_matches;
      first [ reflexivity | intros; reflexivity | intros; congruence ].
  - intros rows.
    apply write_matches_from_parts;
      first [ exact on_matches_refl | exact on_matches_trans
            | exact on_matches_upsert | idtac ].
    intros l w r w' E. inversion E; subst. apply on_matches_same. reflexivity.
Qed.

End MatchesOnly.

Lemma table_grows_refl tbl : table_grows tbl tbl.
Proof. split; [lia | intros z; lia]. Qed.

Lemma table_grows_trans t1 t2 t3 :
  table_grows t1 t2 -> table_grows t2 t3 -> table_grows t1 t3.
Proof.
  intros [L1 C1] [L2 C2]. split; [lia | intros z].
  pose proof (C1 z). pose proof (C2 z). lia.
Qed.

(** X5: the program never removes a match.  Across the first sync and any
    number of polls, whatever fails, the matches table holds at least as many
    rows as before, and at least as many for every [match_id]: a match once
    stored stays stored. *)
Theorem matches_are_never_removed api_key polls w r w' :
  main api_key polls w = (r, w') ->
  (List.length (matches w) <= List.length (matches w'))%nat
  /\ forall z, (count_id z (matches w) <= count_id z (matches w'))%nat.
Proof.
  intros H.
  exact (on_matches_main table_grows table_grows_refl table_grows_trans
           table_grows_upsert api_key polls w r w' H).
Qed.

Lemma matches_are_never_removed_witness :
  (List.length (matches two_runs)
   <= List.length (matches (snd (main None [true] two_runs))))%nat
  /\ forall z, (count_id z (matches two_runs)
                <= count_id z (matches (snd (main None [true] two_runs))))%nat.
Proof.
  apply (matches_are_never_removed None [true] two_runs
           (fst (main None [true] two_runs))).
  vm_compute. reflexivity.
Defined.

(** ** From the syncs to the program *)

Section ProgramFromSyncs.

Variable R : World -> World -> Prop.
Hypothesis R_refl : forall w, R w w.
Hypothesis R_trans : forall w1 w2 w3, R w1 w2 -> R w2 w3 -> R w1 w3.
Variable self : FootballDataPipeline.
Hypothesis H_print : forall l, preserves R (print l).
Hypothesis H_now : preserves R datetime_now.
Hypothesis H_sleep : preserves R (time_sleep 60).
Hypothesis H_sync_standings : preserves R (sync_standings_to_supabase self).
Hypothesis H_sync_matches : preserves R (sync_matches_to_supabase self).

Lemma run_daily_sync_from_syncs : preserves R (run_daily_sync self).
Proof.
  unfold run_daily_sync.
  repeat (apply preserves_bind; auto; intros ?).
Qed.

Lemma scheduler_loop_from_syncs polls : preserves R (scheduler_loop self polls).
Proof.
  induction polls as [| pending rest IH]; simpl.
  - apply preserves_ret; auto.
  - apply preserves_bind; auto.
    + destruct pending; [apply run_daily_sync_from_syncs | apply preserves_ret; auto].
    + intros _. apply preserves_bind; auto.
Qed.

Lemma main_from_syncs api_key polls :
  self = init api_key -> preserves R (main api_key polls).
Proof.
  intros Hself. unfold main. rewrite <- Hself.
  apply preserves_bind; auto using run_daily_sync_from_syncs. intros _.
  apply preserves_bind; auto. intros _.
  apply preserves_bind; auto. intros _.
  apply scheduler_loop_from_syncs.
Qed.

End ProgramFromSyncs.

(** ** Keys the column stores as sent *)

Lemma requests_get_ok url hs ps w resp w1 :
  requests_get url hs ps w = (Ok resp, w1) ->
  exists rest,
    http_in w = Response (fst resp) (snd resp) :: rest
    /\ http_in w1 = rest
    /\ (forall k, reading k w1 = reading k w).
Proof.
  unfold requests_get. destruct w as [h d c n s m tr]. simpl.
  destruct h as [| [d0 | st body] rest]; intros H; inversion H; subst.
  exists rest. repeat split.
Qed.

Lemma plain_answers_suffix w w' :
  http_suffix w w' -> plain_answers w -> plain_answers w'.
Proof.
  unfold plain_answers. intros (used & Hu) H. rewrite Hu in H.
  apply Forall_app in H. apply H.
Qed.

(** The rows the matches fetch returns carry the ids of the answer. *)
Lemma fetch_matches_plain self days_back w rows w1 :
  plain_answers w ->
  get_recent_matches self days_back w = (Ok rows, w1) ->
  plain_keys rows = true.
Proof.
  intros Hp. unfold get_recent_matches.
  destruct (datetime_now_at w) as (wa & E1 & _ & Hh1 & _).
  rewrite (bind_ok _ _ _ _ _ E1).
  destruct (datetime_now_at wa) as (wb & E2 & _ & Hh2 & _).
  rewrite (bind_ok _ _ _ _ _ E2). intros H.
  destruct (try_except_inv _ _ _ _ _ _ H)
    as [(a & E & Ha) | [(e & w2 & _ & _ & Hh) | (e & _ & _ & Habs)]];
    [| | discriminate].
  - inversion Ha; subst a. clear Ha H.
    destruct (bind_inv _ _ _ _ _ E) as [(resp & w2 & G1 & H1) | (e & _ & Habs)];
      [| discriminate].
    destruct (requests_get_ok _ _ _ _ _ _ G1) as (rest & Hresp & _).
    destruct (bind_inv _ _ _ _ _ H1) as [(u & w3 & G2 & H2) | (e & _ & Habs)];
      [| discriminate].
    destruct (bind_inv _ _ _ _ _ H2) as [(data & w4 & G3 & H3) | (e & _ & Habs)];
      [| discriminate].
    assert (Hbody : snd resp = Some data).
    { unfold response_json in G3. destruct (snd resp); inversion G3; reflexivity. }
    unfold matches_of_data in H3.
    destruct (bind_inv _ _ _ _ _ H3) as [(ms & w5 & G4 & H4) | (e & _ & Habs)];
      [| discriminate].
    assert (Hms : matches_list data = Ok ms) by (inversion G4; reflexivity).
    destruct (for_each_stamped_at match_fields ms w5 rows w1 H4)
      as (Hlen & Hidx & _).
    assert (Hdata : plain_ids data = true).
    { unfold plain_answers in Hp. rewrite <- Hh1, <- Hh2, Hresp, Hbody in Hp.
      inversion Hp; assumption. }
    unfold plain_ids in Hdata. rewrite Hms in Hdata.
    unfold plain_keys. apply forallb_forall. intros r Hr.
    destruct (In_nth_error _ _ Hr) as (j & Hj).
    assert (Hjlen : (j < List.length ms)%nat).
    { rewrite <- Hlen. apply nth_error_Some. rewrite Hj. discriminate. }
    destruct (nth_error ms j) as [m |] eqn:Em; [| apply nth_error_None in Em; lia].
    destruct (Hidx j m Em) as (mk & Ef & Hr'). rewrite Hj in Hr'.
    inversion Hr'; subst r.
    destruct (match_fields_inv m mk Ef (reading j w5)) as (Hid & _).
    rewrite forallb_forall in Hdata.
    pose proof (Hdata m (nth_error_In _ _ Em)) as Hm. rewrite Hid in Hm. exact Hm.
  - unfold bind, print, ret in Hh. inversion Hh; subst. reflexivity.
Qed.

Lemma plain_keys_upsert r tbl :
  plain_key (Match.match_id r) = true ->
  plain_keys tbl = true ->
  plain_keys (upsert_row r tbl) = true.
Proof.
  unfold plain_keys. intros Hr. induction tbl as [| x rest IH]; simpl.
  - intros _. rewrite Hr. reflexivity.
  - intros H. apply andb_true_iff in H. destruct H as [Hx Hrest].
    destruct (same_key (Match.match_id x) (Match.match_id r)); simpl.
    + rewrite Hr, Hrest. reflexivity.
    + rewrite Hx, (IH Hrest). reflexivity.
Qed.

Lemma upsert_loop_plain rows : forall w r w',
  plain_keys rows = true ->
  for_each_ matches_upsert rows w = (r, w') ->
  http_in w' = http_in w
  /\ (plain_keys (matches w) = true -> plain_keys (matches w') = true)
  /\ keeps_unique (matches w) (matches w').
Proof.
  induction rows as [| x rest IH]; intros w r w' Hk H; simpl in H.
  - inversion H; subst. split; [reflexivity | split; [auto | intros Hu; exact Hu]].
  - unfold plain_keys in Hk. simpl in Hk. apply andb_true_iff in Hk.
    destruct Hk as [Hx Hrest].
    destruct (bind_inv _ _ _ _ _ H) as [(u & w1 & E1 & H1) | (e & E1 & _)].
    + destruct (execute_cases _ _ _ _ _ E1)
        as [(d & tl & _ & Habs & _) | (_ & -> & _)]; [discriminate |].
      destruct (IH _ _ _ Hrest H1) as (Hh & Hp & Hu). simpl in Hh, Hp, Hu.
      split; [exact Hh | split].
      * intros Hw. apply Hp. apply plain_keys_upsert; assumption.
      * intros Hw. apply Hu. apply keeps_unique_upsert. exact Hw.
    + destruct (execute_cases _ _ _ _ _ E1)
        as [(d & tl & _ & _ & ->) | (Habs & _)]; [| discriminate].
      simpl. split; [reflexivity | split; [auto | intros Hu; exact Hu]].
Qed.

Lemma print_stays_plain l : preserves stays_plain (print l).
Proof. intros w r w' E. inversion E; subst. intros H. exact H. Qed.

Lemma sync_standings_stays_plain self :
  preserves stays_plain (sync_standings_to_supabase self).
Proof.
  intros w r w' E (Hp & Hk & Hu).
  destruct (advances_sync_standings self w r w' E) as (_ & Hs).
  pose proof (same_matches_sync_standings self w r w' E) as Hm.
  unfold same_matches in Hm. unfold plain_world. rewrite Hm.
  split; [exact (plain_answers_suffix w w' Hs Hp) | split; assumption].
Qed.

(** The write is reached with the rows of the fetch only. *)
Lemma sync_matches_stays_plain self :
  preserves stays_plain (sync_matches_to_supabase self).
Proof.
  intros w r w' E (Hp & Hk & Hu).
  destruct (advances_sync_matches self w r w' E) as (_ & Hs).
  split; [exact (plain_answers_suffix w w' Hs Hp) |].
  unfold sync_matches_to_supabase in E.
  destruct (bind_inv _ _ _ _ _ E) as [(rows & w1 & E1 & E2) | (e & E1 & _)].
  - destruct (fetch_matches_db_untouched self 7 w _ w1 E1) as (_ & Hm & _).
    pose proof (fetch_matches_plain self 7 w rows w1 Hp E1) as Hrows.
    rewrite <- Hm in Hk, Hu.
    destruct (is_empty rows).
    + inversion E2; subst. split; assumption.
    + destruct (try_except_inv _ _ _ _ _ _ E2)
        as [(a & Ew & _) | [(e & w2 & Ew & _ & Hh) | (e & Ew & _ & _)]];
        unfold write_matches in Ew.
      * destruct (bind_inv _ _ _ _ _ Ew) as [(u & w2 & G1 & G2) | (e & _ & Habs)];
          [| discriminate].
        destruct (upsert_loop_plain rows w1 _ w2 Hrows G1) as (_ & Hp2 & Hu2).
        inversion G2; subst. split; [apply Hp2 | apply Hu2]; assumption.
      * inversion Hh; subst.
        destruct (bind_inv _ _ _ _ _ Ew) as [(u & w3 & G1 & G2) | (e0 & G1 & _)].
        -- destruct (upsert_loop_plain rows w1 _ w3 Hrows G1) as (_ & Hp2 & Hu2).
           inversion G2.
        -- destruct (upsert_loop_plain rows w1 _ w2 Hrows G1) as (_ & Hp2 & Hu2).
           split; [apply Hp2 | apply Hu2]; assumption.
      * destruct (bind_inv _ _ _ _ _ Ew) as [(u & w3 & G1 & G2) | (e0 & G1 & _)].
        -- inversion G2.
        -- destruct (upsert_loop_plain rows w1 _ w' Hrows G1) as (_ & Hp2 & Hu2).
           split; [apply Hp2 | apply Hu2]; assumption.
  - destruct (fetch_matches_db_untouched self 7 w _ w' E1) as (_ & Hm & _).
    rewrite Hm. split; assumption.
Qed.

(** X6: the program keeps [match_id] unique.  When the answers carry
    integer or null ids only, and so does the table, with no two rows
    carrying the same integer, then after the program has run the keys of the
    table are still integers or null and no two rows carry the same integer,
    whatever fails: every write is an upsert on that key.  (A key of another
    kind is outside what [same_key] models of the column.) *)
Theorem match_ids_stay_unique api_key polls w r w' :
  main api_key polls w = (r, w') ->
  plain_answers w ->
  plain_keys (matches w) = true ->
  unique_ids (matches w) ->
  unique_ids (matches w') /\ plain_keys (matches w') = true.
Proof.
  intros H Hp Hk Hu.
  assert (Hkept : stays_plain w w').
  { refine (main_from_syncs stays_plain _ _ (init api_key)
              print_stays_plain _ _
              (sync_standings_stays_plain _) (sync_matches_stays_plain _)
              api_key polls eq_refl w r w' H).
    - intros v Hv. exact Hv.
    - intros v1 v2 v3 H12 H23 Hv. apply H23, H12, Hv.
    - intros v res v' E Hv.
      destruct (datetime_now_at v) as (v1 & E1 & _ & Hh & _ & _ & Hm & _).
      rewrite E1 in E. inversion E; subst.
      unfold plain_world, plain_answers. rewrite Hh, Hm. exact Hv.
    - intros v res v' E. inversion E; subst. intros Hv. exact Hv. }
  destruct (Hkept (conj Hp (conj Hk Hu))) as (_ & Hk' & Hu').
  split; assumption.
Qed.

Lemma match_ids_stay_unique_witness :
  unique_ids (matches (snd (main None [true] two_runs)))
  /\ plain_keys (matches (snd (main None [true] two_runs))) = true.
Proof.
  apply (match_ids_stay_unique None [true] two_runs
           (fst (main None [true] two_runs))).
  - vm_compute. reflexivity.
  - unfold plain_answers. simpl. repeat constructor.
  - reflexivity.
  - intros z. unfold count_id. simpl. destruct (has_id z _); simpl; lia.
Defined.

(** ** The history of the standings *)

Lemma history_kept_refl w : history_kept w w.
Proof. split; auto. Qed.

Lemma history_kept_trans w1 w2 w3 :
  history_kept w1 w2 -> history_kept w2 w3 -> history_kept w1 w3.
Proof.
  intros [R1 K1] [R2 K2]. split.
  - intros t Ht. apply R1, R2, Ht.
  - intros r Hr Hold. apply K2.
    + apply K1; assumption.
    + intros t Ht. apply Hold, R1, Ht.
Qed.

Lemma history_kept_same w w' :
  standings w' = standings w -> readings w' = readings w -> history_kept w w'.
Proof.
  intros Hs Hr. split.
  - rewrite Hr. auto.
  - rewrite Hs. auto.
Qed.

Lemma history_kept_datetime_now : preserves history_kept datetime_now.
Proof.
  intros w r w' E.
  destruct (datetime_now_reading w) as (t & w1 & E1 & _ & _ & Hsub & _ & _ & Hs & _ & _).
  rewrite E1 in E. inversion E; subst. split; [exact Hsub |].
  rewrite Hs. auto.
Qed.

Lemma history_kept_emit ev w : history_kept w (emit ev w).
Proof. apply history_kept_same; reflexivity. Qed.

Lemma history_kept_requests_get url hs ps :
  preserves history_kept (requests_get url hs ps).
Proof.
  intros w r w' E. unfold requests_get in E.
  destruct (http_in _) as [| [d | st body] rest] eqn:Eh; inversion E; subst;
    apply history_kept_same; reflexivity.
Qed.

Lemma history_kept_print l : preserves history_kept (print l).
Proof. intros w r w' E. inversion E; subst. apply history_kept_emit. Qed.

Lemma history_kept_fetch_standings self :
  preserves history_kept (get_premier_league_standings self).
Proof.
  apply fetch_standings_from_parts;
    first [ exact history_kept_refl | exact history_kept_trans
          | exact history_kept_datetime_now | exact history_kept_print
          | apply history_kept_requests_get ].
Qed.

Lemma history_kept_fetch_matches self days_back :
  preserves history_kept (get_recent_matches self days_back).
Proof.
  apply fetch_matches_from_parts;
    first [ exact history_kept_refl | exact history_kept_trans
          | exact history_kept_datetime_now | exact history_kept_print
          | intros; apply history_kept_requests_get ].
Qed.

Lemma history_kept_write_matches rows :
  preserves history_kept (write_matches rows).
Proof.
  apply preserves_write_matches;
    first [ exact history_kept_refl | exact history_kept_trans
          | exact history_kept_emit
          | intros; apply history_kept_same; reflexivity ].
Qed.

(** The delete takes its bound from the clock, so it cannot reach a row
    stamped before every reading; the insert only adds. *)
Lemma history_kept_write_standings rows :
  preserves history_kept (write_standings rows).
Proof.
  intros w r w' H. unfold write_standings in H.
  destruct (datetime_now_reading w)
    as (t & w1 & E1 & Hin & _ & Hsub & _ & _ & Hs & _ & _).
  rewrite (bind_ok _ _ _ _ _ E1) in H.
  assert (Hkeep : forall r0, In r0 (standings w) -> before_every_reading w r0 ->
                    In r0 (delete_gte (midnight (date_of t)) (standings w1))).
  { intros r0 Hr0 Hold. apply delete_gte_keeps. rewrite Hs.
    split; [exact Hr0 | apply Hold; exact Hin]. }
  destruct (bind_inv _ _ _ _ _ H) as [(u & w2 & E2 & H2) | (e & E2 & _)].
  - destruct (execute_cases _ _ _ _ _ E2) as [(d & rest & _ & Habs & _) | (_ & -> & _)];
      [discriminate Habs |].
    destruct (bind_inv _ _ _ _ _ H2) as [(u3 & w3 & E3 & H3) | (e & E3 & _)].
    + destruct (execute_cases _ _ _ _ _ E3) as [(d & rest & _ & Habs & _) | (_ & -> & _)];
        [discriminate Habs |].
      inversion H3; subst. split.
      * intros x Hx. apply Hsub. exact Hx.
      * intros r0 Hr0 Hold. simpl. apply in_or_app. left. apply Hkeep; assumption.
    + destruct (execute_cases _ _ _ _ _ E3) as [(d & rest & _ & _ & ->) | (Habs & _)];
        [| discriminate Habs].
      split.
      * intros x Hx. apply Hsub. exact Hx.
      * intros r0 Hr0 Hold. simpl. apply Hkeep; assumption.
  - destruct (execute_cases _ _ _ _ _ E2) as [(d & rest & _ & _ & ->) | (Habs & _)];
      [| discriminate Habs].
    split.
    + intros x Hx. apply Hsub. exact Hx.
    + intros r0 Hr0 Hold. simpl. rewrite Hs. exact Hr0.
Qed.

(** X7: the program keeps the history of the standings.  A standings row
    stamped on a date earlier than every reading the clock will give during
    the run is still in the table afterwards, whatever the answers, the
    failures and the number of polls. *)
Theorem old_standings_are_never_deleted api_key polls w r w' row :
  main api_key polls w = (r, w') ->
  In row (standings w) ->
  before_every_reading w row ->
  In row (standings w').
Proof.
  intros H Hin Hold.
  assert (Hk : history_kept w w').
  { eapply (main_from_parts history_kept); [.. | reflexivity | exact H];
      first [ exact history_kept_refl | exact history_kept_trans
            | exact history_kept_datetime_now | exact history_kept_print
            | exact (history_kept_fetch_standings (init api_key))
            | exact (history_kept_fetch_matches (init api_key) 7)
            | exact history_kept_write_standings
            | exact history_kept_write_matches | idtac ].
    intros v rv v' E. inversion E; subst. apply history_kept_emit. }
  apply Hk; assumption.
Qed.

Lemma old_standings_are_never_deleted_witness :
  In row_yesterday (standings (snd (main None [true] three_days))).
Proof.
  apply (old_standings_are_never_deleted None [true] three_days
           (fst (main None [true] three_days))).
  - vm_compute. reflexivity.
  - left. reflexivity.
  - intros t Ht. vm_compute in Ht.
    destruct Ht as [<- | [<- | [<- | [<- | []]]]]; vm_compute; reflexivity.
Defined.

(** ** Rejected statements *)

Lemma guarded_standings_write_insert_rejected rows w1 d rest :
  db_in w1 = None :: Some d :: rest ->
  exists today w',
    fst (datetime_now w1) = Ok today
    /\ try_except (write_standings rows) is_exception
         (fun e => print (ErrorLine "Error syncing standings" e)) w1 = (Ok tt, w')
    /\ standings w' = delete_gte (midnight (date_of today)) (standings w1)
    /\ db_in w' = rest
    /\ trace w' = trace w1
                  ++ [DbDeleteGte "standings" "updated_at" (midnight (date_of today));
                      DbInsert "standings" rows;
                      Print (ErrorLine "Error syncing standings" (DbError d))].
Proof.
  destruct w1 as [h db c n s m tr]. simpl. intros ->.
  unfold try_except, write_standings, bind, datetime_now, standings_delete_gte,
    standings_insert, execute, print.
  destruct c as [| t c']; simpl;
    (do 2 eexists; repeat split; simpl; rewrite <- ?app_assoc; reflexivity).
Qed.

Lemma guarded_standings_write_delete_rejected rows w1 d rest :
  db_in w1 = Some d :: rest ->
  exists today w',
    fst (datetime_now w1) = Ok today
    /\ try_except (write_standings rows) is_exception
         (fun e => print (ErrorLine "Error syncing standings" e)) w1 = (Ok tt, w')
    /\ standings w' = standings w1
    /\ db_in w' = rest
    /\ trace w' = trace w1
                  ++ [DbDeleteGte "standings" "updated_at" (midnight (date_of today));
                      Print (ErrorLine "Error syncing standings" (DbError d))].
Proof.
  destruct w1 as [h db c n s m tr]. simpl. intros ->.
  unfold try_except, write_standings, bind, datetime_now, standings_delete_gte,
    standings_insert, execute, print.
  destruct c as [| t c']; simpl;
    (do 2 eexists; repeat split; simpl; rewrite <- ?app_assoc; reflexivity).
Qed.

(** X8: the replacement of today's standings is not atomic.  With a
    non-empty fetch: when the database applies the delete and rejects the
    insert, the sync logs the error and returns, and the table is left with
    the rows the delete kept and none of the fresh ones; when it rejects the
    delete, the insert is never sent and the table is as it was. *)
Theorem standings_replace_is_not_atomic self w row rows w1 d rest :
  get_premier_league_standings self w = (Ok (row :: rows), w1) ->
  (db_in w1 = None :: Some d :: rest ->
   exists today w',
     fst (datetime_now w1) = Ok today
     /\ sync_standings_to_supabase self w = (Ok tt, w')
     /\ standings w' = delete_gte (midnight (date_of today)) (standings w)
     /\ trace w' = trace w1
                   ++ [DbDeleteGte "standings" "updated_at" (midnight (date_of today));
                       DbInsert "standings" (row :: rows);
                       Print (ErrorLine "Error syncing standings" (DbError d))])
  /\ (db_in w1 = Some d :: rest ->
      exists today w',
        fst (datetime_now w1) = Ok today
        /\ sync_standings_to_supabase self w = (Ok tt, w')
        /\ standings w' = standings w
        /\ trace w' = trace w1
                      ++ [DbDeleteGte "standings" "updated_at" (midnight (date_of today));
                          Print (ErrorLine "Error syncing standings" (DbError d))]).
Proof.
  intros Hfetch.
  destruct (fetch_standings_db_untouched self w _ w1 Hfetch) as (Hs & _).
  split; intros Hdb.
  - destruct (guarded_standings_write_insert_rejected (row :: rows) w1 d rest Hdb)
      as (today & w' & Hnow & Hw & Hst & _ & Ht).
    exists today, w'. split; [exact Hnow | split; [| split; [| exact Ht]]].
    + unfold sync_standings_to_supabase. rewrite (bind_ok _ _ _ _ _ Hfetch). exact Hw.
    + rewrite Hst, Hs. reflexivity.
  - destruct (guarded_standings_write_delete_rejected (row :: rows) w1 d rest Hdb)
      as (today & w' & Hnow & Hw & Hst & _ & Ht).
    exists today, w'. split; [exact Hnow | split; [| split; [| exact Ht]]].
    + unfold sync_standings_to_supabase. rewrite (bind_ok _ _ _ _ _ Hfetch). exact Hw.
    + rewrite Hst, Hs. reflexivity.
Qed.

(** The loop of upserts stops at the first rejected statement. *)
Lemma upsert_loop_rejected d rest : forall k rows w,
  db_in w = repeat None k ++ Some d :: rest ->
  (k < List.length rows)%nat ->
  exists w',
    for_each_ matches_upsert rows w = (Raise (DbError d), w')
    /\ matches w' = upsert_all (firstn k rows) (matches w)
    /\ standings w' = standings w
    /\ db_in w' = rest
    /\ trace w' = trace w ++ upsert_events (firstn (S k) rows).
Proof.
  induction k as [| k IH]; intros rows w Hdb Hk;
    (destruct rows as [| r rs]; [simpl in Hk; lia |]).
  - destruct w as [h db c n s m tr]. simpl in Hdb. subst db.
    eexists. split; [reflexivity |]. repeat split.
  - assert (Hstep : exists w1,
               matches_upsert r w = (Ok tt, w1)
               /\ matches w1 = upsert_row r (matches w)
               /\ standings w1 = standings w
               /\ db_in w1 = repeat None k ++ Some d :: rest
               /\ trace w1 = trace w ++ [DbUpsert "matches" r "match_id"]).
    { destruct w as [h db c n s m tr]. simpl in Hdb. subst db.
      eexists. split; [reflexivity |]. repeat split. }
    destruct Hstep as (w1 & E1 & M1 & S1 & D1 & T1).
    simpl in Hk.
    destruct (IH rs w1 D1 ltac:(lia)) as (w' & E' & M' & S' & D' & T').
    exists w'. simpl for_each_. rewrite (bind_ok _ _ _ _ _ E1).
    split; [exact E' |]. split; [| split; [| split; [exact D' |]]].
    + rewrite M', M1. reflexivity.
    + rewrite S', S1. reflexivity.
    + rewrite T', T1, <- app_assoc. reflexivity.
Qed.

(** X9: the matches are written one by one, with no transaction around
    them.  When the rows carry integer or null keys, the database accepts the
    first [k] upserts of a payload and rejects the next, the sync logs the
    error and returns; the first [k] rows are in the table, the rejected row
    and every row after it are not written, and no further statement is
    sent. *)
Theorem matches_write_stops_at_first_rejection self w rows w1 k d rest :
  get_recent_matches self 7 w = (Ok rows, w1) ->
  plain_keys rows = true ->
  db_in w1 = repeat None k ++ Some d :: rest ->
  (k < List.length rows)%nat ->
  exists w',
    sync_matches_to_supabase self w = (Ok tt, w')
    /\ matches w' = upsert_all (firstn k rows) (matches w)
    /\ db_in w' = rest
    /\ trace w' = trace w1
                  ++ upsert_events (firstn (S k) rows)
                  ++ [Print (ErrorLine "Error syncing matches" (DbError d))].
Proof.
  intros Hfetch _ Hdb Hk.
  destruct (fetch_matches_db_untouched self 7 w _ w1 Hfetch) as (_ & Hm & _).
  destruct (upsert_loop_rejected d rest k rows w1 Hdb Hk)
    as (w2 & E & M & _ & D & T).
  exists (emit (Print (ErrorLine "Error syncing matches" (DbError d))) w2).
  split; [| split; [| split]].
  - unfold sync_matches_to_supabase. rewrite (bind_ok _ _ _ _ _ Hfetch).
    destruct rows as [| r rs]; [simpl in Hk; lia |]. simpl.
    rewrite (try_except_caught (write_matches (r :: rs)) _ _ w1 (DbError d) w2);
      [reflexivity | | reflexivity].
    unfold write_matches. apply bind_raise. exact E.
  - simpl. rewrite M, Hm. reflexivity.
  - exact D.
  - simpl. rewrite T, <- app_assoc. reflexivity.
Qed.

Lemma standings_replace_is_not_atomic_witness :
  (exists today w',
      fst (datetime_now (snd (get_premier_league_standings (init None)
                                insert_rejected_day))) = Ok today
      /\ sync_standings_to_supabase (init None) insert_rejected_day = (Ok tt, w')
      /\ standings w'
         = delete_gte (midnight (date_of today)) (standings insert_rejected_day)
      /\ trace w'
         = trace (snd (get_premier_league_standings (init None) insert_rejected_day))
           ++ [DbDeleteGte "standings" "updated_at" (midnight (date_of today));
               DbInsert "standings" (fresh_standings noon (noon + 1) (noon + 2));
               Print (ErrorLine "Error syncing standings"
                        (DbError "duplicate key value violates unique constraint"))])
  /\ (exists today w',
        fst (datetime_now (snd (get_premier_league_standings (init None)
                                  delete_rejected_day))) = Ok today
        /\ sync_standings_to_supabase (init None) delete_rejected_day = (Ok tt, w')
        /\ standings w' = standings delete_rejected_day
        /\ trace w'
           = trace (snd (get_premier_league_standings (init None) delete_rejected_day))
             ++ [DbDeleteGte "standings" "updated_at" (midnight (date_of today));
                 Print (ErrorLine "Error syncing standings"
                          (DbError "permission denied for table standings"))]).
Proof.
  split.
  - apply (standings_replace_is_not_atomic (init None) insert_rejected_day
             (stored_standing 1 57 "Arsenal" noon)
             [stored_standing 2 65 "Manchester City" (noon + 1);
              stored_standing 3 64 "Liverpool" (noon + 2)]
             (snd (get_premier_league_standings (init None) insert_rejected_day))
             "duplicate key value violates unique constraint" []).
    + vm_compute. reflexivity.
    + vm_compute. reflexivity.
  - apply (standings_replace_is_not_atomic (init None) delete_rejected_day
             (stored_standing 1 57 "Arsenal" noon)
             [stored_standing 2 65 "Manchester City" (noon + 1);
              stored_standing 3 64 "Liverpool" (noon + 2)]
             (snd (get_premier_league_standings (init None) delete_rejected_day))
             "permission denied for table standings" []).
    + vm_compute. reflexivity.
    + vm_compute. reflexivity.
Defined.

Lemma matches_write_stops_at_first_rejection_witness :
  exists w',
    sync_matches_to_supabase (init None) second_upsert_rejected = (Ok tt, w')
    /\ matches w'
       = upsert_all
           (firstn 1 (rows_of (fst (get_recent_matches (init None) 7
                                      second_upsert_rejected))))
           (matches second_upsert_rejected)
    /\ db_in w' = [None]
    /\ trace w'
       = trace (snd (get_recent_matches (init None) 7 second_upsert_rejected))
         ++ upsert_events
              (firstn 2 (rows_of (fst (get_recent_matches (init None) 7
                                         second_upsert_rejected))))
         ++ [Print (ErrorLine "Error syncing matches" (DbError "value out of range"))].
Proof.
  apply (matches_write_stops_at_first_rejection (init None) second_upsert_rejected
           (rows_of (fst (get_recent_matches (init None) 7 second_upsert_rejected)))
           (snd (get_recent_matches (init None) 7 second_upsert_rejected))
           1%nat "value out of range" [None]).
  - vm_compute. reflexivity.
  - vm_compute. reflexivity.
  - vm_compute. reflexivity.
  - vm_compute. lia.
Defined.

(** ** Documents the mappers do not expect *)

Lemma shape_error_is_not_caught e :
  shape_error e = true -> is_request_exception e = false.
Proof. destruct e; simpl; intros H; try reflexivity; discriminate. Qed.

Lemma matches_fetch_decoded self days_back w st data rest :
  http_in w = Response st (Some data) :: rest ->
  (400 <=? st) && (st <? 600) = false ->
  exists params w0,
    get_recent_matches self days_back w
    = try_except (matches_of_data data) is_request_exception
        (fun e => print (ErrorLine "Error fetching matches" e) ;; ret []) w0
    /\ trace w0 = trace w ++ [HttpGet (matches_url self) (headers self) params]
    /\ db_untouched w w0.
Proof.
  intros Hh Hst. unfold get_recent_matches.
  destruct (datetime_now_reading w)
    as (t1 & w1 & E1 & _ & _ & _ & Hh1 & Hd1 & Hs1 & Hm1 & T1).
  destruct (datetime_now_reading w1)
    as (t2 & w2 & E2 & _ & _ & _ & Hh2 & Hd2 & Hs2 & Hm2 & T2).
  rewrite (bind_ok _ _ _ _ _ E1), (bind_ok _ _ _ _ _ E2).
  assert (Hh' : http_in w2 = Response st (Some data) :: rest) by congruence.
  rewrite (fetch_decoded _ _ _ _ _ _ _ _ _ _ Hh' Hst).
  do 2 eexists. split; [reflexivity | split].
  - simpl. rewrite T2, T1. reflexivity.
  - unfold db_untouched. simpl. repeat split; try congruence.
    eexists. split; [rewrite T2, T1; reflexivity | repeat constructor].
Qed.

(** X10: a matches answer that decodes to an object without a ['matches']
    member, or with an empty matches array, is taken as no matches at all:
    the fetch returns the empty list without a word of output, and the sync
    prints its notice and sends nothing to the database. *)
Theorem missing_matches_is_silently_empty self w st dm rest :
  http_in w = Response st (Some (JObj dm)) :: rest ->
  (400 <=? st) && (st <? 600) = false ->
  Py.dict_get "matches" dm = None \/ Py.dict_get "matches" dm = Some (JArr []) ->
  exists params w1,
    get_recent_matches self 7 w = (Ok [], w1)
    /\ trace w1 = trace w ++ [HttpGet (matches_url self) (headers self) params]
    /\ sync_matches_to_supabase self w = (Ok tt, emit no_matches_line w1)
    /\ db_untouched w (emit no_matches_line w1).
Proof.
  intros Hh Hst Hdm.
  destruct (matches_fetch_decoded self 7 w st (JObj dm) rest Hh Hst)
    as (params & w0 & E & T & Hq).
  assert (Hl : matches_list (JObj dm) = Ok []).
  { unfold matches_list. simpl. destruct Hdm as [-> | ->]; reflexivity. }
  assert (Hf : get_recent_matches self 7 w = (Ok [], w0)).
  { rewrite E. apply try_except_ok. unfold matches_of_data. rewrite Hl. reflexivity. }
  exists params, w0. split; [exact Hf | split; [exact T | split]].
  - unfold sync_matches_to_supabase. rewrite (bind_ok _ _ _ _ _ Hf). reflexivity.
  - eapply db_untouched_trans; [exact Hq |].
    apply (db_untouched_emit no_matches_line).
Qed.

Lemma missing_matches_is_silently_empty_witness :
  exists params w1,
    get_recent_matches (init None) 7
      (fresh [Response 200 (Some (JObj [("count", JInt 0)]))] [Some "offline"] [noon])
    = (Ok [], w1)
    /\ trace w1 = [HttpGet (matches_url (init None)) (headers (init None)) params]
    /\ sync_matches_to_supabase (init None)
         (fresh [Response 200 (Some (JObj [("count", JInt 0)]))] [Some "offline"] [noon])
       = (Ok tt, emit no_matches_line w1)
    /\ db_untouched
         (fresh [Response 200 (Some (JObj [("count", JInt 0)]))] [Some "offline"] [noon])
         (emit no_matches_line w1).
Proof.
  apply (missing_matches_is_silently_empty (init None)
           (fresh [Response 200 (Some (JObj [("count", JInt 0)]))] [Some "offline"] [noon])
           200 [("count", JInt 0)] []).
  - reflexivity.
  - reflexivity.
  - left. reflexivity.
Defined.

(** X11: an answer that is not a failure but whose body decodes to something
    other than an object is not handled.  The matches fetch calls [.get] on
    it and raises [AttributeError]; the standings fetch tests [in] on it and
    raises [TypeError] when it is null, a boolean or a number.  Neither is a
    request error, so each leaves its fetch and its sync. *)
Theorem non_object_body_is_not_handled self w st data rest :
  http_in w = Response st (Some data) :: rest ->
  (400 <=? st) && (st <? 600) = false ->
  (is_object data = false ->
   exists w', get_recent_matches self 7 w = (Raise AttributeError, w')
              /\ sync_matches_to_supabase self w = (Raise AttributeError, w'))
  /\ (is_scalar data = true ->
      exists w', get_premier_league_standings self w = (Raise TypeError, w')
                 /\ sync_standings_to_supabase self w = (Raise TypeError, w')).
Proof.
  intros Hh Hst. split; intros Hd.
  - destruct (matches_fetch_decoded self 7 w st data rest Hh Hst)
      as (params & w0 & E & _ & _).
    assert (Hf : get_recent_matches self 7 w = (Raise AttributeError, w0)).
    { rewrite E. apply try_except_escapes; [| reflexivity].
      unfold matches_of_data. destruct data; try discriminate Hd; reflexivity. }
    exists w0. split; [exact Hf |].
    unfold sync_matches_to_supabase. apply bind_raise. exact Hf.
  - eexists.
    assert (Hf : get_premier_league_standings self w
                 = (Raise TypeError,
                    after_get (HttpGet (standings_url self) (headers self) []) w)).
    { rewrite (standings_fetch_decoded self w st data rest Hh Hst).
      apply try_except_escapes; [| reflexivity].
      unfold standings_of_data. destruct data; try discriminate Hd; reflexivity. }
    split; [exact Hf |].
    unfold sync_standings_to_supabase. apply bind_raise. exact Hf.
Qed.

Lemma non_object_body_is_not_handled_witness :
  (exists w', get_recent_matches (init None) 7
                (fresh [Response 200 (Some JNull)] [] [noon])
              = (Raise AttributeError, w')
              /\ sync_matches_to_supabase (init None)
                   (fresh [Response 200 (Some JNull)] [] [noon])
                 = (Raise AttributeError, w'))
  /\ (exists w', get_premier_league_standings (init None)
                   (fresh [Response 200 (Some JNull)] [] [noon])
                 = (Raise TypeError, w')
                 /\ sync_standings_to_supabase (init None)
                      (fresh [Response 200 (Some JNull)] [] [noon])
                    = (Raise TypeError, w')).
Proof.
  destruct (non_object_body_is_not_handled (init None)
              (fresh [Response 200 (Some JNull)] [] [noon]) 200 JNull []
              eq_refl eq_refl) as [Hm Hs].
  split; [apply Hm | apply Hs]; reflexivity.
Defined.

Ltac rewrite_lookups :=
  simpl;
  repeat (match goal with
          | E : key ?v ?k = Ok _ |- context [key ?v ?k] => rewrite E; simpl
          end).

Lemma standing_fields_ok_valid team mk :
  standing_fields team = Ok mk -> valid_team team = true.
Proof.
  unfold standing_fields, valid_team, has, has_in. intros H.
  repeat next_lookup H. rewrite_lookups. reflexivity.
Qed.

Lemma match_fields_ok_valid m mk :
  match_fields m = Ok mk -> valid_match m = true.
Proof.
  unfold match_fields, valid_match, has, has_in, full_time. intros H.
  repeat next_lookup H. rewrite_lookups. reflexivity.
Qed.

Lemma invalid_team_fails team :
  valid_team team = false -> is_ok (standing_fields team) = false.
Proof.
  intros H. destruct (standing_fields team) as [mk | e] eqn:E; [| reflexivity].
  rewrite (standing_fields_ok_valid team mk E) in H. discriminate H.
Qed.

Lemma invalid_match_fails m :
  valid_match m = false -> is_ok (match_fields m) = false.
Proof.
  intros H. destruct (match_fields m) as [mk | e] eqn:E; [| reflexivity].
  rewrite (match_fields_ok_valid m mk E) in H. discriminate H.
Qed.

(** X12: the standings are mapped all or nothing.  When one entry of the
    table lacks a field the mapper reads, the fetch raises the lookup error,
    no row of the other entries is kept, and the sync ends before it sends
    anything to the database: the standings table is as it was. *)
Theorem one_bad_team_nothing_written self w st data entries rest :
  http_in w = Response st (Some data) :: rest ->
  (400 <=? st) && (st <? 600) = false ->
  first_table data = Some entries ->
  Exists (fun team => valid_team team = false) entries ->
  exists e w',
    sync_standings_to_supabase self w = (Raise e, w')
    /\ shape_error e = true
    /\ db_untouched w w'.
Proof.
  intros Hh Hst Ht Hbad.
  assert (Hbad' : Exists (fun t => is_ok (standing_fields t) = false) entries).
  { eapply Exists_impl; [| exact Hbad]. intros t. apply invalid_team_fails. }
  destruct (for_each_stamped_raise standing_fields entries Hbad'
              (after_get (HttpGet (standings_url self) (headers self) []) w))
    as (x & e & w' & Er & _ & Hx).
  pose proof (standing_fields_raises_shape_errors x e Hx) as He.
  assert (Hf : get_premier_league_standings self w = (Raise e, w')).
  { rewrite (standings_fetch_decoded self w st data rest Hh Hst).
    apply try_except_escapes; [| apply shape_error_is_not_caught; exact He].
    unfold standings_of_data. rewrite (first_table_visited _ _ Ht). exact Er. }
  exists e, w'. split; [| split; [exact He |]].
  - unfold sync_standings_to_supabase. apply bind_raise. exact Hf.
  - apply (fetch_standings_db_untouched self w _ w' Hf).
Qed.

Lemma one_bad_team_nothing_written_witness :
  exists e w',
    sync_standings_to_supabase (init None)
      (mkWorld [Response 200
                  (Some (JObj [("standings",
                                JArr [JObj [("table",
                                             JArr [sample_team 1 57 "Arsenal";
                                                   JObj [("position", JInt 2)]])]])]))]
               [] [noon] 0 [row_yesterday; row_today] [] [])
    = (Raise e, w')
    /\ shape_error e = true
    /\ db_untouched
         (mkWorld [Response 200
                     (Some (JObj [("standings",
                                   JArr [JObj [("table",
                                                JArr [sample_team 1 57 "Arsenal";
                                                      JObj [("position", JInt 2)]])]])]))]
                  [] [noon] 0 [row_yesterday; row_today] [] [])
         w'.
Proof.
  apply (one_bad_team_nothing_written (init None) _ 200
           (JObj [("standings",
                   JArr [JObj [("table",
                                JArr [sample_team 1 57 "Arsenal";
                                      JObj [("position", JInt 2)]])]])])
           [sample_team 1 57 "Arsenal"; JObj [("position", JInt 2)]] []).
  - reflexivity.
  - reflexivity.
  - reflexivity.
  - right. left. reflexivity.
Defined.

(** X13: the matches are mapped all or nothing too.  When one match of the
    array lacks a field the mapper reads, the fetch raises the lookup error
    and the sync ends before its first upsert: the matches table is as it
    was, the valid matches of the same answer included. *)
Theorem one_bad_match_nothing_written self w st data ms rest :
  http_in w = Response st (Some data) :: rest ->
  (400 <=? st) && (st <? 600) = false ->
  matches_array data = Some ms ->
  Exists (fun m => valid_match m = false) ms ->
  exists e w',
    sync_matches_to_supabase self w = (Raise e, w')
    /\ shape_error e = true
    /\ db_untouched w w'.
Proof.
  intros Hh Hst Ha Hbad.
  assert (Hbad' : Exists (fun m => is_ok (match_fields m) = false) ms).
  { eapply Exists_impl; [| exact Hbad]. intros m. apply invalid_match_fails. }
  destruct (matches_fetch_decoded self 7 w st data rest Hh Hst)
    as (params & w0 & E & _ & _).
  destruct (for_each_stamped_raise match_fields ms Hbad' w0)
    as (x & e & w' & Er & _ & Hx).
  pose proof (match_fields_raises_shape_errors x e Hx) as He.
  assert (Hf : get_recent_matches self 7 w = (Raise e, w')).
  { rewrite E.
    apply try_except_escapes; [| apply shape_error_is_not_caught; exact He].
    unfold matches_of_data. rewrite (matches_array_visited _ _ Ha). exact Er. }
  exists e, w'. split; [| split; [exact He |]].
  - unfold sync_matches_to_supabase. apply bind_raise. exact Hf.
  - apply (fetch_matches_db_untouched self 7 w _ w' Hf).
Qed.

Lemma one_bad_match_nothing_written_witness :
  exists e w',
    sync_matches_to_supabase (init None)
      (mkWorld [Response 200
                  (Some (sample_matches
                           [finished_12345; JObj [("id", JInt 12346)]]))]
               [] [noon] 0 [] [stored_match "TIMED" JNull JNull 50] [])
    = (Raise e, w')
    /\ shape_error e = true
    /\ db_untouched
         (mkWorld [Response 200
                     (Some (sample_matches
                              [finished_12345; JObj [("id", JInt 12346)]]))]
                  [] [noon] 0 [] [stored_match "TIMED" JNull JNull 50] [])
         w'.
Proof.
  apply (one_bad_match_nothing_written (init None) _ 200
           (sample_matches [finished_12345; JObj [("id", JInt 12346)]])
           [finished_12345; JObj [("id", JInt 12346)]] []).
  - reflexivity.
  - reflexivity.
  - reflexivity.
  - right. left. reflexivity.
Defined.

(** ** Writing the same rows again *)

Lemma count_id_member z y tbl :
  In y tbl -> has_id z y = true -> (1 <= count_id z tbl)%nat.
Proof.
  unfold count_id. induction tbl as [| x rest IH]; simpl; [contradiction |].
  intros [-> | Hin] Hy.
  - rewrite Hy. simpl. lia.
  - destruct (has_id z x); simpl; [lia | apply IH; assumption].
Qed.

Lemma unique_ids_tail x rest : unique_ids (x :: rest) -> unique_ids rest.
Proof.
  intros Hu z. pose proof (Hu z) as H. unfold count_id in *. simpl in H.
  destruct (has_id z x); simpl in H; lia.
Qed.

(** In a table with unique keys, a row with a key is the row found for it. *)
Lemma find_id_unique z y tbl :
  unique_ids tbl -> In y tbl -> has_id z y = true -> find_id z tbl = Some y.
Proof.
  unfold find_id. induction tbl as [| x rest IH]; simpl; [contradiction |].
  intros Hu Hin Hy. destruct (has_id z x) eqn:Hx.
  - destruct Hin as [-> | Hin]; [reflexivity |].
    pose proof (count_id_member z y rest Hin Hy) as H1.
    pose proof (Hu z) as H2. unfold count_id in *. simpl in H2.
    rewrite Hx in H2. simpl in H2. lia.
  - destruct Hin as [-> | Hin]; [congruence |].
    apply IH; [eapply unique_ids_tail; exact Hu | exact Hin | exact Hy].
Qed.

Lemma map_absent_key z r tbl :
  count_id z tbl = 0%nat ->
  map (fun y => if has_id z y then r else y) tbl = tbl.
Proof.
  unfold count_id. induction tbl as [| x rest IH]; simpl; [reflexivity |].
  destruct (has_id z x); simpl; [discriminate |].
  intros H. rewrite (IH H). reflexivity.
Qed.

(** On a table that holds the key once, an upsert overwrites in place. *)
Lemma upsert_row_in_place r z tbl :
  Match.match_id r = JInt z ->
  count_id z tbl = 1%nat ->
  upsert_row r tbl = map (fun y => if has_id z y then r else y) tbl.
Proof.
  intros Hr. unfold count_id. induction tbl as [| x rest IH]; simpl; [discriminate |].
  rewrite (same_key_has_id r z x Hr).
  destruct (has_id z x); simpl; intros H.
  - rewrite map_absent_key; [reflexivity | unfold count_id; lia].
  - rewrite (IH H). reflexivity.
Qed.

Lemma overwritten_step r z rest y :
  Match.match_id r = JInt z ->
  overwritten rest (if has_id z y then r else y) = overwritten (r :: rest) y.
Proof.
  intros Hr. unfold overwritten. simpl.
  destruct (Match.match_id y) as [| | zy | | | |] eqn:Ey;
    try (rewrite (has_id_no_int_key y z); [rewrite Ey; reflexivity
                                          | unfold int_key; rewrite Ey; reflexivity]).
  rewrite (has_id_iff y zy z Ey), (has_id_iff r z zy Hr).
  destruct (Z.eqb_spec z zy) as [<- | Hne].
  - rewrite Hr, Z.eqb_refl. destruct (last_with_id z rest); reflexivity.
  - rewrite Ey. destruct (Z.eqb_spec zy z) as [-> | _]; [congruence |].
    destruct (last_with_id zy rest); reflexivity.
Qed.

(** On a table that holds every key of the payload once, the loop of upserts
    overwrites each row by the last row of the payload with its key. *)
Lemma upsert_all_in_place rows : forall tbl,
  forallb int_key rows = true ->
  (forall r z, In r rows -> Match.match_id r = JInt z -> count_id z tbl = 1%nat) ->
  upsert_all rows tbl = map (overwritten rows) tbl.
Proof.
  induction rows as [| r rest IH]; intros tbl Hk Hc.
  - unfold upsert_all, overwritten. simpl. symmetry.
    rewrite <- (map_id tbl) at 2. apply map_ext. intros y.
    destruct (Match.match_id y); reflexivity.
  - simpl in Hk. apply andb_true_iff in Hk. destruct Hk as [Hr Hrest].
    destruct (int_key_inv r Hr) as (z & Ez).
    pose proof (Hc r z (or_introl eq_refl) Ez) as Hz.
    change (upsert_all (r :: rest) tbl) with (upsert_all rest (upsert_row r tbl)).
    rewrite IH; [| exact Hrest |].
    + rewrite (upsert_row_in_place r z tbl Ez Hz), map_map.
      apply map_ext. intros y. apply overwritten_step. exact Ez.
    + intros r' z' Hin Ez'. rewrite (count_id_upsert r z tbl z' Ez).
      pose proof (Hc r' z' (or_intror Hin) Ez') as H1.
      destruct (z' =? z); [rewrite Hz; reflexivity | exact H1].
Qed.

(** X14: writing a payload is idempotent on the table.  When the database
    accepts every statement, the table honours the UNIQUE constraint on
    [match_id] and the rows carry integer keys, writing the same rows a
    second time leaves the matches table exactly as the first write left
    it. *)
Theorem writing_matches_twice_changes_nothing rows w :
  accepts_all w ->
  unique_ids (matches w) ->
  forallb int_key rows = true ->
  exists w1 w2,
    write_matches rows w = (Ok tt, w1)
    /\ write_matches rows w1 = (Ok tt, w2)
    /\ matches w2 = matches w1.
Proof.
  intros Hacc Hu Hk.
  destruct (write_matches_accepted rows w Hacc) as (w1 & E1 & M1 & A1 & _).
  destruct (write_matches_accepted rows w1 A1) as (w2 & E2 & M2 & _).
  exists w1, w2. split; [exact E1 | split; [exact E2 |]].
  assert (Hcount : forall z, count_id z (matches w1)
                             = if existsb (has_id z) rows
                               then Nat.max 1 (count_id z (matches w))
                               else count_id z (matches w)).
  { intros z. rewrite M1. apply count_id_upsert_all. exact Hk. }
  assert (Hu1 : unique_ids (matches w1)).
  { intros z. rewrite Hcount. pose proof (Hu z).
    destruct (existsb (has_id z) rows); [| assumption].
    destruct (count_id z (matches w)) as [| [| n]]; simpl; lia. }
  rewrite M2, upsert_all_in_place; [| exact Hk |].
  - rewrite <- (map_id (matches w1)) at 2. apply map_ext_in. intros y Hy.
    unfold overwritten.
    destruct (Match.match_id y) as [| | zy | | | |] eqn:Ey; try reflexivity.
    destruct (last_with_id zy rows) as [r |] eqn:El; [| reflexivity].
    assert (Hf : find_id zy (matches w1) = Some r).
    { rewrite M1, (find_id_upsert_all rows _ zy Hk), El. reflexivity. }
    rewrite (find_id_unique zy y (matches w1) Hu1 Hy (has_id_own y zy Ey)) in Hf.
    inversion Hf. reflexivity.
  - intros r z Hin Ez. rewrite Hcount, (in_existsb_has_id r z rows Hin Ez).
    pose proof (Hu z). destruct (count_id z (matches w)) as [| [| n]]; simpl; lia.
Qed.

Lemma writing_matches_twice_changes_nothing_witness :
  exists w1 w2,
    write_matches [stored_match "LIVE" (JInt 1) (JInt 0) 700;
                   stored_match "FINISHED" (JInt 2) (JInt 1) 700] two_runs
    = (Ok tt, w1)
    /\ write_matches [stored_match "LIVE" (JInt 1) (JInt 0) 700;
                      stored_match "FINISHED" (JInt 2) (JInt 1) 700] w1
       = (Ok tt, w2)
    /\ matches w2 = matches w1.
Proof.
  apply (writing_matches_twice_changes_nothing
           [stored_match "LIVE" (JInt 1) (JInt 0) 700;
            stored_match "FINISHED" (JInt 2) (JInt 1) 700] two_runs).
  - unfold accepts_all. simpl. constructor.
  - intros z. unfold count_id. simpl. destruct (has_id z _); simpl; lia.
  - reflexivity.
Defined.

(** ** Two standings syncs on one day *)

Lemma requests_get_readings url hs ps w r w' :
  requests_get url hs ps w = (r, w') -> readings w' = readings w.
Proof.
  unfold requests_get. intros H.
  destruct (http_in _) as [| [d | st body] rest]; inversion H; subst; reflexivity.
Qed.

Lemma standing_fields_stamp team mk :
  standing_fields team = Ok mk -> forall t, Standing.updated_at (mk t) = t.
Proof.
  unfold standing_fields. intros H t.
  repeat next_lookup H. inversion H; subst. reflexivity.
Qed.

(** A stamped row carries a reading of the clock. *)
Lemma stamped_inv {B : Type} (fields : result (Z -> B)) w y w1 :
  stamped fields w = (Ok y, w1) ->
  exists mk t,
    fields = Ok mk /\ y = mk t /\ In t (readings w)
    /\ (forall x, In x (readings w1) -> In x (readings w)).
Proof.
  unfold stamped, bind, lift, ret. destruct fields as [mk | e]; [| discriminate].
  destruct (datetime_now_reading w) as (t & w2 & E & Hin & _ & Hsub & _).
  rewrite E. intros H. inversion H; subst. exists mk, t. auto.
Qed.

Lemma for_each_stamped_readings {A B : Type} (fields : A -> result (Z -> B))
    (stamp_of : B -> Z) :
  (forall x mk t, fields x = Ok mk -> stamp_of (mk t) = t) ->
  forall l w rows w',
    for_each (fun x => stamped (fields x)) l w = (Ok rows, w') ->
    Forall (fun r => In (stamp_of r) (readings w)) rows.
Proof.
  intros Hst. induction l as [| x rest IH]; intros w rows w' H; simpl in H.
  - inversion H; subst. constructor.
  - destruct (bind_inv _ _ _ _ _ H) as [(y & w1 & E1 & H1) | (e & _ & Habs)];
      [| discriminate].
    destruct (bind_inv _ _ _ _ _ H1) as [(ys & w2 & E2 & H2) | (e & _ & Habs)];
      [| discriminate].
    inversion H2; subst.
    destruct (stamped_inv _ _ _ _ E1) as (mk & t & Ef & -> & Hin & Hsub).
    constructor.
    + rewrite (Hst x mk t Ef). exact Hin.
    + eapply Forall_impl; [| exact (IH _ _ _ E2)].
      intros r Hr. apply Hsub. exact Hr.
Qed.

(** Every row the standings fetch returns is stamped with a reading of the
    clock taken during the fetch. *)
Lemma fetch_standings_stamps self w rows wa :
  get_premier_league_standings self w = (Ok rows, wa) ->
  Forall (fun r => In (Standing.updated_at r) (readings w)) rows.
Proof.
  unfold get_premier_league_standings. intros H.
  destruct (try_except_inv _ _ _ _ _ _ H)
    as [(a & E & Ha) | [(e & w1 & _ & _ & Hh) | (e & _ & _ & Habs)]];
    [| | discriminate].
  - inversion Ha; subst a. clear Ha H.
    destruct (bind_inv _ _ _ _ _ E) as [(resp & w2 & E1 & H1) | (e & _ & Habs)];
      [| discriminate].
    rewrite <- (requests_get_readings _ _ _ _ _ _ E1).
    destruct (bind_inv _ _ _ _ _ H1) as [(u & w3 & E2 & H2) | (e & _ & Habs)];
      [| discriminate].
    assert (w3 = w2) as ->.
    { unfold raise_for_status in E2.
      destruct ((400 <=? fst resp) && (fst resp <? 600)); inversion E2; reflexivity. }
    destruct (bind_inv _ _ _ _ _ H2) as [(data & w4 & E3 & H3) | (e & _ & Habs)];
      [| discriminate].
    assert (w4 = w2) as ->.
    { unfold response_json in E3. destruct (snd resp); inversion E3; reflexivity. }
    unfold standings_of_data in H3.
    destruct (bind_inv _ _ _ _ _ H3) as [(teams & w5 & E4 & H4) | (e & _ & Habs)];
      [| discriminate].
    assert (w5 = w2) as -> by (inversion E4; reflexivity).
    exact (for_each_stamped_readings standing_fields Standing.updated_at
             (fun x mk t E => standing_fields_stamp x mk E t) teams w2 rows wa H4).
  - unfold bind, print, ret in Hh. inversion Hh; subst. constructor.
Qed.

Lemma write_standings_accepted_all rows w :
  accepts_all w ->
  exists today w',
    In today (readings w)
    /\ write_standings rows w = (Ok tt, w')
    /\ standings w' = delete_gte (midnight (date_of today)) (standings w) ++ rows
    /\ accepts_all w'
    /\ (forall x, In x (readings w') -> In x (readings w)).
Proof.
  unfold accepts_all, readings. destruct w as [h d c n s m tr]. simpl. intros Hacc.
  assert (Hd : d = [] \/ (d = [None])
               \/ exists rest, d = None :: None :: rest
                               /\ Forall (fun o => o = None) rest).
  { destruct d as [| o1 [| o2 rest]].
    - left. reflexivity.
    - right. left. inversion Hacc; subst. reflexivity.
    - right. right. inversion Hacc as [| ? ? H1 H2]; subst.
      inversion H2; subst. exists rest. split; [reflexivity | assumption]. }
  unfold write_standings, bind, datetime_now, standings_delete_gte,
    standings_insert, execute, print.
  destruct c as [| t c']; simpl.
  - exists n.
    destruct Hd as [-> | [-> | (rest & -> & Hrest)]]; simpl;
      (eexists; split; [left; reflexivity |];
       split; [reflexivity |]; simpl;
       split; [reflexivity |];
       split; [first [constructor | exact Hrest] | auto]).
  - exists t.
    destruct Hd as [-> | [-> | (rest & -> & Hrest)]]; simpl;
      (eexists; split; [left; reflexivity |];
       split; [reflexivity |]; simpl;
       split; [reflexivity |];
       split; [first [exact Hrest | constructor] |];
       destruct c'; simpl; intros x Hx;
       [destruct Hx as [<- | []]; left; reflexivity | right; exact Hx]).
Qed.

Lemma on_the_day_not_before t d : date_of t = d -> (t <? midnight d) = false.
Proof.
  unfold midnight, date_of, day_us. intros <-. rewrite Z.ltb_ge.
  pose proof (Z.mul_div_le t 86400000000 ltac:(lia)). lia.
Qed.

Lemma delete_gte_twice b tbl : delete_gte b (delete_gte b tbl) = delete_gte b tbl.
Proof.
  unfold delete_gte. induction tbl as [| r rest IH]; simpl; [reflexivity |].
  destruct (Standing.updated_at r <? b) eqn:E; simpl; [rewrite E, IH |]; auto.
Qed.

Lemma delete_gte_same_day d rows :
  Forall (fun r => date_of (Standing.updated_at r) = d) rows ->
  delete_gte (midnight d) rows = [].
Proof.
  unfold delete_gte. induction 1 as [| r rest Hr _ IH]; simpl; [reflexivity |].
  rewrite (on_the_day_not_before _ d Hr). exact IH.
Qed.

(** One sync on a day on which the database accepts everything. *)
Lemma same_day_sync_once self d w row rows wa :
  same_day d w -> accepts_all w ->
  get_premier_league_standings self w = (Ok (row :: rows), wa) ->
  exists w1,
    sync_standings_to_supabase self w = (Ok tt, w1)
    /\ standings w1 = delete_gte (midnight d) (standings w) ++ row :: rows
    /\ Forall (fun r => date_of (Standing.updated_at r) = d) (row :: rows)
    /\ same_day d w1 /\ accepts_all w1.
Proof.
  intros Hday Hacc Hf.
  destruct (fetch_standings_db_untouched self w _ wa Hf) as (Hs & _ & Hdb & _).
  destruct (history_kept_fetch_standings self w _ wa Hf) as (Hsub & _).
  assert (Hacc' : accepts_all wa) by (unfold accepts_all; rewrite Hdb; exact Hacc).
  destruct (write_standings_accepted_all (row :: rows) wa Hacc')
    as (today & w1 & Hin & Hw & Hst & Hacc1 & Hsub1).
  exists w1. split; [| split; [| split; [| split]]].
  - unfold sync_standings_to_supabase. rewrite (bind_ok _ _ _ _ _ Hf). simpl.
    apply try_except_ok. exact Hw.
  - rewrite Hst, Hs, (Hday today (Hsub _ Hin)). reflexivity.
  - eapply Forall_impl; [| exact (fetch_standings_stamps self w _ wa Hf)].
    intros r Hr. apply Hday. exact Hr.
  - intros t Ht. apply Hday, Hsub, Hsub1, Ht.
  - exact Hacc1.
Qed.

(** X15: a second standings sync on the same day replaces the rows of the
    first instead of adding to them.  When every reading of the clock falls
    on one date, the database accepts every statement and both fetches
    return rows, the table after the second sync is the rows of earlier
    dates followed by the rows of the second fetch only: the rows the first
    sync inserted are gone. *)
Theorem same_day_resync_replaces_standings self d w row1 rows1 wa row2 rows2 wb :
  same_day d w ->
  accepts_all w ->
  get_premier_league_standings self w = (Ok (row1 :: rows1), wa) ->
  get_premier_league_standings self (snd (sync_standings_to_supabase self w))
  = (Ok (row2 :: rows2), wb) ->
  exists w1 w2,
    sync_standings_to_supabase self w = (Ok tt, w1)
    /\ sync_standings_to_supabase self w1 = (Ok tt, w2)
    /\ standings w1 = delete_gte (midnight d) (standings w) ++ row1 :: rows1
    /\ standings w2 = delete_gte (midnight d) (standings w) ++ row2 :: rows2.
Proof.
  intros Hday Hacc Hf1 Hf2.
  destruct (same_day_sync_once self d w row1 rows1 wa Hday Hacc Hf1)
    as (w1 & E1 & S1 & D1 & Hday1 & Hacc1).
  rewrite E1 in Hf2. simpl in Hf2.
  destruct (same_day_sync_once self d w1 row2 rows2 wb Hday1 Hacc1 Hf2)
    as (w2 & E2 & S2 & _).
  exists w1, w2. split; [exact E1 | split; [exact E2 | split; [exact S1 |]]].
  rewrite S2, S1. unfold delete_gte at 1. rewrite filter_app.
  fold (delete_gte (midnight d) (delete_gte (midnight d) (standings w))).
  fold (delete_gte (midnight d) (row1 :: rows1)).
  rewrite delete_gte_twice, (delete_gte_same_day d _ D1), app_nil_r.
  reflexivity.
Qed.

Lemma same_day_resync_replaces_standings_witness :
  exists w1 w2,
    sync_standings_to_supabase (init None) two_standings_runs = (Ok tt, w1)
    /\ sync_standings_to_supabase (init None) w1 = (Ok tt, w2)
    /\ standings w1
       = delete_gte (midnight 19800) (standings two_standings_runs)
         ++ fresh_standings noon (noon + 1) (noon + 2)
    /\ standings w2
       = delete_gte (midnight 19800) (standings two_standings_runs)
         ++ fresh_standings (noon + 4) (noon + 5) (noon + 6).
Proof.
  apply (same_day_resync_replaces_standings (init None) 19800 two_standings_runs
           (stored_standing 1 57 "Arsenal" noon)
           [stored_standing 2 65 "Manchester City" (noon + 1);
            stored_standing 3 64 "Liverpool" (noon + 2)]
           (snd (get_premier_league_standings (init None) two_standings_runs))
           (stored_standing 1 57 "Arsenal" (noon + 4))
           [stored_standing 2 65 "Manchester City" (noon + 5);
            stored_standing 3 64 "Liverpool" (noon + 6)]
           (snd (get_premier_league_standings (init None)
                   (snd (sync_standings_to_supabase (init None)
                           two_standings_runs))))).
  - intros t Ht. unfold readings in Ht. simpl in Ht.
    repeat (destruct Ht as [<- | Ht]; [vm_compute; reflexivity |]).
    contradiction.
  - unfold accepts_all. simpl. constructor.
  - vm_compute. reflexivity.
  - vm_compute. reflexivity.
Defined.

(** ** The requests of the whole program *)

Lemma scheduler_loop_requests self polls : forall w r w',
  scheduler_loop self polls w = (r, w') ->
  exists evs,
    trace w' = trace w ++ evs
    /\ (count_http evs <= 2 * due polls)%nat
    /\ (r = Ok tt -> count_http evs = (2 * due polls)%nat).
Proof.
  induction polls as [| pending rest IH]; intros w r w' H; simpl in H.
  - inversion H; subst. exists []. rewrite app_nil_r.
    split; [reflexivity | split; [apply Nat.le_refl | reflexivity]].
  - destruct (bind_inv _ _ _ _ _ H) as [([] & w1 & E1 & H1) | (e & E1 & ->)].
    + destruct (bind_inv _ _ _ _ _ H1) as [([] & w2 & E2 & H2) | (e & E2 & _)];
        [| inversion E2].
      inversion E2; subst w2.
      destruct (IH _ _ _ H2) as (evs2 & T2 & B2 & Q2).
      destruct pending.
      * destruct (run_daily_sync_requests _ _ _ _ E1) as (evs1 & T1 & B1 & Q1).
        exists (evs1 ++ Sleep 60 :: evs2). split.
        { rewrite T2. simpl. rewrite T1, <- !app_assoc. reflexivity. }
        rewrite count_http_app.
        change (count_http (Sleep 60 :: evs2)) with (count_http evs2).
        change (due (true :: rest)) with (S (due rest)).
        specialize (Q1 eq_refl).
        split; [lia | intros Hr; specialize (Q2 Hr); lia].
      * inversion E1; subst w1. exists (Sleep 60 :: evs2). split.
        { rewrite T2. simpl. rewrite <- !app_assoc. reflexivity. }
        change (count_http (Sleep 60 :: evs2)) with (count_http evs2).
        change (due (false :: rest)) with (due rest).
        split; assumption.
    + destruct pending; [| inversion E1].
      destruct (run_daily_sync_requests _ _ _ _ E1) as (evs1 & T1 & B1 & _).
      exists evs1. split; [exact T1 |].
      change (due (true :: rest)) with (S (due rest)).
      split; [lia | discriminate].
Qed.

(** X16: the program sends requests only inside a daily sync, two for each:
    over any number of polls it sends at least one request and at most two
    for the sync at start-up and two for each poll at which the job was
    pending, and exactly that many when it runs through every poll.  A poll
    with no pending job sends nothing, and nothing is retried. *)
Theorem program_sends_two_requests_per_sync api_key polls w r w' :
  main api_key polls w = (r, w') ->
  exists evs,
    trace w' = trace w ++ evs
    /\ (1 <= count_http evs <= 2 * S (due polls))%nat
    /\ (r = Ok tt -> count_http evs = (2 * S (due polls))%nat).
Proof.
  unfold main. intros H.
  destruct (bind_inv _ _ _ _ _ H) as [([] & w1 & E1 & H1) | (e & E1 & ->)].
  - destruct (run_daily_sync_requests _ _ _ _ E1) as (evs1 & T1 & B1 & Q1).
    specialize (Q1 eq_refl).
    destruct (bind_inv _ _ _ _ _ H1) as [([] & w2 & E2 & H2) | (e & E2 & _)];
      [| inversion E2].
    inversion E2; subst w2.
    destruct (bind_inv _ _ _ _ _ H2) as [([] & w3 & E3 & H3) | (e & E3 & _)];
      [| inversion E3].
    inversion E3; subst w3.
    destruct (scheduler_loop_requests _ _ _ _ _ H3) as (evs2 & T2 & B2 & Q2).
    exists (evs1
            ++ Print (Text "Scheduler started. Running daily sync at 06:00...")
            :: Print (Text "Press Ctrl+C to stop") :: evs2).
    split.
    { rewrite T2. simpl. rewrite T1, <- !app_assoc. reflexivity. }
    rewrite count_http_app.
    change (count_http (Print (Text "Scheduler started. Running daily sync at 06:00...")
                          :: Print (Text "Press Ctrl+C to stop") :: evs2))
      with (count_http evs2).
    split; [lia | intros Hr; specialize (Q2 Hr); lia].
  - destruct (run_daily_sync_requests _ _ _ _ E1) as (evs1 & T1 & B1 & _).
    exists evs1. split; [exact T1 | split; [lia | discriminate]].
Qed.

Lemma program_sends_two_requests_per_sync_witness :
  exists evs,
    trace (snd (main (Some "token") [true; false; true] stormy_days))
    = trace stormy_days ++ evs
    /\ (1 <= count_http evs <= 2 * S (due [true; false; true]))%nat
    /\ (fst (main (Some "token") [true; false; true] stormy_days) = Ok tt ->
        count_http evs = (2 * S (due [true; false; true]))%nat).
Proof.
  apply (program_sends_two_requests_per_sync (Some "token") [true; false; true]
           stormy_days).
  vm_compute. reflexivity.
Defined.
